(** * CycloRec: a shallow embedding of the recommendation simulator

    The development follows the Python sources module by module:
    [custom_exceptions], [mab.mab_policies], [mab.naive_mab],
    [mab.restriction_naive_mab], [data_layers.data_layer],
    [user_layer.user_layer], [evaluator.evaluator],
    [recommenders.base_recommender], [recommenders.simple.random_rec] and
    [recommenders.mab.item_fp_mab_rec].

    Conventions.
    - Python floats are rationals ([Q]) plus the [NaN] sentinel wherever the
      source tests [math.isnan]; comparisons of floats are comparisons of
      the rationals they denote.
    - Python exceptions are the [Raise] branch of [result].
    - numpy arrays are lists read with [!!] and written with [<[i:=x]>];
      an out-of-range access raises [IndexError] as numpy does.  Indices
      are naturals (the callers never pass negative positions).
    - pandas frames are kept with their row and column labels, since the
      source mixes label-based ([.at], [get_loc]) and positional ([.iat],
      [.iloc]) access.  External user and item keys are naturals.  Where
      pandas versions differ the model follows pandas 1.3 to 1.5 (the
      source calls [DataFrame.append], which pandas 2 removed).
    - The process-wide pseudo-random source is an explicit [rng] argument. *)

From Stdlib Require Import ZArith QArith Qround Lia Sorted.
From stdpp Require Import base option list gmap.

Local Open Scope Z_scope.

(** ** custom_exceptions *)

Inductive exn : Type :=
  | UserFullError
  | SystemFullError
  | UnavailableArms
  | IndexError
  | ValueError
  | TypeError
  | AssertionError
  | AttributeError
  | KeyError
  | UnboundLocalError
  | ZeroDivisionError.

Inductive result (A : Type) : Type :=
  | Ok (a : A)
  | Raise (e : exn).
Arguments Ok {A} a.
Arguments Raise {A} e.

#[global] Instance result_ret : MRet result := fun _ a => Ok a.
#[global] Instance result_bind : MBind result := fun _ _ f m =>
  match m with
  | Ok a => f a
  | Raise e => Raise e
  end.

Definition is_ok {A} (r : result A) : bool :=
  match r with Ok _ => true | Raise _ => false end.

(** ** A state monad with exceptions

    Methods that mutate [self] and may raise are functions from the state
    to an outcome and the state left behind (which an exception does not
    roll back). *)

Definition SE (S A : Type) : Type := S -> result A * S.

#[global] Instance se_ret {S} : MRet (SE S) := fun _ a s => (Ok a, s).
#[global] Instance se_bind {S} : MBind (SE S) := fun _ _ f m s =>
  match m s with
  | (Ok a, s') => f a s'
  | (Raise e, s') => (Raise e, s')
  end.

Definition se_get {S} : SE S S := fun s => (Ok s, s).
Definition se_modify {S} (f : S -> S) : SE S unit := fun s => (Ok tt, f s).
Definition se_raise {S A} (e : exn) : SE S A := fun s => (Raise e, s).
Definition se_lift {S A} (r : result A) : SE S A := fun s => (r, s).

(** Run a method of a component object stored in a field. *)
Definition se_zoom {S S' A} (proj : S -> S') (upd : S -> S' -> S) (m : SE S' A)
  : SE S A :=
  fun s => match m (proj s) with (r, s') => (r, upd s s') end.

(** ** Numeric values *)

Inductive pyfloat : Type :=
  | NaN
  | Fin (q : Q).

(** [math.isnan] *)
Definition isnan (x : pyfloat) : bool :=
  match x with NaN => true | Fin _ => false end.

(** Comparisons with a float operand: any comparison with NaN is false. *)
Definition py_eq (x : pyfloat) (c : Q) : bool :=
  match x with NaN => false | Fin q => Qeq_bool q c end.
Definition py_gt (x : pyfloat) (c : Q) : bool :=
  match x with NaN => false | Fin q => negb (Qle_bool q c) end.
Definition py_lt (x : pyfloat) (c : Q) : bool :=
  match x with NaN => false | Fin q => negb (Qle_bool c q) end.
Definition py_ge (x : pyfloat) (c : Q) : bool :=
  match x with NaN => false | Fin q => Qle_bool c q end.
Definition py_le (x : pyfloat) (c : Q) : bool :=
  match x with NaN => false | Fin q => Qle_bool q c end.

Definition Qlt_bool (a b : Q) : bool := negb (Qle_bool b a).

(** ** numpy helpers *)

(** [a[i]] *)
Definition np_get {A} (a : list A) (i : nat) : result A :=
  match a !! i with
  | Some x => Ok x
  | None => Raise IndexError
  end.

(** [a[i] = x] *)
Definition np_set {A} (a : list A) (i : nat) (x : A) : result (list A) :=
  match a !! i with
  | Some _ => Ok (<[i:=x]> a)
  | None => Raise IndexError
  end.

(** [a[idxs]] with a list of positions (fancy indexing) *)
Fixpoint np_take {A} (a : list A) (idxs : list nat) : result (list A) :=
  match idxs with
  | [] => Ok []
  | i :: rest =>
      x ← np_get a i;
      xs ← np_take a rest;
      Ok (x :: xs)
  end.

(** [np.where(pred(a))[0]]: the positions whose element satisfies [p],
    in increasing order. *)
Fixpoint np_where_from {A} (p : A -> bool) (k : nat) (a : list A) : list nat :=
  match a with
  | [] => []
  | x :: rest =>
      if p x then k :: np_where_from p (S k) rest
      else np_where_from p (S k) rest
  end.
Definition np_where {A} (p : A -> bool) (a : list A) : list nat :=
  np_where_from p 0 a.

(** [np.max(a)] on a non-empty array of (non-NaN) floats *)
Definition Qmaxb (a b : Q) : Q := if Qle_bool a b then b else a.
Definition np_max (a : list Q) : Q :=
  match a with
  | [] => 0%Q
  | x :: rest => fold_left Qmaxb rest x
  end.

(** The random source.  [rand_int] feeds [np.random.randint] and
    [np.random.choice], [rand_sample] is [np.random.random_sample()], and
    [rand_beta k a b] is the draw of [np.random.beta] at position [k]. *)
Record rng : Type := {
  rand_int : nat;
  rand_sample : Q;
  rand_beta : nat -> Q -> Q -> Q
}.

(** [np.random.randint(n)] for [n > 0] *)
Definition np_random_randint (g : rng) (n : nat) : nat :=
  (rand_int g mod n)%nat.

(** [np.random.choice(a)]: raises [ValueError] on an empty array *)
Definition np_random_choice (g : rng) (a : list nat) : result nat :=
  match a with
  | [] => Raise ValueError
  | _ :: _ => np_get a (rand_int g mod length a)%nat
  end.

(** Elementwise binary operation with numpy's broadcasting of a
    one-element operand; any other length mismatch raises [ValueError]. *)
Definition np_broadcast2 {A B C} (f : A -> B -> C) (a : list A) (b : list B)
  : result (list C) :=
  if (length a =? length b)%nat then Ok (zip_with f a b)
  else match a, b with
       | [x], _ => Ok (map (f x) b)
       | _, [y] => Ok (map (fun x => f x y) a)
       | _, _ => Raise ValueError
       end.

(** [np.max] on an array of floats that may hold NaN: NaN propagates. *)
Definition fmax (a b : pyfloat) : pyfloat :=
  match a, b with
  | Fin x, Fin y => Fin (Qmaxb x y)
  | _, _ => NaN
  end.
Definition np_fmax (a : list pyfloat) : pyfloat :=
  match a with
  | [] => NaN
  | x :: rest => fold_left fmax rest x
  end.

(** [np.where(values == m)[0]] for floats: nothing equals NaN. *)
Definition np_where_feq (m : pyfloat) (values : list pyfloat) : list nat :=
  match m with
  | NaN => []
  | Fin q => np_where (fun v => py_eq v q) values
  end.

(** The two routines of the numeric libraries that the policies call and
    that have no rational counterpart.  [np_sqrt_pos] is [np.sqrt] on a
    non-negative argument, [math_log_pos] is [math.log] on an epoch that is
    at least one, where a logarithm is never negative. *)
Class FloatLib : Type := {
  np_sqrt_pos : Q -> Q;
  math_log_pos : Z -> Q;
  math_log_nonneg : forall e : Z, 1 <= e -> (0 <= math_log_pos e)%Q
}.

(** ** mab.mab_policies *)

Module Policies.
Section Policies.
Context `{FL : FloatLib}.

(** [np.sqrt]: NaN (with a warning) on a negative argument *)
Definition np_sqrt (x : Q) : pyfloat :=
  if Qlt_bool x 0 then NaN else Fin (np_sqrt_pos x).

(** [math.log]: "math domain error" on a non-positive argument *)
Definition math_log (e : Z) : result Q :=
  if e <=? 0 then Raise ValueError else Ok (math_log_pos e).

Definition fadd (r : Q) (x : pyfloat) : pyfloat :=
  match x with NaN => NaN | Fin q => Fin (r + q) end.

Definition random (g : rng) (rewards : list Q) (n_pulls : list Z)
    (alphas betas : list Q) (mab_epoch : Z) (epsilon delta : Q) : result nat :=
  if (length rewards =? 0)%nat then Raise UnavailableArms
  else Ok (np_random_randint g (length rewards)).

Definition greedy (g : rng) (rewards : list Q) (n_pulls : list Z)
    (alphas betas : list Q) (mab_epoch : Z) (epsilon delta : Q) : result nat :=
  if (length rewards =? 0)%nat then Raise UnavailableArms
  else
    let max_idxs := np_where (fun r => Qeq_bool r (np_max rewards)) rewards in
    np_random_choice g max_idxs.

Definition e_greedy (g : rng) (rewards : list Q) (n_pulls : list Z)
    (alphas betas : list Q) (mab_epoch : Z) (epsilon delta : Q) : result nat :=
  if (length rewards =? 0)%nat then Raise UnavailableArms
  else
    let draw := rand_sample g in
    if Qlt_bool draw epsilon then
      Ok (np_random_randint g (length rewards))
    else
      let max_idxs := np_where (fun r => Qeq_bool r (np_max rewards)) rewards in
      np_random_choice g max_idxs.

(** [np.random.beta(a, b)] rejects a non-positive parameter. *)
Definition np_random_beta (g : rng) (ab : list (Q * Q)) : result (list Q) :=
  if forallb (fun p => Qlt_bool 0 (fst p) && Qlt_bool 0 (snd p)) ab
  then Ok (imap (fun k p => rand_beta g k (fst p) (snd p)) ab)
  else Raise ValueError.

Definition ts (g : rng) (rewards : list Q) (n_pulls : list Z)
    (alphas betas : list Q) (mab_epoch : Z) (epsilon delta : Q) : result nat :=
  if (length rewards =? 0)%nat then Raise UnavailableArms
  else
    ab ← np_broadcast2 (fun a b => (a + 1, b + 1)%Q) alphas betas;
    draws ← np_random_beta g ab;
    let max_idxs := np_where (fun d => Qeq_bool d (np_max draws)) draws in
    np_random_choice g max_idxs.

(** The exploration-adjusted value of every arm, as line 169 computes it:
    [rewards + np.sqrt(delta*math.log(mab_epoch)/n_pulls)]. *)
Definition ucb_values (rewards : list Q) (n_pulls : list Z) (lg delta : Q)
  : result (list pyfloat) :=
  np_broadcast2 fadd rewards
    (map (fun n => np_sqrt (delta * lg / inject_Z n)) n_pulls).

Definition ucb (g : rng) (rewards : list Q) (n_pulls : list Z)
    (alphas betas : list Q) (mab_epoch : Z) (epsilon delta : Q) : result nat :=
  if (length rewards =? 0)%nat then Raise UnavailableArms
  else
    let zeroes_indexes := np_where (Z.eqb 0) n_pulls in
    if (0 <? length zeroes_indexes)%nat then
      np_random_choice g zeroes_indexes
    else
      delta' ← (if Qlt_bool delta 0 then
                  lg ← math_log mab_epoch;
                  Ok (1 + inject_Z mab_epoch * (lg * lg))%Q
                else Ok delta);
      lg ← math_log mab_epoch;
      values ← ucb_values rewards n_pulls lg delta';
      let max_idxs := np_where_feq (np_fmax values) values in
      np_random_choice g max_idxs.

End Policies.
End Policies.

(** The names accepted by the bandit constructor ([valid_policies]). *)
Inductive policy_name : Type :=
  | Greedy
  | EGreedy
  | RandomPolicy
  | TS
  | UCB.

(** ** mab.naive_mab and mab.restriction_naive_mab *)

Record NaiveMAB : Type := {
  policy : policy_name;
  num_pulls : list Z;
  alphas : list Q;
  alpha0 : Q;
  betas : list Q;
  beta0 : Q;
  init_estimate : Q;
  reward_estimates : list Q;
  epsilon : Q;
  delta : Q;
  totalrewards : Q;
  t : Z
}.

Definition set_num_pulls (s : NaiveMAB) (v : list Z) : NaiveMAB :=
  {| policy := policy s; num_pulls := v; alphas := alphas s; alpha0 := alpha0 s;
     betas := betas s; beta0 := beta0 s; init_estimate := init_estimate s;
     reward_estimates := reward_estimates s; epsilon := epsilon s;
     delta := delta s; totalrewards := totalrewards s; t := t s |}.
Definition set_alphas (s : NaiveMAB) (v : list Q) : NaiveMAB :=
  {| policy := policy s; num_pulls := num_pulls s; alphas := v; alpha0 := alpha0 s;
     betas := betas s; beta0 := beta0 s; init_estimate := init_estimate s;
     reward_estimates := reward_estimates s; epsilon := epsilon s;
     delta := delta s; totalrewards := totalrewards s; t := t s |}.
Definition set_betas (s : NaiveMAB) (v : list Q) : NaiveMAB :=
  {| policy := policy s; num_pulls := num_pulls s; alphas := alphas s; alpha0 := alpha0 s;
     betas := v; beta0 := beta0 s; init_estimate := init_estimate s;
     reward_estimates := reward_estimates s; epsilon := epsilon s;
     delta := delta s; totalrewards := totalrewards s; t := t s |}.
Definition set_reward_estimates (s : NaiveMAB) (v : list Q) : NaiveMAB :=
  {| policy := policy s; num_pulls := num_pulls s; alphas := alphas s; alpha0 := alpha0 s;
     betas := betas s; beta0 := beta0 s; init_estimate := init_estimate s;
     reward_estimates := v; epsilon := epsilon s;
     delta := delta s; totalrewards := totalrewards s; t := t s |}.
Definition set_totalrewards (s : NaiveMAB) (v : Q) : NaiveMAB :=
  {| policy := policy s; num_pulls := num_pulls s; alphas := alphas s; alpha0 := alpha0 s;
     betas := betas s; beta0 := beta0 s; init_estimate := init_estimate s;
     reward_estimates := reward_estimates s; epsilon := epsilon s;
     delta := delta s; totalrewards := v; t := t s |}.
Definition set_t (s : NaiveMAB) (v : Z) : NaiveMAB :=
  {| policy := policy s; num_pulls := num_pulls s; alphas := alphas s; alpha0 := alpha0 s;
     betas := betas s; beta0 := beta0 s; init_estimate := init_estimate s;
     reward_estimates := reward_estimates s; epsilon := epsilon s;
     delta := delta s; totalrewards := totalrewards s; t := v |}.

Module MAB.
Section MAB.
Context `{FL : FloatLib}.

(** [self.policy(rewards=..., n_pulls=..., ...)] *)
Definition run_policy (p : policy_name) (g : rng) (rewards : list Q)
    (n_pulls : list Z) (al be : list Q) (mab_epoch : Z) (eps dl : Q)
  : result nat :=
  match p with
  | Greedy => Policies.greedy g rewards n_pulls al be mab_epoch eps dl
  | EGreedy => Policies.e_greedy g rewards n_pulls al be mab_epoch eps dl
  | RandomPolicy => Policies.random g rewards n_pulls al be mab_epoch eps dl
  | TS => Policies.ts g rewards n_pulls al be mab_epoch eps dl
  | UCB => Policies.ucb g rewards n_pulls al be mab_epoch eps dl
  end.

(** [NaiveMAB.__init__] *)
Definition init (p : policy_name) (narms : nat) (eps dl a0 b0 : Q)
  : result NaiveMAB :=
  if negb (Qle_bool 0 a0 && Qle_bool 0 b0) then Raise AssertionError
  else
    let est := if Qeq_bool a0 0 then 0%Q else (a0 / (a0 + b0))%Q in
    Ok {| policy := p;
          num_pulls := replicate narms 0;
          alphas := replicate narms a0;
          alpha0 := a0;
          betas := replicate narms b0;
          beta0 := b0;
          init_estimate := est;
          reward_estimates := replicate narms est;
          epsilon := eps;
          delta := dl;
          totalrewards := 0%Q;
          t := 1 |}.

(** [self.num_pulls[armidx] += 1; self.t += 1] *)
Definition record_pull (armidx : nat) : SE NaiveMAB unit :=
  s ← se_get;
  n ← se_lift (np_get (num_pulls s) armidx);
  se_modify (fun s => set_num_pulls s (<[armidx := n + 1]> (num_pulls s)));;
  se_modify (fun s => set_t s (t s + 1)).

(** [NaiveMAB.pull] *)
Definition pull (g : rng) : SE NaiveMAB nat :=
  s ← se_get;
  armidx ← se_lift (run_policy (policy s) g (reward_estimates s) (num_pulls s)
                      (alphas s) (betas s) (t s) (epsilon s) (delta s));
  record_pull armidx;;
  mret armidx.

(** [NaiveMAB.pull_fixed_arm] *)
Definition pull_fixed_arm (armidx : nat) : SE NaiveMAB unit :=
  record_pull armidx.

(** [self.reward_estimates[armidx] =
      self.alphas[armidx]/(self.alphas[armidx]+self.betas[armidx])] *)
Definition recompute_estimate (armidx : nat) : SE NaiveMAB unit :=
  s ← se_get;
  a ← se_lift (np_get (alphas s) armidx);
  b ← se_lift (np_get (betas s) armidx);
  est ← se_lift (np_set (reward_estimates s) armidx (a / (a + b))%Q);
  se_modify (fun s => set_reward_estimates s est).

(** [self.alphas[armidx] += 1] *)
Definition incr_alpha (armidx : nat) : SE NaiveMAB unit :=
  s ← se_get;
  a ← se_lift (np_get (alphas s) armidx);
  se_modify (fun s => set_alphas s (<[armidx := (a + 1)%Q]> (alphas s))).

(** [self.betas[armidx] += 1] *)
Definition incr_beta (armidx : nat) : SE NaiveMAB unit :=
  s ← se_get;
  b ← se_lift (np_get (betas s) armidx);
  se_modify (fun s => set_betas s (<[armidx := (b + 1)%Q]> (betas s))).

(** [NaiveMAB.update_rewards] *)
Definition update_rewards (armidx : nat) (reward : pyfloat)
    (nanAsFailure : bool) : SE NaiveMAB unit :=
  if negb (isnan reward) && py_eq reward 1 then
    (* Success *)
    incr_alpha armidx;;
    recompute_estimate armidx;;
    se_modify (fun s => set_totalrewards s (totalrewards s + 1)%Q)
  else if negb (isnan reward) && py_eq reward 0 then
    (* Failure *)
    incr_beta armidx;;
    recompute_estimate armidx
  else if nanAsFailure then
    (* Failure *)
    incr_beta armidx;;
    recompute_estimate armidx
  else mret tt.

(** [NaiveMAB.reset_bandit] *)
Definition reset_bandit : SE NaiveMAB unit :=
  se_modify (fun s =>
    {| policy := policy s;
       num_pulls := replicate (length (num_pulls s)) 0;
       alphas := replicate (length (alphas s)) (alpha0 s);
       alpha0 := alpha0 s;
       betas := replicate (length (betas s)) (beta0 s);
       beta0 := beta0 s;
       init_estimate := init_estimate s;
       reward_estimates :=
         replicate (length (reward_estimates s)) (init_estimate s);
       epsilon := epsilon s;
       delta := delta s;
       totalrewards := 0%Q;
       t := 1 |}).

(** [RestrictionNaiveMAB.pull]; the result is [(fake_armidx, armidx)]. *)
Definition restricted_pull (available_arms : list nat) (g : rng)
  : SE NaiveMAB (nat * nat) :=
  s ← se_get;
  available_rewards ← se_lift (np_take (reward_estimates s) available_arms);
  available_alphas ← se_lift (np_take (alphas s) available_arms);
  available_betas ← se_lift (np_take (betas s) available_arms);
  available_n_pulls ← se_lift (np_take (num_pulls s) available_arms);
  fake_armidx ← se_lift (run_policy (policy s) g available_rewards
                           available_n_pulls available_alphas available_betas
                           (t s) (epsilon s) (delta s));
  armidx ← se_lift (np_get available_arms fake_armidx);
  record_pull armidx;;
  mret (fake_armidx, armidx).

(** The calls a client can make on a bandit, and the bandit after a call
    (an exception leaves the bandit as it was when raised). *)
Inductive call : Type :=
  | CallPull (g : rng)
  | CallRestrictedPull (available_arms : list nat) (g : rng)
  | CallPullFixedArm (armidx : nat)
  | CallUpdateRewards (armidx : nat) (reward : pyfloat) (nanAsFailure : bool)
  | CallResetBandit.

Definition after (s : NaiveMAB) (c : call) : NaiveMAB :=
  match c with
  | CallPull g => snd (pull g s)
  | CallRestrictedPull arms g => snd (restricted_pull arms g s)
  | CallPullFixedArm i => snd (pull_fixed_arm i s)
  | CallUpdateRewards i r naf => snd (update_rewards i r naf s)
  | CallResetBandit => snd (reset_bandit s)
  end.

(** The two classes: [RestrictionNaiveMAB] overrides [pull] and inherits
    the rest. *)
Inductive variant : Type :=
  | Unrestricted
  | Restricted.

Definition offers (v : variant) (c : call) : bool :=
  match v, c with
  | Unrestricted, CallRestrictedPull _ _ => false
  | Restricted, CallPull _ => false
  | _, _ => true
  end.

(** The states a bandit of class [v] can be in. *)
Inductive reachable (v : variant) : NaiveMAB -> Prop :=
  | reach_init p narms eps dl a0 b0 s :
      init p narms eps dl a0 b0 = Ok s -> reachable v s
  | reach_call s c :
      reachable v s -> offers v c = true -> reachable v (after s c).

(** [sum(self.num_pulls)] *)
Definition sum_pulls (s : NaiveMAB) : Z := foldr Z.add 0 (num_pulls s).

(** The shape every constructed bandit keeps: index-aligned arrays and
    non-negative success and failure counters. *)
Definition aligned (s : NaiveMAB) : Prop :=
  length (alphas s) = length (num_pulls s) /\
  length (betas s) = length (num_pulls s) /\
  length (reward_estimates s) = length (num_pulls s) /\
  Forall (fun a => (0 <= a)%Q) (alphas s) /\
  Forall (fun b => (0 <= b)%Q) (betas s).

End MAB.
End MAB.

(** ** data_layers.data_layer *)

(** A held-out rating record: the ['rating'] field and the optional
    ['known'] field that some datasets attach. *)
Record rating_record : Type := {
  rating : pyfloat;
  known : option Z
}.

(** A row of a ratings table, before and after re-indexing:
    [user | item | rating (and attached fields)]. *)
Record ratings_row : Type := {
  row_user : nat;
  row_item : nat;
  row_record : rating_record
}.

(** The utility matrix, a [pandas.DataFrame] of floats: row labels, column
    labels, and the cells that are not NaN, keyed by (row label, column
    label). *)
Record DataFrame : Type := {
  df_index : list nat;
  df_columns : list nat;
  df_cells : gmap (nat * nat) Q
}.

(** [pd.DataFrame()] *)
Definition empty_frame : DataFrame :=
  {| df_index := []; df_columns := []; df_cells := ∅ |}.

(** [df.iat[r, c]]: access by position *)
Definition df_iat (df : DataFrame) (r c : nat) : result pyfloat :=
  match df_index df !! r, df_columns df !! c with
  | Some lr, Some lc =>
      Ok (match df_cells df !! (lr, lc) with
          | Some q => Fin q
          | None => NaN
          end)
  | _, _ => Raise IndexError
  end.

(** [df.at[r, c] = q]: access by label; a missing row or column label is
    appended (setting with enlargement), its other cells being NaN. *)
Definition df_at_set (df : DataFrame) (r c : nat) (q : Q) : DataFrame :=
  {| df_index := if bool_decide (r ∈ df_index df) then df_index df
                 else df_index df ++ [r];
     df_columns := if bool_decide (c ∈ df_columns df) then df_columns df
                   else df_columns df ++ [c];
     df_cells := <[(r, c) := q]> (df_cells df) |}.

(** Ascending labels without repetition ([sort_index] of a unique index,
    [Index.union] of unique indexes). *)
Fixpoint insert_sorted (x : nat) (l : list nat) : list nat :=
  match l with
  | [] => [x]
  | y :: rest =>
      if (x <? y)%nat then x :: l
      else if (x =? y)%nat then l
      else y :: insert_sorted x rest
  end.
Definition sorted_unique (l : list nat) : list nat :=
  foldr insert_sorted [] l.

(** [index.is_unique] *)
Definition is_unique (l : list nat) : bool := bool_decide (NoDup l).

(** [sort_index(ascending=True)] of an index that may repeat labels:
    ascending labels, every repetition kept. *)
Fixpoint insert_label (x : nat) (l : list nat) : list nat :=
  match l with
  | [] => [x]
  | y :: rest => if (x <=? y)%nat then x :: l else y :: insert_label x rest
  end.
Definition sort_index (l : list nat) : list nat := foldr insert_label [] l.

(** [l] without the first occurrence of [x]. *)
Fixpoint drop_first (x : nat) (l : list nat) : list nat :=
  match l with
  | [] => []
  | y :: rest => if (x =? y)%nat then rest else y :: drop_first x rest
  end.

(** [left.union(other, sort=None)] when [other] is not made unique first
    (pandas 1.3 and later): a label occurs as often as in the operand
    that repeats it most, that is, the labels of [left] and those of
    [other] that are left over once each label of [left] has cancelled
    one occurrence; in ascending order. *)
Definition index_union (left other : list nat) : list nat :=
  sort_index (left ++ fold_left (fun rest x => drop_first x rest) left other).

(** [index.get_loc(x)] on a unique index *)
Fixpoint get_loc_from (k : nat) (l : list nat) (x : nat) : result nat :=
  match l with
  | [] => Raise KeyError
  | y :: rest => if (x =? y)%nat then Ok k else get_loc_from (S k) rest x
  end.
Definition get_loc (l : list nat) (x : nat) : result nat := get_loc_from 0 l x.

(** [train_set.pivot_table(index='user_id', columns='item_id',
    values='rating')]: the mean of the non-NaN ratings of every
    (user, item) pair; users and items without any such rating get no row
    or column.  Labels come out sorted. *)
Definition known_rows (rows : list ratings_row) : list ratings_row :=
  filter (fun r => isnan (rating (row_record r)) = false) rows.

Definition pivot_sums (rows : list ratings_row) : gmap (nat * nat) (Q * Z) :=
  foldr (fun r m =>
           match rating (row_record r) with
           | NaN => m
           | Fin q =>
               let key := (row_user r, row_item r) in
               let sc := default (0%Q, 0) (m !! key) in
               <[key := ((fst sc + q)%Q, snd sc + 1)]> m
           end) ∅ rows.

Definition pivot_table (rows : list ratings_row) : DataFrame :=
  {| df_index := sorted_unique (row_user <$> known_rows rows);
     df_columns := sorted_unique (row_item <$> known_rows rows);
     df_cells := (fun sc => (fst sc / inject_Z (snd sc))%Q) <$> pivot_sums rows |}.

(** [self.utility_matrix[item_id] = np.nan] for every catalog item without
    a column. *)
Definition add_missing_columns (df : DataFrame) (item_ids : list nat) : DataFrame :=
  {| df_index := df_index df;
     df_columns :=
       fold_left (fun cols i => if bool_decide (i ∈ cols) then cols else cols ++ [i])
                 item_ids (df_columns df);
     df_cells := df_cells df |}.

(** [sort_index] on both axes, [reset_index(drop=True)] and
    [columns = range(n_items)]: every label is replaced by its position;
    assigning [n_items] column labels to a frame that has a different
    number of columns raises [ValueError]. *)
Definition relabel_cells (rows cols : list nat) (cells : gmap (nat * nat) Q)
  : gmap (nat * nat) Q :=
  list_to_map
    (omap (M := list) (fun kv : (nat * nat) * Q =>
             match get_loc rows (fst (fst kv)), get_loc cols (snd (fst kv)) with
             | Ok r, Ok c => Some ((r, c), snd kv)
             | _, _ => None
             end) (map_to_list cells)).

Definition reindex_matrix (df : DataFrame) (n_items : nat) : result DataFrame :=
  let rows := sorted_unique (df_index df) in
  let cols := sorted_unique (df_columns df) in
  if negb (length cols =? n_items)%nat then Raise ValueError
  else Ok {| df_index := seq 0 (length rows);
             df_columns := seq 0 n_items;
             df_cells := relabel_cells rows cols (df_cells df) |}.

(** [series.value_counts()]: the distinct non-NaN values with their number
    of occurrences (the order of the keys plays no role in the sums). *)
Fixpoint vc_add (v : Q) (vc : list (Q * Z)) : list (Q * Z) :=
  match vc with
  | [] => [(v, 1)]
  | (w, c) :: rest =>
      if Qeq_bool w v then (w, c + 1) :: rest else (w, c) :: vc_add v rest
  end.
Fixpoint value_counts (col : list pyfloat) : list (Q * Z) :=
  match col with
  | [] => []
  | NaN :: rest => value_counts rest
  | Fin v :: rest => vc_add v (value_counts rest)
  end.

(** The counting loop of the constructor (lines 145-153); the result is
    [(antiRelevantCount, relevantCount)]. *)
Definition count_relevance (relevance_threshold antiRelevance_threshold : Q)
    (test_value_counts : list (Q * Z)) : Z * Z :=
  fold_left
    (fun acc vc =>
       let value := fst vc in
       let anti := if Qle_bool value antiRelevance_threshold
                   then fst acc + snd vc else fst acc in
       let rel := if Qle_bool relevance_threshold value
                  then snd acc + snd vc else snd acc in
       (anti, rel))
    test_value_counts (0, 0).

(** Replace the external keys of a ratings table by indexes. *)
Fixpoint to_indexes (users items : list nat) (rows : list ratings_row)
  : result (list ratings_row) :=
  match rows with
  | [] => Ok []
  | r :: rest =>
      u ← get_loc users (row_user r);
      i ← get_loc items (row_item r);
      rest' ← to_indexes users items rest;
      Ok ({| row_user := u; row_item := i; row_record := row_record r |} :: rest')
  end.

(** [{level: self.test_df.xs(level).to_dict('index') ...}]: a dictionary
    per user index; [to_dict('index')] refuses a repeated item index. *)
Fixpoint build_test_set (rows : list ratings_row)
  : result (gmap nat (gmap nat rating_record)) :=
  match rows with
  | [] => Ok ∅
  | r :: rest =>
      m ← build_test_set rest;
      let per_user := default ∅ (m !! row_user r) in
      match per_user !! row_item r with
      | Some _ => Raise ValueError
      | None => Ok (<[row_user r := <[row_item r := row_record r]> per_user]> m)
      end
  end.

Record DataLayer : Type := {
  relevanceThreshold : Q;
  antiRelevanceThreshold : Q;
  initial_train_set : list ratings_row;
  utility_matrix : DataFrame;
  test_df : list ratings_row;
  users : list nat;
  items : list nat;
  relevantCount : Z;
  antiRelevantCount : Z;
  toDiscoverCount : Z;
  test_set : gmap nat (gmap nat rating_record)
}.

Definition set_utility_matrix (dl : DataLayer) (m : DataFrame) : DataLayer :=
  {| relevanceThreshold := relevanceThreshold dl;
     antiRelevanceThreshold := antiRelevanceThreshold dl;
     initial_train_set := initial_train_set dl;
     utility_matrix := m;
     test_df := test_df dl;
     users := users dl;
     items := items dl;
     relevantCount := relevantCount dl;
     antiRelevantCount := antiRelevantCount dl;
     toDiscoverCount := toDiscoverCount dl;
     test_set := test_set dl |}.

Module DataLayerOps.

(** The random split of lines 99-108: row [k] goes to the test set when
    the [k]-th draw of [np.random.rand] is below [test_proportion]. *)
Definition split_mask (rand : nat -> Q) (test_proportion : Q)
    (whole_set : list ratings_row) : list bool :=
  imap (fun k _ => Qlt_bool (rand k) test_proportion) whole_set.

Definition select_rows (keep : bool) (mask : list bool)
    (whole_set : list ratings_row) : list ratings_row :=
  snd <$> filter (fun p => fst p = keep) (zip mask whole_set).

(** [DataLayer.__init__].  [users_arg] and [items_arg] are the indexes of
    the optional catalogs. *)
Definition init (users_arg items_arg : option (list nat)) (splitted : bool)
    (whole_set : list ratings_row) (rand : nat -> Q) (test_proportion : Q)
    (relevance_threshold antiRelevance_threshold : Q) : result DataLayer :=
  if splitted then
    (* [train_set] and [test_set] are not passed, that is [None]:
       [train_set.copy()] raises; and with both passed [self.test_df] is
       never assigned on this branch *)
    Raise AttributeError
  else
    let mask := split_mask rand test_proportion whole_set in
    let train_set := select_rows false mask whole_set in
    let matrix0 :=
      match train_set with
      | [] => empty_frame
      | _ :: _ => pivot_table train_set
      end in
    let test_rows := select_rows true mask whole_set in
    (* [self.test_df] is [pd.DataFrame()] for an empty test set: it has no
       ['user_id'], ['item_id'] or ['rating'], and the first statement
       that asks for one raises [KeyError] *)
    let test_empty := (length test_rows =? 0)%nat in
    (* Users.  With a catalog, the loop of lines 126-128 calls
       [self.utility_matrix.append(...)] and drops the frame it returns:
       the matrix gets no row for a user without training ratings. *)
    users0 ← match users_arg with
             | None =>
                 if test_empty then Raise KeyError
                 else Ok (sorted_unique (df_index matrix0 ++ (row_user <$> test_rows)))
             | Some us => if is_unique us then Ok us else Raise TypeError
             end;
    (* Items.  Without a catalog the held-out item ids enter the union as
       they are (line 132 has no [.unique()]), repetitions included. *)
    im ← match items_arg with
         | None =>
             if test_empty then Raise KeyError
             else Ok (index_union (df_columns matrix0) (row_item <$> test_rows),
                      matrix0)
         | Some its =>
             if is_unique its then Ok (its, add_missing_columns matrix0 its)
             else Raise TypeError
         end;
    let items0 := fst im in
    let matrix1 := snd im in
    (* Counting relevant/antirelevant values *)
    if test_empty then Raise KeyError
    else
      let test_value_counts :=
        value_counts ((fun r => rating (row_record r)) <$> test_rows) in
      let counts :=
        count_relevance relevance_threshold antiRelevance_threshold
          test_value_counts in
      (* Changing ids for indexes *)
      let items1 := sort_index items0 in
      let users1 := sorted_unique users0 in
      matrix2 ← reindex_matrix matrix1 (length items1);
      train_idx ← to_indexes users1 items1 train_set;
      test_idx ← to_indexes users1 items1 test_rows;
      dict ← build_test_set test_idx;
      Ok {| relevanceThreshold := relevance_threshold;
            antiRelevanceThreshold := antiRelevance_threshold;
            initial_train_set := train_idx;
            utility_matrix := matrix2;
            test_df := test_idx;
            users := users1;
            items := items1;
            relevantCount := snd counts;
            antiRelevantCount := fst counts;
            toDiscoverCount := fst counts + snd counts;
            test_set := dict |}.

Definition get_n_items (dl : DataLayer) : nat := length (items dl).
Definition get_n_users (dl : DataLayer) : nat := length (users dl).

(** [list(self.users.index.values)] after [reset_index] *)
Definition list_users (dl : DataLayer) : list nat := seq 0 (length (users dl)).

(** [self.users.iloc[user_idx].loc['user_id']] *)
Definition get_user_id_from_index (dl : DataLayer) (user_idx : nat) : result nat :=
  np_get (users dl) user_idx.

Definition get_user_initial_recommendations (dl : DataLayer) (user_idx : nat)
  : list nat :=
  row_item <$> filter (fun r => row_user r = user_idx) (initial_train_set dl).

Definition get_known_rating (dl : DataLayer) (user_idx item_idx : nat)
  : result pyfloat :=
  df_iat (utility_matrix dl) user_idx item_idx.

Definition set_rating (dl : DataLayer) (user_idx item_idx : nat) (r : pyfloat)
  : DataLayer :=
  match r with
  | NaN => dl
  | Fin q => set_utility_matrix dl (df_at_set (utility_matrix dl) user_idx item_idx q)
  end.

Definition get_reward (dl : DataLayer) (user_id item_id : nat) (r : rating_record)
  : pyfloat := rating r.

Definition get_user_test_ratings_dict (dl : DataLayer) (user_idx : nat)
  : gmap nat rating_record :=
  match test_set dl !! user_idx with
  | Some d => d
  | None => ∅
  end.

Definition isRelevant (dl : DataLayer) (r : rating_record) : bool :=
  let rating := rating r in
  if isnan rating then false
  else py_gt rating (relevanceThreshold dl).

Definition isAntiRelevant (dl : DataLayer) (r : rating_record) : bool :=
  let rating := rating r in
  if isnan rating then false
  else py_lt rating (antiRelevanceThreshold dl).

Definition get_relevant_count (dl : DataLayer) : Z := relevantCount dl.
Definition get_antirelevant_count (dl : DataLayer) : Z := antiRelevantCount dl.
Definition get_toDiscover_count (dl : DataLayer) : Z := toDiscoverCount dl.

End DataLayerOps.

(** ** user_layer.user_layer *)

Record UserLayer : Type := {
  user_idx : nat;
  user_id : nat;
  all_items_ids : list nat;
  available_items : list nat;
  user_ratings : gmap nat rating_record
}.

Module UserLayerOps.

(** [UserLayer.__init__] *)
Definition init (user_idx : nat) (dl : DataLayer) : result UserLayer :=
  uid ← DataLayerOps.get_user_id_from_index dl user_idx;
  let recommended_items_list :=
    DataLayerOps.get_user_initial_recommendations dl user_idx in
  let all_ids := seq 0 (DataLayerOps.get_n_items dl) in
  Ok {| user_idx := user_idx;
        user_id := uid;
        all_items_ids := all_ids;
        available_items :=
          filter (fun i => i ∉ recommended_items_list) all_ids;
        user_ratings := DataLayerOps.get_user_test_ratings_dict dl user_idx |}.

Definition get_user (ul : UserLayer) : nat := user_idx ul.

Definition get_user_available_items_idxs (ul : UserLayer)
    (enable_repetitions : bool) : list nat :=
  if enable_repetitions then all_items_ids ul else available_items ul.

(** [np.delete(self.available_items, np.where(self.available_items == item_idx))] *)
Definition add_recommended_item (ul : UserLayer) (item_idx : nat) : UserLayer :=
  {| user_idx := user_idx ul;
     user_id := user_id ul;
     all_items_ids := all_items_ids ul;
     available_items := filter (fun i => i ≠ item_idx) (available_items ul);
     user_ratings := user_ratings ul |}.

(** The held-out record of an item, or the [{'rating': np.nan}] sentinel. *)
Definition get_test_rating (ul : UserLayer) (item_id : nat) : rating_record :=
  match user_ratings ul !! item_id with
  | Some r => r
  | None => {| rating := NaN; known := None |}
  end.

End UserLayerOps.

(** Python's [/] on numbers: a zero divisor raises. *)
Definition py_div (a b : Z) : result Q :=
  if b =? 0 then Raise ZeroDivisionError else Ok (inject_Z a / inject_Z b)%Q.

(** ** evaluator.evaluator *)

Record Evaluator : Type := {
  n_iters : Z;
  cum_recall_value : Q;
  recall_count : Z;
  cum_fallout_value : Q;
  fallout_count : Z;
  precision_count : Z;
  cum_precision_value : Q;
  antiprecision_count : Z;
  cum_antiprecision_value : Q;
  cum_discovering : Q;
  discovering_count : Z
}.

Definition set_n_iters (v : Z) (e : Evaluator) : Evaluator :=
  {| n_iters := v;
     cum_recall_value := cum_recall_value e;
     recall_count := recall_count e;
     cum_fallout_value := cum_fallout_value e;
     fallout_count := fallout_count e;
     precision_count := precision_count e;
     cum_precision_value := cum_precision_value e;
     antiprecision_count := antiprecision_count e;
     cum_antiprecision_value := cum_antiprecision_value e;
     cum_discovering := cum_discovering e;
     discovering_count := discovering_count e |}.
Definition set_cum_recall_value (v : Q) (e : Evaluator) : Evaluator :=
  {| n_iters := n_iters e;
     cum_recall_value := v;
     recall_count := recall_count e;
     cum_fallout_value := cum_fallout_value e;
     fallout_count := fallout_count e;
     precision_count := precision_count e;
     cum_precision_value := cum_precision_value e;
     antiprecision_count := antiprecision_count e;
     cum_antiprecision_value := cum_antiprecision_value e;
     cum_discovering := cum_discovering e;
     discovering_count := discovering_count e |}.
Definition set_recall_count (v : Z) (e : Evaluator) : Evaluator :=
  {| n_iters := n_iters e;
     cum_recall_value := cum_recall_value e;
     recall_count := v;
     cum_fallout_value := cum_fallout_value e;
     fallout_count := fallout_count e;
     precision_count := precision_count e;
     cum_precision_value := cum_precision_value e;
     antiprecision_count := antiprecision_count e;
     cum_antiprecision_value := cum_antiprecision_value e;
     cum_discovering := cum_discovering e;
     discovering_count := discovering_count e |}.
Definition set_cum_fallout_value (v : Q) (e : Evaluator) : Evaluator :=
  {| n_iters := n_iters e;
     cum_recall_value := cum_recall_value e;
     recall_count := recall_count e;
     cum_fallout_value := v;
     fallout_count := fallout_count e;
     precision_count := precision_count e;
     cum_precision_value := cum_precision_value e;
     antiprecision_count := antiprecision_count e;
     cum_antiprecision_value := cum_antiprecision_value e;
     cum_discovering := cum_discovering e;
     discovering_count := discovering_count e |}.
Definition set_fallout_count (v : Z) (e : Evaluator) : Evaluator :=
  {| n_iters := n_iters e;
     cum_recall_value := cum_recall_value e;
     recall_count := recall_count e;
     cum_fallout_value := cum_fallout_value e;
     fallout_count := v;
     precision_count := precision_count e;
     cum_precision_value := cum_precision_value e;
     antiprecision_count := antiprecision_count e;
     cum_antiprecision_value := cum_antiprecision_value e;
     cum_discovering := cum_discovering e;
     discovering_count := discovering_count e |}.
Definition set_precision_count (v : Z) (e : Evaluator) : Evaluator :=
  {| n_iters := n_iters e;
     cum_recall_value := cum_recall_value e;
     recall_count := recall_count e;
     cum_fallout_value := cum_fallout_value e;
     fallout_count := fallout_count e;
     precision_count := v;
     cum_precision_value := cum_precision_value e;
     antiprecision_count := antiprecision_count e;
     cum_antiprecision_value := cum_antiprecision_value e;
     cum_discovering := cum_discovering e;
     discovering_count := discovering_count e |}.
Definition set_cum_precision_value (v : Q) (e : Evaluator) : Evaluator :=
  {| n_iters := n_iters e;
     cum_recall_value := cum_recall_value e;
     recall_count := recall_count e;
     cum_fallout_value := cum_fallout_value e;
     fallout_count := fallout_count e;
     precision_count := precision_count e;
     cum_precision_value := v;
     antiprecision_count := antiprecision_count e;
     cum_antiprecision_value := cum_antiprecision_value e;
     cum_discovering := cum_discovering e;
     discovering_count := discovering_count e |}.
Definition set_antiprecision_count (v : Z) (e : Evaluator) : Evaluator :=
  {| n_iters := n_iters e;
     cum_recall_value := cum_recall_value e;
     recall_count := recall_count e;
     cum_fallout_value := cum_fallout_value e;
     fallout_count := fallout_count e;
     precision_count := precision_count e;
     cum_precision_value := cum_precision_value e;
     antiprecision_count := v;
     cum_antiprecision_value := cum_antiprecision_value e;
     cum_discovering := cum_discovering e;
     discovering_count := discovering_count e |}.
Definition set_cum_antiprecision_value (v : Q) (e : Evaluator) : Evaluator :=
  {| n_iters := n_iters e;
     cum_recall_value := cum_recall_value e;
     recall_count := recall_count e;
     cum_fallout_value := cum_fallout_value e;
     fallout_count := fallout_count e;
     precision_count := precision_count e;
     cum_precision_value := cum_precision_value e;
     antiprecision_count := antiprecision_count e;
     cum_antiprecision_value := v;
     cum_discovering := cum_discovering e;
     discovering_count := discovering_count e |}.
Definition set_cum_discovering (v : Q) (e : Evaluator) : Evaluator :=
  {| n_iters := n_iters e;
     cum_recall_value := cum_recall_value e;
     recall_count := recall_count e;
     cum_fallout_value := cum_fallout_value e;
     fallout_count := fallout_count e;
     precision_count := precision_count e;
     cum_precision_value := cum_precision_value e;
     antiprecision_count := antiprecision_count e;
     cum_antiprecision_value := cum_antiprecision_value e;
     cum_discovering := v;
     discovering_count := discovering_count e |}.
Definition set_discovering_count (v : Z) (e : Evaluator) : Evaluator :=
  {| n_iters := n_iters e;
     cum_recall_value := cum_recall_value e;
     recall_count := recall_count e;
     cum_fallout_value := cum_fallout_value e;
     fallout_count := fallout_count e;
     precision_count := precision_count e;
     cum_precision_value := cum_precision_value e;
     antiprecision_count := antiprecision_count e;
     cum_antiprecision_value := cum_antiprecision_value e;
     cum_discovering := cum_discovering e;
     discovering_count := v |}.

(** The five cumulative values returned by [all_metrics]:
    recall, precision, fallout, antiprecision, discovering. *)
Record metrics : Type := {
  m_recall : Q;
  m_precision : Q;
  m_fallout : Q;
  m_antiprecision : Q;
  m_discovering : Q
}.

Module EvaluatorOps.

(** [Evaluator.__init__] *)
Definition init : Evaluator :=
  {| n_iters := 0;
     cum_recall_value := 0%Q;
     recall_count := 0;
     cum_fallout_value := 0%Q;
     fallout_count := 0;
     precision_count := 0;
     cum_precision_value := 0%Q;
     antiprecision_count := 0;
     cum_antiprecision_value := 0%Q;
     cum_discovering := 0%Q;
     discovering_count := 0 |}.

Definition get_metrics (e : Evaluator) : metrics :=
  {| m_recall := cum_recall_value e;
     m_precision := cum_precision_value e;
     m_fallout := cum_fallout_value e;
     m_antiprecision := cum_antiprecision_value e;
     m_discovering := cum_discovering e |}.

(** [Evaluator.all_metrics]; the data layer is the one the evaluator was
    built on. *)
Definition all_metrics (dl : DataLayer) (r : rating_record)
  : SE Evaluator metrics :=
  se_modify (fun e => set_n_iters (n_iters e + 1) e);;
  toggle1 ←
    (if DataLayerOps.isRelevant dl r then
       se_modify (fun e => set_recall_count (recall_count e + 1) e);;
       e ← se_get;
       v ← se_lift (py_div (recall_count e) (DataLayerOps.get_relevant_count dl));
       se_modify (set_cum_recall_value v);;
       se_modify (fun e => set_precision_count (precision_count e + 1) e);;
       mret true
     else mret false);
  e ← se_get;
  v ← se_lift (py_div (precision_count e) (n_iters e));
  se_modify (set_cum_precision_value v);;
  toggle2 ←
    (if DataLayerOps.isAntiRelevant dl r then
       se_modify (fun e => set_fallout_count (fallout_count e + 1) e);;
       e ← se_get;
       v ← se_lift (py_div (fallout_count e) (DataLayerOps.get_antirelevant_count dl));
       se_modify (set_cum_fallout_value v);;
       se_modify (fun e => set_antiprecision_count (antiprecision_count e + 1) e);;
       mret true
     else mret toggle1);
  e ← se_get;
  v ← se_lift (py_div (antiprecision_count e) (n_iters e));
  se_modify (set_cum_antiprecision_value v);;
  (if (toggle2 : bool) then
     se_modify (fun e => set_discovering_count (discovering_count e + 1) e);;
     e ← se_get;
     v ← se_lift (py_div (discovering_count e) (DataLayerOps.get_toDiscover_count dl));
     se_modify (set_cum_discovering v)
   else mret tt);;
  e ← se_get;
  mret (get_metrics e).

(** [Evaluator.restart_metrics] *)
Definition restart_metrics (e : Evaluator) : Evaluator :=
  set_cum_discovering 0%Q
    (set_cum_antiprecision_value 0%Q
       (set_antiprecision_count 0
          (set_cum_precision_value 0%Q
             (set_precision_count 0
                (set_cum_fallout_value 0%Q
                   (set_cum_recall_value 0%Q
                      (set_n_iters 0 e))))))).

End EvaluatorOps.

(** ** recommenders.base_recommender *)

(** The abstract methods that every concrete recommender implements.  [T]
    is the recommender's own state (for instance its bandit); the data
    layer is read, not written, by these methods. *)
Class Strategy (T : Type) : Type := {
  select_item : UserLayer -> bool -> rng -> DataLayer -> SE T nat;
  train : DataLayer -> SE T unit;
  rating_update : nat -> nat -> rating_record -> DataLayer -> SE T unit;
  epoch_update : SE T unit
}.

Record BaseRecommender (T : Type) : Type := {
  data_layer : DataLayer;
  user_layers : gmap nat UserLayer;
  evaluator : Evaluator;
  target_users_list : list nat;
  target_users_set : gset nat;
  strategy : T;
  draws : nat
}.
Arguments data_layer {T} _.
Arguments user_layers {T} _.
Arguments evaluator {T} _.
Arguments target_users_list {T} _.
Arguments target_users_set {T} _.
Arguments strategy {T} _.
Arguments draws {T} _.

(** One recommendation event; [ev_metrics] is filled when metrics are on. *)
Record rec_event : Type := {
  ev_user : nat;
  ev_item : nat;
  ev_rating : rating_record;
  ev_metrics : option metrics
}.

Module Recommender.
Section Recommender.
Context {T : Type} `{Strategy T}.
(** The stream of the pseudo-random source; [draws] counts its use. *)
Variable G : nat -> rng.

Definition set_data_layer (v : DataLayer) (s : BaseRecommender T) : BaseRecommender T :=
  {| data_layer := v; user_layers := user_layers s; evaluator := evaluator s;
     target_users_list := target_users_list s; target_users_set := target_users_set s;
     strategy := strategy s; draws := draws s |}.
Definition set_user_layers (v : gmap nat UserLayer) (s : BaseRecommender T) : BaseRecommender T :=
  {| data_layer := data_layer s; user_layers := v; evaluator := evaluator s;
     target_users_list := target_users_list s; target_users_set := target_users_set s;
     strategy := strategy s; draws := draws s |}.
Definition set_evaluator (s : BaseRecommender T) (v : Evaluator) : BaseRecommender T :=
  {| data_layer := data_layer s; user_layers := user_layers s; evaluator := v;
     target_users_list := target_users_list s; target_users_set := target_users_set s;
     strategy := strategy s; draws := draws s |}.
Definition set_targets (l : list nat) (u : gset nat) (s : BaseRecommender T) : BaseRecommender T :=
  {| data_layer := data_layer s; user_layers := user_layers s; evaluator := evaluator s;
     target_users_list := l; target_users_set := u;
     strategy := strategy s; draws := draws s |}.
Definition set_strategy (s : BaseRecommender T) (v : T) : BaseRecommender T :=
  {| data_layer := data_layer s; user_layers := user_layers s; evaluator := evaluator s;
     target_users_list := target_users_list s; target_users_set := target_users_set s;
     strategy := v; draws := draws s |}.
Definition set_draws (v : nat) (s : BaseRecommender T) : BaseRecommender T :=
  {| data_layer := data_layer s; user_layers := user_layers s; evaluator := evaluator s;
     target_users_list := target_users_list s; target_users_set := target_users_set s;
     strategy := strategy s; draws := v |}.

(** [BaseRecommender.__init__] *)
Definition init (dl : DataLayer) (st : T) : BaseRecommender T :=
  {| data_layer := dl;
     user_layers := ∅;
     evaluator := EvaluatorOps.init;
     target_users_list := DataLayerOps.list_users dl;
     target_users_set := list_to_set (DataLayerOps.list_users dl);
     strategy := st;
     draws := 0%nat |}.

Definition next_rng : SE (BaseRecommender T) rng :=
  s ← se_get;
  se_modify (set_draws (S (draws s)));;
  mret (G (draws s)).

(** [BaseRecommender.recommend] *)
Definition recommend (user_id : nat) (enable_repetitions : bool)
  : SE (BaseRecommender T) nat :=
  s ← se_get;
  (match user_layers s !! user_id with
   | Some _ => mret tt
   | None =>
       ul ← se_lift (UserLayerOps.init user_id (data_layer s));
       se_modify (set_user_layers (<[user_id := ul]> (user_layers s)))
   end);;
  s ← se_get;
  userLayer ← se_lift (match user_layers s !! user_id with
                       | Some ul => Ok ul
                       | None => Raise KeyError
                       end);
  g ← next_rng;
  item ← se_zoom strategy set_strategy
           (select_item userLayer enable_repetitions g (data_layer s));
  se_modify (fun s => set_user_layers
               (<[user_id := UserLayerOps.add_recommended_item userLayer item]>
                  (user_layers s)) s);;
  mret item.

(** [BaseRecommender.check_rating] *)
Definition check_rating (user_id item_id : nat)
  : SE (BaseRecommender T) rating_record :=
  s ← se_get;
  ul ← se_lift (match user_layers s !! user_id with
                | Some ul => Ok ul
                | None => Raise KeyError
                end);
  let r := UserLayerOps.get_test_rating ul item_id in
  let value := rating r in
  se_modify (fun s => set_data_layer
               (DataLayerOps.set_rating (data_layer s) user_id item_id value) s);;
  mret r.

(** [BaseRecommender.eval_recommendation] *)
Definition eval_recommendation (r : rating_record)
  : SE (BaseRecommender T) metrics :=
  s ← se_get;
  se_zoom evaluator set_evaluator (EvaluatorOps.all_metrics (data_layer s) r).

Definition do_rating_update (user_id item_id : nat) (r : rating_record)
  : SE (BaseRecommender T) unit :=
  s ← se_get;
  se_zoom strategy set_strategy (rating_update user_id item_id r (data_layer s)).

Definition do_epoch_update : SE (BaseRecommender T) unit :=
  se_zoom strategy set_strategy epoch_update.

(** *** recommendation_round *)

(** [random.choice(tuple(remaining_users))] *)
Definition random_choice (g : rng) (l : list nat) : result nat :=
  np_random_choice g l.

(** [list.remove(x)]: drops the first occurrence *)
Fixpoint list_remove (x : nat) (l : list nat) : list nat :=
  match l with
  | [] => []
  | y :: rest => if (x =? y)%nat then rest else y :: list_remove x rest
  end.

(** The statements of the [try] block of the users loop, up to and
    including [Lrec.append]. *)
Definition round_try_first (user_id : nat) (enable_repetitions : bool)
  : SE (BaseRecommender T) rec_event :=
  item_id ← recommend user_id enable_repetitions;
  r ← check_rating user_id item_id;
  mret {| ev_user := user_id; ev_item := item_id; ev_rating := r;
          ev_metrics := None |}.

(** The rest of the [try] block. *)
Definition round_try_rest (e : rec_event) (enable_metrics : bool)
  : SE (BaseRecommender T) (option metrics) :=
  do_rating_update (ev_user e) (ev_item e) (ev_rating e);;
  if enable_metrics then
    m ← eval_recommendation (ev_rating e);
    mret (Some m)
  else mret None.

(** The [except UserFullError] block. *)
Definition round_except (user_id : nat) (remaining Lrec_len : nat)
    (enable_metrics : bool) (last : option metrics)
  : SE (BaseRecommender T) (option metrics) :=
  se_modify (fun s => set_targets (list_remove user_id (target_users_list s))
                        (target_users_set s ∖ {[user_id]}) s);;
  if ((remaining =? 0)%nat && (Lrec_len =? 0)%nat && enable_metrics)%bool then
    s ← se_get;
    mret (Some (EvaluatorOps.get_metrics (evaluator s)))
  else mret last.

(** One pass through the [try]/[except] of the users loop; the result is
    the new value of the locals [Lrec] and of the metrics variables. *)
Definition round_iteration (user_id : nat) (remaining : nat)
    (enable_repetitions enable_metrics : bool)
    (Lrec : list rec_event) (last : option metrics)
  : SE (BaseRecommender T) (list rec_event * option metrics) :=
  fun s =>
    match round_try_first user_id enable_repetitions s with
    | (Ok e, s1) =>
        let Lrec := Lrec ++ [e] in
        match round_try_rest e enable_metrics s1 with
        | (Ok m, s2) => (Ok (Lrec, if enable_metrics then m else last), s2)
        | (Raise UserFullError, s2) =>
            match round_except user_id remaining (length Lrec)
                    enable_metrics last s2 with
            | (Ok m, s3) => (Ok (Lrec, m), s3)
            | (Raise x, s3) => (Raise x, s3)
            end
        | (Raise x, s2) => (Raise x, s2)
        end
    | (Raise UserFullError, s1) =>
        match round_except user_id remaining (length Lrec)
                enable_metrics last s1 with
        | (Ok m, s3) => (Ok (Lrec, m), s3)
        | (Raise x, s3) => (Raise x, s3)
        end
    | (Raise x, s1) => (Raise x, s1)
    end.

(** The users loop ([while len(remaining_users) != 0]).  Every iteration
    removes one user from [remaining_users], so the loop is structural in
    [fuel = len(remaining_users)]. *)
Fixpoint users_loop (fuel : nat) (remaining_users : list nat)
    (enable_repetitions enable_metrics : bool)
    (Lrec : list rec_event) (last : option metrics)
  : SE (BaseRecommender T) (list rec_event * option metrics) :=
  match fuel with
  | O => mret (Lrec, last)
  | S fuel' =>
      if (length remaining_users =? 0)%nat then mret (Lrec, last)
      else
        g ← next_rng;
        user_id ← se_lift (random_choice g remaining_users);
        let remaining_users := list_remove user_id remaining_users in
        locals ← round_iteration user_id (length remaining_users)
                   enable_repetitions enable_metrics Lrec last;
        users_loop fuel' remaining_users enable_repetitions enable_metrics
          (fst locals) (snd locals)
  end.

(** [BaseRecommender.recommendation_round] *)
Definition recommendation_round (enable_repetitions enable_metrics : bool)
  : SE (BaseRecommender T) (list rec_event * option metrics) :=
  s ← se_get;
  let remaining_users := target_users_list s in
  if (length remaining_users =? 0)%nat then se_raise SystemFullError
  else
    res ← users_loop (length remaining_users) remaining_users
            enable_repetitions enable_metrics [] None;
    if enable_metrics then
      match snd res with
      | Some m => mret res
      | None => se_raise UnboundLocalError
      end
    else mret (fst res, None).

(** *** recommendation_round_loop *)

(** The returned frames: the events with their round number [t], and the
    metrics of every round. *)
Definition round_results : Type := list (Z * rec_event) * list (Z * metrics).

(** [i = 0; while i < maxiter: ...]; [None] stands for an exhausted
    [fuel], which [recommendation_round_loop] never reaches. *)
Fixpoint round_loop (fuel : nat) (i maxiter : Z)
    (enable_repetitions enable_metrics : bool)
    (recommendationsDF : list (Z * rec_event)) (Lmetrics : list (Z * metrics))
    (s : BaseRecommender T)
  : option (result round_results * BaseRecommender T) :=
  match fuel with
  | O => None
  | S fuel' =>
      if i <? maxiter then
        match recommendation_round enable_repetitions enable_metrics s with
        | (Raise SystemFullError, s1) =>
            Some (Ok (recommendationsDF, Lmetrics), s1)
        | (Raise x, s1) => Some (Raise x, s1)
        | (Ok (epochDF, m), s1) =>
            let Lmetrics :=
              match enable_metrics, m with
              | true, Some m => Lmetrics ++ [(i + 1, m)]
              | _, _ => Lmetrics
              end in
            let recommendationsDF :=
              recommendationsDF ++ ((fun e => (i + 1, e)) <$> epochDF) in
            match do_epoch_update s1 with
            | (Ok _, s2) =>
                round_loop fuel' (i + 1) maxiter enable_repetitions
                  enable_metrics recommendationsDF Lmetrics s2
            | (Raise x, s2) => Some (Raise x, s2)
            end
        end
      else Some (Ok (recommendationsDF, Lmetrics), s)
  end.

Definition recommendation_round_loop (maxiter : Z)
    (enable_repetitions enable_metrics : bool) (s : BaseRecommender T)
  : option (result round_results * BaseRecommender T) :=
  round_loop (S (Z.to_nat maxiter)) 0 maxiter enable_repetitions
    enable_metrics [] [] s.

(** *** fixed_user_recommendation_loop *)

(** The statements of the [try] block before [resultsL.append]. *)
Definition fixed_try_first (user_id : nat)
    (enable_repetitions enable_metrics : bool)
  : SE (BaseRecommender T) rec_event :=
  item_id ← recommend user_id enable_repetitions;
  r ← check_rating user_id item_id;
  do_rating_update user_id item_id r;;
  if enable_metrics then
    m ← eval_recommendation r;
    mret {| ev_user := user_id; ev_item := item_id; ev_rating := r;
            ev_metrics := Some m |}
  else
    mret {| ev_user := user_id; ev_item := item_id; ev_rating := r;
            ev_metrics := None |}.

(** [i = 1; while i < maxiter: ...] *)
Fixpoint fixed_loop (fuel : nat) (i maxiter : Z) (user_id : nat)
    (enable_repetitions enable_metrics : bool) (resultsL : list rec_event)
    (s : BaseRecommender T)
  : option (result (list rec_event) * BaseRecommender T) :=
  match fuel with
  | O => None
  | S fuel' =>
      if i <? maxiter then
        match fixed_try_first user_id enable_repetitions enable_metrics s with
        | (Ok e, s1) =>
            let resultsL := resultsL ++ [e] in
            match do_epoch_update s1 with
            | (Ok _, s2) =>
                fixed_loop fuel' (i + 1) maxiter user_id enable_repetitions
                  enable_metrics resultsL s2
            | (Raise UserFullError, s2) => Some (Ok resultsL, s2)
            | (Raise x, s2) => Some (Raise x, s2)
            end
        | (Raise UserFullError, s1) => Some (Ok resultsL, s1)
        | (Raise x, s1) => Some (Raise x, s1)
        end
      else Some (Ok resultsL, s)
  end.

Definition fixed_user_recommendation_loop (user_id : nat) (maxiter : Z)
    (enable_repetitions enable_metrics : bool) (s : BaseRecommender T)
  : option (result (list rec_event) * BaseRecommender T) :=
  fixed_loop (S (Z.to_nat maxiter)) 1 maxiter user_id enable_repetitions
    enable_metrics [] s.

End Recommender.
End Recommender.

(** ** recommenders.simple.random_rec *)

Module RandomRecommender.

Definition select_item (userLayer : UserLayer) (enable_repetitions : bool)
    (g : rng) (dl : DataLayer) : SE unit nat :=
  let eligible_items_ids :=
    UserLayerOps.get_user_available_items_idxs userLayer enable_repetitions in
  if (length eligible_items_ids =? 0)%nat then se_raise UserFullError
  else se_lift (np_random_choice g eligible_items_ids).

(** [train], [rating_update] and [epoch_update] return at once. *)
#[global] Instance strategy : Strategy unit :=
  Build_Strategy unit select_item (fun _ => mret tt)
    (fun _ _ _ _ => mret tt) (mret tt).

End RandomRecommender.

(** ** recommenders.mab.item_fp_mab_rec *)

(** The attributes that [FPItemMABRecommender] adds to the base class:
    the bandit over the items, and [last_armidx], which does not exist
    before the first selection. *)
Record ItemMAB : Type := {
  mab : NaiveMAB;
  last_armidx : option nat
}.

Module FPItemMABRecommender.

Definition set_mab (st : ItemMAB) (m : NaiveMAB) : ItemMAB :=
  {| mab := m; last_armidx := last_armidx st |}.

Section FPItemMABRecommender.
Context `{FL : FloatLib}.

(** [FPItemMABRecommender.__init__] *)
Definition init (dataLayer : DataLayer) (mab_policy : policy_name)
    (eps dl a0 b0 : Q) : result (BaseRecommender ItemMAB) :=
  m ← MAB.init mab_policy (DataLayerOps.get_n_items dataLayer) eps dl a0 b0;
  Ok (Recommender.init dataLayer {| mab := m; last_armidx := None |}).

(** [FPItemMABRecommender.select_item]: the tuple returned by the pull is
    unpacked, so [last_armidx] is assigned, before [idxs] is indexed. *)
Definition select_item (userLayer : UserLayer) (enable_repetitions : bool)
    (g : rng) (dl : DataLayer) : SE ItemMAB nat :=
  fun st =>
    let idxs :=
      UserLayerOps.get_user_available_items_idxs userLayer enable_repetitions in
    match MAB.restricted_pull idxs g (mab st) with
    | (Ok (fake_index, armidx), m) =>
        let st := {| mab := m; last_armidx := Some armidx |} in
        match np_get idxs fake_index with
        | Ok item_id => (Ok item_id, st)
        | Raise UnavailableArms => (Raise UserFullError, st)
        | Raise x => (Raise x, st)
        end
    | (Raise UnavailableArms, m) => (Raise UserFullError, set_mab st m)
    | (Raise x, m) => (Raise x, set_mab st m)
    end.

(** The body of the loop of [train], for one row of
    [get_initial_training_ratings_indexes()]. *)
Definition train_row (r : ratings_row) : SE NaiveMAB unit :=
  MAB.pull_fixed_arm (row_item r);;
  MAB.update_rewards (row_item r) (rating (row_record r)) false.

Fixpoint train_rows (rows : list ratings_row) : SE NaiveMAB unit :=
  match rows with
  | [] => mret tt
  | r :: rest => train_row r;; train_rows rest
  end.

(** [FPItemMABRecommender.train] *)
Definition train (dl : DataLayer) : SE ItemMAB unit :=
  se_zoom mab set_mab (train_rows (initial_train_set dl)).

(** [FPItemMABRecommender.rating_update] *)
Definition rating_update (user_idx item_idx : nat) (r : rating_record)
    (dl : DataLayer) : SE ItemMAB unit :=
  fun st =>
    let reward := DataLayerOps.get_reward dl user_idx item_idx r in
    match last_armidx st with
    | None => (Raise AttributeError, st)
    | Some armidx =>
        se_zoom mab set_mab (MAB.update_rewards armidx reward false) st
    end.

Definition epoch_update : SE ItemMAB unit := mret tt.

#[global] Instance strategy : Strategy ItemMAB :=
  Build_Strategy ItemMAB select_item train rating_update epoch_update.

End FPItemMABRecommender.
End FPItemMABRecommender.

(** ** Fixtures: small concrete inputs on which the model is run *)

(** A coarse rational instance of the numeric routines (three decimals of
    a square root, a scaled binary logarithm).  No property below depends
    on its accuracy. *)
Definition coarse_sqrt (x : Q) : Q :=
  (inject_Z (Z.sqrt (Qfloor (x * 1000000))) / 1000)%Q.
Definition coarse_log (e : Z) : Q := (inject_Z (Z.log2 e) * (693 # 1000))%Q.

Definition coarse_log_nonneg (e : Z) : 1 <= e -> (0 <= coarse_log e)%Q.
Proof.
  intros _. unfold coarse_log. apply Qmult_le_0_compat.
  - change 0%Q with (inject_Z 0). rewrite <- Zle_Qle. apply Z.log2_nonneg.
  - discriminate.
Defined.

Definition coarse_floatlib : FloatLib :=
  {| np_sqrt_pos := coarse_sqrt;
     math_log_pos := coarse_log;
     math_log_nonneg := coarse_log_nonneg |}.

Definition fixed_rng (k : nat) : rng :=
  {| rand_int := k; rand_sample := 1 # 2; rand_beta := fun _ _ _ => 1 # 2 |}.

(** [NaiveMAB('greedy', 2, epsilon=0.2, delta=2, alphas=0, betas=0)] *)
Definition fresh_greedy_2 : NaiveMAB :=
  {| policy := Greedy;
     num_pulls := [0; 0];
     alphas := [0%Q; 0%Q];
     alpha0 := 0%Q;
     betas := [0%Q; 0%Q];
     beta0 := 0%Q;
     init_estimate := 0%Q;
     reward_estimates := [0%Q; 0%Q];
     epsilon := 1 # 5;
     delta := 2%Q;
     totalrewards := 0%Q;
     t := 1 |}.

(** ** Derived notions used to state the properties *)

(** The pull counts add up to the epoch minus one. *)
Definition pull_inv (s : NaiveMAB) : Prop := MAB.sum_pulls s = t s - 1.

(** [aligned], with the priors that [reset_bandit] restores. *)
Definition well_formed (s : NaiveMAB) : Prop :=
  MAB.aligned s /\ (0 <= alpha0 s)%Q /\ (0 <= beta0 s)%Q.

(** The bandit after a success update of arm [i] whose counters were
    [a] and [b]: only [alphas[i]], [reward_estimates[i]] and
    [totalrewards] differ. *)
Definition after_success (s : NaiveMAB) (i : nat) (a b : Q) : NaiveMAB :=
  set_totalrewards
    (set_reward_estimates (set_alphas s (<[i := (a + 1)%Q]> (alphas s)))
       (<[i := ((a + 1) / ((a + 1) + b))%Q]> (reward_estimates s)))
    (totalrewards s + 1)%Q.

(** The bandit after a failure update: only [betas[i]] and
    [reward_estimates[i]] differ. *)
Definition after_failure (s : NaiveMAB) (i : nat) (a b : Q) : NaiveMAB :=
  set_reward_estimates (set_betas s (<[i := (b + 1)%Q]> (betas s)))
    (<[i := (a / (a + (b + 1)))%Q]> (reward_estimates s)).

Section UcbDefs.
Context `{FL : FloatLib}.
(** The value of delta used for scoring: a negative delta is replaced by
    [1 + mab_epoch * log(mab_epoch)^2]. *)
Definition ucb_delta (mab_epoch : Z) (delta : Q) : Q :=
  if Qlt_bool delta 0
  then (1 + inject_Z mab_epoch * (math_log_pos mab_epoch * math_log_pos mab_epoch))%Q
  else delta.

(** [estimate + sqrt(delta * log(mab_epoch) / pulls)] *)
Definition ucb_score (mab_epoch : Z) (delta : Q) (estimate : Q) (pulls : Z) : Q :=
  (estimate +
   np_sqrt_pos (ucb_delta mab_epoch delta * math_log_pos mab_epoch / inject_Z pulls))%Q.
End UcbDefs.

(** The ['rating'] column of a ratings table. *)
Definition ratings_column (rows : list ratings_row) : list pyfloat :=
  (fun r => rating (row_record r)) <$> rows.

(** The number of non-NaN entries of a column that satisfy [p]. *)
Fixpoint count_ratings (p : Q -> bool) (col : list pyfloat) : Z :=
  match col with
  | [] => 0
  | NaN :: rest => count_ratings p rest
  | Fin q :: rest => (if p q then 1 else 0) + count_ratings p rest
  end.

(** The sum of the counts of the keys that satisfy [p]. *)
Fixpoint sum_counts (p : Q -> bool) (vc : list (Q * Z)) : Z :=
  match vc with
  | [] => 0
  | (v, c) :: rest => (if p v then c else 0) + sum_counts p rest
  end.

(** A data layer after the simulation has folded outcomes back into the
    utility matrix: [writes] are the arguments of the [set_rating] calls. *)
Definition after_writes (dl : DataLayer) (writes : list (nat * nat * pyfloat))
  : DataLayer :=
  fold_left (fun d w => DataLayerOps.set_rating d (fst (fst w)) (snd (fst w)) (snd w))
    writes dl.

Definition mk_row (u i : nat) (q : Q) : ratings_row :=
  {| row_user := u; row_item := i;
     row_record := {| rating := Fin q; known := None |} |}.

(** Draws of [np.random.rand] that send the first [k] rows to the training
    set and the others to the test set when [test_proportion] is 1/2. *)
Definition first_rows_train (k : nat) (pos : nat) : Q :=
  if (pos <? k)%nat then 3 # 4 else 1 # 4.

(** Two ratings by two users on one item; the first row is the training
    set, the second the held-out set. *)
Definition two_user_ratings (train_rating test_rating : Q) : list ratings_row :=
  [mk_row 1 1 train_rating; mk_row 2 1 test_rating].

(** ** Further notions used to state properties *)

Section AfterCalls.
Context `{FL : FloatLib}.
(** The bandit after a sequence of calls, oldest first. *)
Definition after_calls (s : NaiveMAB) (cs : list MAB.call) : NaiveMAB :=
  fold_left MAB.after cs s.
End AfterCalls.

(** The candidates of a policy call: index-aligned vectors over at least
    one arm, with non-negative pull counts and counters. *)
Definition candidates_ok (rewards : list Q) (n_pulls : list Z)
    (al be : list Q) : Prop :=
  length rewards <> 0%nat /\
  length n_pulls = length rewards /\
  length al = length rewards /\
  length be = length rewards /\
  Forall (fun n => 0 <= n) n_pulls /\
  Forall (fun a => (0 <= a)%Q) al /\
  Forall (fun b => (0 <= b)%Q) be.

(** The estimate of every arm that has a positive counter is its success
    ratio. *)
Definition estimates_are_ratios (s : NaiveMAB) : Prop :=
  forall i a b e,
    alphas s !! i = Some a -> betas s !! i = Some b ->
    reward_estimates s !! i = Some e ->
    (0 < a + b)%Q -> (e == a / (a + b))%Q.

(** What no call changes: the configuration and the number of arms. *)
Definition same_config (s s' : NaiveMAB) : Prop :=
  policy s' = policy s /\ alpha0 s' = alpha0 s /\ beta0 s' = beta0 s /\
  init_estimate s' = init_estimate s /\ epsilon s' = epsilon s /\
  delta s' = delta s /\
  length (num_pulls s') = length (num_pulls s) /\
  length (alphas s') = length (alphas s) /\
  length (betas s') = length (betas s) /\
  length (reward_estimates s') = length (reward_estimates s).

(** The invariant of the bandit's arrays: [well_formed], non-negative pull
    counts that add up to the epoch minus one, estimates in the unit
    interval that are success ratios, and an initial estimate that is the
    ratio of the priors. *)
Definition bandit_inv (s : NaiveMAB) : Prop :=
  well_formed s /\
  Forall (fun n => 0 <= n) (num_pulls s) /\
  pull_inv s /\
  Forall (fun e => (0 <= e)%Q /\ (e <= 1)%Q) (reward_estimates s) /\
  estimates_are_ratios s /\
  init_estimate s =
    (if Qeq_bool (alpha0 s) 0 then 0%Q else (alpha0 s / (alpha0 s + beta0 s))%Q).

(** [self.items.iloc[item_idx].loc['item_id']] *)
Definition get_item_id_from_index (dl : DataLayer) (item_idx : nat) : result nat :=
  np_get (items dl) item_idx.

(** A re-indexed row stands for the row it was made from: its indexes
    decode to the original keys and its record is the original one. *)
Definition reindexed (dl : DataLayer) (original indexed : ratings_row) : Prop :=
  DataLayerOps.get_user_id_from_index dl (row_user indexed) = Ok (row_user original) /\
  get_item_id_from_index dl (row_item indexed) = Ok (row_item original) /\
  row_record indexed = row_record original.

(** Labels in strictly increasing order. *)
Definition strictly_increasing (l : list nat) : Prop :=
  forall i j x y, l !! i = Some x -> l !! j = Some y -> (i < j)%nat -> (x < y)%nat.

Section Sessions.
Context {T : Type}.
(** The items still eligible for a user: those of the user's session, or,
    before the first recommendation, those its constructor would start
    with. *)
Definition eligible_now (s : BaseRecommender T) (user_id : nat) : list nat :=
  match user_layers s !! user_id with
  | Some ul => available_items ul
  | None =>
      match UserLayerOps.init user_id (data_layer s) with
      | Ok ul => available_items ul
      | Raise _ => []
      end
  end.
End Sessions.

(** A strategy whose [select_item] returns one of the items it was
    offered. *)
Definition selects_offered (T : Type) `{Strategy T} : Prop :=
  forall ul rep g dl st item st',
    select_item ul rep g dl st = (Ok item, st') ->
    item ∈ UserLayerOps.get_user_available_items_idxs ul rep.

Section Shrinking.
Context {T : Type}.
(** No user has gained an eligible item between [s] and [s']. *)
Definition shrinks (s s' : BaseRecommender T) : Prop :=
  forall u x, x ∈ eligible_now s' u -> x ∈ eligible_now s u.

(** The (user, item) pairs of a list of recommendation events. *)
Definition event_pairs (evs : list rec_event) : list (nat * nat) :=
  (fun e => (ev_user e, ev_item e)) <$> evs.

(** No pair was recommended twice, and no recommended item is still
    eligible for its user. *)
Definition no_repeats (evs : list rec_event) (s : BaseRecommender T) : Prop :=
  NoDup (event_pairs evs) /\
  forall e, e ∈ evs -> ev_item e ∉ eligible_now s (ev_user e).
End Shrinking.

Section Served.
Context {T : Type}.
(** The events [evs] recorded between [s0] and [s]: no pair twice, every
    item was eligible for its user in [s0] and is no longer in [s], and
    no user has gained an eligible item. *)
Definition served (s0 : BaseRecommender T) (evs : list rec_event)
    (s : BaseRecommender T) : Prop :=
  no_repeats evs s /\ shrinks s0 s /\
  Forall (fun e => ev_item e ∈ eligible_now s0 (ev_user e)) evs.
End Served.

Section Targets.
Context {T : Type}.
(** The targets after a step of a round taken for user [u]: the targets
    before, or those without [u]. *)
Definition targets_step (u : nat) (s s' : BaseRecommender T) : Prop :=
  target_users_list s' = target_users_list s \/
  target_users_list s' = Recommender.list_remove u (target_users_list s).
End Targets.

(** A session of user 0 over two items, the first already recommended. *)
Definition one_item_left : UserLayer :=
  {| user_idx := 0; user_id := 0; all_items_ids := [0; 1]%nat;
     available_items := [1%nat]; user_ratings := ∅ |}.

(** How often the rows rate [item], and how often with the value [v]. *)
Definition times_rated (rows : list ratings_row) (item : nat) : Z :=
  Z.of_nat (length (filter (fun r => row_item r = item) rows)).

Definition times_rated_as (v : Q) (rows : list ratings_row) (item : nat) : Z :=
  Z.of_nat (length (filter
    (fun r => row_item r = item /\ py_eq (rating (row_record r)) v = true) rows)).

(** Three users and two items: user 10 rates both items (the training
    set when the first two rows are kept for training), users 20 and 30
    one item each (the held-out set). *)
Definition three_users_two_items : list ratings_row :=
  [mk_row 10 7 1; mk_row 10 8 1; mk_row 20 7 0; mk_row 30 8 1].

(** * Properties *)

(** ** The bandit engine *)

Ltac se_unfold :=
  unfold mbind, se_bind, mret, se_ret, se_get, se_modify, se_lift, se_raise in *.

Section BanditProofs.
Context `{FL : FloatLib}.

Lemma sum_insert_incr (l : list Z) (i : nat) (n : Z) :
  l !! i = Some n -> foldr Z.add 0 (<[i := n + 1]> l) = foldr Z.add 0 l + 1.
Proof.
  revert i; induction l as [|x l IH]; intros [|i] Hi; simpl in *; try discriminate.
  - injection Hi as ->. lia.
  - rewrite (IH _ Hi). lia.
Qed.

Lemma sum_replicate_zero (n : nat) : foldr Z.add 0 (replicate n 0) = 0.
Proof. induction n; simpl; lia. Qed.

Lemma record_pull_cases (i : nat) (s : NaiveMAB) :
  (exists n, num_pulls s !! i = Some n /\
     MAB.record_pull i s =
       (Ok tt, set_t (set_num_pulls s (<[i := n + 1]> (num_pulls s))) (t s + 1)))
  \/ (num_pulls s !! i = None /\ MAB.record_pull i s = (Raise IndexError, s)).
Proof.
  unfold MAB.record_pull, np_get. se_unfold.
  destruct (num_pulls s !! i) as [n|] eqn:E; [left; exists n|right]; auto.
Qed.



Lemma record_pull_effect (i : nat) (s s' : NaiveMAB) :
  MAB.record_pull i s = (Ok tt, s') ->
  exists n, num_pulls s !! i = Some n /\
            num_pulls s' = <[i := n + 1]> (num_pulls s) /\ t s' = t s + 1.
Proof.
  destruct (record_pull_cases i s) as [(n & Hn & ->)|[_ ->]]; intros E;
    inversion E; subst; eauto.
Qed.

Lemma record_pull_inv (i : nat) (s : NaiveMAB) :
  pull_inv s -> pull_inv (snd (MAB.record_pull i s)).
Proof.
  unfold pull_inv, MAB.sum_pulls.
  destruct (record_pull_cases i s) as [(n & Hn & ->)|[_ ->]]; simpl; auto.
  intros E. rewrite (sum_insert_incr _ _ _ Hn). lia.
Qed.

Lemma pull_effect (g : rng) (s s' : NaiveMAB) (i : nat) :
  MAB.pull g s = (Ok i, s') ->
  exists n, num_pulls s !! i = Some n /\
            num_pulls s' = <[i := n + 1]> (num_pulls s) /\ t s' = t s + 1.
Proof.
  unfold MAB.pull. se_unfold.
  destruct (MAB.run_policy _ _ _ _ _ _ _ _ _) as [j|e]; [|discriminate].
  destruct (MAB.record_pull j s) as [[[]|e] s1] eqn:E; [|discriminate].
  intros E'; inversion E'; subst. eapply record_pull_effect; eauto.
Qed.

Lemma pull_inv_preserved (g : rng) (s : NaiveMAB) :
  pull_inv s -> pull_inv (snd (MAB.pull g s)).
Proof.
  intros Hs. unfold MAB.pull. se_unfold.
  destruct (MAB.run_policy _ _ _ _ _ _ _ _ _) as [j|e]; [|exact Hs].
  pose proof (record_pull_inv j s Hs) as Hj.
  destruct (MAB.record_pull j s) as [[[]|e] s1]; exact Hj.
Qed.

Lemma restricted_pull_effect (arms : list nat) (g : rng) (s s' : NaiveMAB)
    (fake i : nat) :
  MAB.restricted_pull arms g s = (Ok (fake, i), s') ->
  arms !! fake = Some i /\
  exists n, num_pulls s !! i = Some n /\
            num_pulls s' = <[i := n + 1]> (num_pulls s) /\ t s' = t s + 1.
Proof.
  unfold MAB.restricted_pull. se_unfold.
  repeat (match goal with
          | |- context [np_take ?a ?b] => destruct (np_take a b); [|discriminate]
          end).
  destruct (MAB.run_policy _ _ _ _ _ _ _ _ _) as [j|e]; [|discriminate].
  unfold np_get at 1. destruct (arms !! j) as [k|] eqn:Ej; [|discriminate].
  destruct (MAB.record_pull k s) as [[[]|e] s1] eqn:E; [|discriminate].
  intros E'; inversion E'; subst. split; [assumption|].
  eapply record_pull_effect; eauto.
Qed.

Lemma restricted_pull_inv_preserved (arms : list nat) (g : rng) (s : NaiveMAB) :
  pull_inv s -> pull_inv (snd (MAB.restricted_pull arms g s)).
Proof.
  intros Hs. unfold MAB.restricted_pull. se_unfold.
  repeat (match goal with
          | |- context [np_take ?a ?b] => destruct (np_take a b); [|exact Hs]
          end).
  destruct (MAB.run_policy _ _ _ _ _ _ _ _ _) as [j|e]; [|exact Hs].
  unfold np_get at 1. destruct (arms !! j) as [k|]; [|exact Hs].
  pose proof (record_pull_inv k s Hs) as Hk.
  destruct (MAB.record_pull k s) as [[[]|e] s1]; exact Hk.
Qed.

(** [update_rewards] never touches the pull counts or the epoch. *)
Lemma incr_alpha_pulls (i : nat) (s : NaiveMAB) :
  num_pulls (snd (MAB.incr_alpha i s)) = num_pulls s /\
  t (snd (MAB.incr_alpha i s)) = t s.
Proof.
  unfold MAB.incr_alpha, np_get. se_unfold.
  destruct (alphas s !! i); simpl; auto.
Qed.

Lemma incr_beta_pulls (i : nat) (s : NaiveMAB) :
  num_pulls (snd (MAB.incr_beta i s)) = num_pulls s /\
  t (snd (MAB.incr_beta i s)) = t s.
Proof.
  unfold MAB.incr_beta, np_get. se_unfold.
  destruct (betas s !! i); simpl; auto.
Qed.

Lemma recompute_estimate_pulls (i : nat) (s : NaiveMAB) :
  num_pulls (snd (MAB.recompute_estimate i s)) = num_pulls s /\
  t (snd (MAB.recompute_estimate i s)) = t s.
Proof.
  unfold MAB.recompute_estimate, np_get, np_set. se_unfold.
  destruct (alphas s !! i); simpl; auto.
  destruct (betas s !! i); simpl; auto.
  destruct (reward_estimates s !! i); simpl; auto.
Qed.

Lemma update_rewards_pulls (i : nat) (r : pyfloat) (naf : bool) (s : NaiveMAB) :
  num_pulls (snd (MAB.update_rewards i r naf s)) = num_pulls s /\
  t (snd (MAB.update_rewards i r naf s)) = t s.
Proof.
  assert (Hfail : num_pulls (snd ((MAB.incr_beta i;; MAB.recompute_estimate i) s))
                    = num_pulls s /\
                  t (snd ((MAB.incr_beta i;; MAB.recompute_estimate i) s)) = t s).
  { se_unfold. pose proof (incr_beta_pulls i s) as Hb.
    destruct (MAB.incr_beta i s) as [[[]|e] s1]; simpl in *; auto.
    pose proof (recompute_estimate_pulls i s1) as Hr.
    destruct (MAB.recompute_estimate i s1) as [[[]|e] s2]; simpl in *;
      intuition congruence. }
  unfold MAB.update_rewards.
  destruct (negb (isnan r) && py_eq r 1).
  - se_unfold. pose proof (incr_alpha_pulls i s) as Ha.
    destruct (MAB.incr_alpha i s) as [[[]|e] s1]; simpl in *; auto.
    pose proof (recompute_estimate_pulls i s1) as Hr.
    destruct (MAB.recompute_estimate i s1) as [[[]|e] s2]; simpl in *;
      intuition congruence.
  - destruct (negb (isnan r) && py_eq r 0); [exact Hfail|].
    destruct naf; [exact Hfail|]. simpl; auto.
Qed.

Lemma init_inv p narms eps dl a0 b0 s :
  MAB.init p narms eps dl a0 b0 = Ok s -> pull_inv s /\ t s = 1.
Proof.
  unfold MAB.init. destruct (negb _); [discriminate|].
  intros E; inversion E; subst; clear E.
  unfold pull_inv, MAB.sum_pulls; simpl. rewrite sum_replicate_zero. lia.
Qed.

Lemma after_inv (s : NaiveMAB) (c : MAB.call) :
  pull_inv s -> pull_inv (MAB.after s c).
Proof.
  intros Hs. destruct c as [g|arms g|i|i r naf|]; simpl.
  - apply pull_inv_preserved, Hs.
  - apply restricted_pull_inv_preserved, Hs.
  - apply record_pull_inv, Hs.
  - destruct (update_rewards_pulls i r naf s) as [Hn Ht].
    unfold pull_inv, MAB.sum_pulls in *. rewrite Hn, Ht. exact Hs.
  - unfold pull_inv, MAB.sum_pulls; simpl. rewrite sum_replicate_zero. lia.
Qed.

Lemma reachable_inv (v : MAB.variant) (s : NaiveMAB) :
  MAB.reachable v s -> pull_inv s.
Proof.
  induction 1 as [p narms eps dl a0 b0 s E|s c _ IH _].
  - apply (init_inv _ _ _ _ _ _ _ E).
  - apply after_inv, IH.
Qed.
Lemma aligned_lookup (s : NaiveMAB) (i : nat) :
  MAB.aligned s -> (i < length (num_pulls s))%nat ->
  exists a b e, alphas s !! i = Some a /\ betas s !! i = Some b /\
                reward_estimates s !! i = Some e /\ (0 <= a)%Q /\ (0 <= b)%Q.
Proof.
  intros (La & Lb & Le & Fa & Fb) Hi.
  destruct (lookup_lt_is_Some_2 (alphas s) i) as [a Ha]; [lia|].
  destruct (lookup_lt_is_Some_2 (betas s) i) as [b Hb]; [lia|].
  destruct (lookup_lt_is_Some_2 (reward_estimates s) i) as [e He]; [lia|].
  exists a, b, e. repeat split; auto.
  - eapply (proj1 (Forall_lookup _ _) Fa); eauto.
  - eapply (proj1 (Forall_lookup _ _) Fb); eauto.
Qed.

(** The success branch, run on a bandit whose arrays hold arm [i]. *)
Lemma success_run (s : NaiveMAB) (i : nat) (a b e : Q) :
  alphas s !! i = Some a -> betas s !! i = Some b ->
  reward_estimates s !! i = Some e ->
  (MAB.incr_alpha i;; MAB.recompute_estimate i;;
   se_modify (fun s => set_totalrewards s (totalrewards s + 1)%Q)) s =
  (Ok tt,
   set_totalrewards
     (set_reward_estimates (set_alphas s (<[i := (a + 1)%Q]> (alphas s)))
        (<[i := ((a + 1) / ((a + 1) + b))%Q]> (reward_estimates s)))
     (totalrewards s + 1)%Q).
Proof.
  intros Ha Hb He.
  unfold MAB.incr_alpha, MAB.recompute_estimate, np_get, np_set. se_unfold.
  rewrite Ha. simpl. rewrite list_lookup_insert_eq by (eapply lookup_lt_Some; eauto).
  rewrite Hb, He. reflexivity.
Qed.

Lemma failure_run (s : NaiveMAB) (i : nat) (a b e : Q) :
  alphas s !! i = Some a -> betas s !! i = Some b ->
  reward_estimates s !! i = Some e ->
  (MAB.incr_beta i;; MAB.recompute_estimate i) s =
  (Ok tt,
   set_reward_estimates (set_betas s (<[i := (b + 1)%Q]> (betas s)))
     (<[i := (a / (a + (b + 1)))%Q]> (reward_estimates s))).
Proof.
  intros Ha Hb He.
  unfold MAB.incr_beta, MAB.recompute_estimate, np_get, np_set. se_unfold.
  rewrite Hb. simpl. rewrite Ha.
  rewrite list_lookup_insert_eq by (eapply lookup_lt_Some; eauto).
  rewrite He. reflexivity.
Qed.

Lemma py_eq_true (q c : Q) : (q == c)%Q -> py_eq (Fin q) c = true.
Proof. intros E. simpl. apply Qeq_bool_iff, E. Qed.

Lemma py_eq_false (q c : Q) : ~ (q == c)%Q -> py_eq (Fin q) c = false.
Proof.
  intros E. simpl. destruct (Qeq_bool q c) eqn:B; auto.
  exfalso. apply E, Qeq_bool_iff, B.
Qed.


End BanditProofs.

Lemma fresh_greedy_2_init :
  MAB.init Greedy 2 (1 # 5) 2 0 0 = Ok fresh_greedy_2.
Proof. reflexivity. Defined.



Lemma Forall_insert_nonneg (l : list Q) (i : nat) (x : Q) :
  Forall (fun a => (0 <= a)%Q) l -> (0 <= x)%Q ->
  Forall (fun a => (0 <= a)%Q) (<[i := x]> l).
Proof. intros Hl Hx. apply Forall_insert; assumption. Qed.

Lemma Forall_replicate_nonneg (n : nat) (x : Q) :
  (0 <= x)%Q -> Forall (fun a => (0 <= a)%Q) (replicate n x).
Proof. intros Hx. apply Forall_replicate. exact Hx. Qed.

Lemma Qplus_one_nonneg (a : Q) : (0 <= a)%Q -> (0 <= a + 1)%Q.
Proof.
  intros Ha. apply Qle_trans with (y := (0 + 0)%Q); [discriminate|].
  apply Qplus_le_compat; [exact Ha|discriminate].
Qed.

Lemma record_pull_wf (i : nat) (s : NaiveMAB) :
  well_formed s -> well_formed (snd (MAB.record_pull i s)).
Proof.
  intros Hs. destruct (record_pull_cases i s) as [(n & Hn & ->)|[_ ->]]; [|exact Hs].
  destruct Hs as ((La & Lb & Le & Fa & Fb) & Pa & Pb).
  unfold well_formed, MAB.aligned. simpl. rewrite length_insert. auto 10.
Qed.

Lemma incr_alpha_wf (i : nat) (s : NaiveMAB) :
  well_formed s -> well_formed (snd (MAB.incr_alpha i s)).
Proof.
  intros Hs. unfold MAB.incr_alpha, np_get. se_unfold.
  destruct (alphas s !! i) as [a|] eqn:Ea; [|exact Hs]. simpl.
  destruct Hs as ((La & Lb & Le & Fa & Fb) & Pa & Pb).
  unfold well_formed, MAB.aligned. simpl. rewrite length_insert.
  repeat split; auto. apply Forall_insert_nonneg; [exact Fa|].
  apply Qplus_one_nonneg. eapply (proj1 (Forall_lookup _ _) Fa); eauto.
Qed.

Lemma incr_beta_wf (i : nat) (s : NaiveMAB) :
  well_formed s -> well_formed (snd (MAB.incr_beta i s)).
Proof.
  intros Hs. unfold MAB.incr_beta, np_get. se_unfold.
  destruct (betas s !! i) as [b|] eqn:Eb; [|exact Hs]. simpl.
  destruct Hs as ((La & Lb & Le & Fa & Fb) & Pa & Pb).
  unfold well_formed, MAB.aligned. simpl. rewrite length_insert.
  repeat split; auto. apply Forall_insert_nonneg; [exact Fb|].
  apply Qplus_one_nonneg. eapply (proj1 (Forall_lookup _ _) Fb); eauto.
Qed.

Lemma recompute_estimate_wf (i : nat) (s : NaiveMAB) :
  well_formed s -> well_formed (snd (MAB.recompute_estimate i s)).
Proof.
  intros Hs. unfold MAB.recompute_estimate, np_get, np_set. se_unfold.
  destruct (alphas s !! i); [|exact Hs]. simpl.
  destruct (betas s !! i); [|exact Hs]. simpl.
  destruct (reward_estimates s !! i); [|exact Hs]. simpl.
  destruct Hs as ((La & Lb & Le & Fa & Fb) & Pa & Pb).
  unfold well_formed, MAB.aligned. simpl. rewrite length_insert. auto 10.
Qed.

Lemma se_seq_wf {A B} (m1 : SE NaiveMAB A) (m2 : SE NaiveMAB B) (s : NaiveMAB) :
  (forall s, well_formed s -> well_formed (snd (m1 s))) ->
  (forall s, well_formed s -> well_formed (snd (m2 s))) ->
  well_formed s -> well_formed (snd ((m1;; m2) s)).
Proof.
  intros H1 H2 Hs. se_unfold. specialize (H1 s Hs).
  destruct (m1 s) as [[a|e] s1]; simpl in *; auto.
Qed.

Lemma update_rewards_wf (i : nat) (r : pyfloat) (naf : bool) (s : NaiveMAB) :
  well_formed s -> well_formed (snd (MAB.update_rewards i r naf s)).
Proof.
  intros Hs. unfold MAB.update_rewards.
  assert (Hfail : well_formed (snd ((MAB.incr_beta i;; MAB.recompute_estimate i) s))).
  { apply se_seq_wf; auto using incr_beta_wf, recompute_estimate_wf. }
  destruct (negb (isnan r) && py_eq r 1).
  - apply se_seq_wf; [apply incr_alpha_wf| |exact Hs].
    intros s1 Hs1. apply se_seq_wf; [apply recompute_estimate_wf| |exact Hs1].
    intros s2 Hs2. exact Hs2.
  - destruct (negb (isnan r) && py_eq r 0); [exact Hfail|].
    destruct naf; [exact Hfail|exact Hs].
Qed.

Lemma init_wf p narms eps dl a0 b0 s :
  MAB.init p narms eps dl a0 b0 = Ok s -> well_formed s.
Proof.
  unfold MAB.init.
  destruct (Qle_bool 0 a0) eqn:Ea; destruct (Qle_bool 0 b0) eqn:Eb;
    simpl; try discriminate.
  apply Qle_bool_iff in Ea, Eb.
  intros E; inversion E; subst; clear E.
  unfold well_formed, MAB.aligned. simpl. rewrite !length_replicate.
  repeat split; auto using Forall_replicate_nonneg.
Qed.

Section Reachable.
Context `{FL : FloatLib}.

Lemma after_wf (s : NaiveMAB) (c : MAB.call) :
  well_formed s -> well_formed (MAB.after s c).
Proof.
  intros Hs. destruct c as [g|arms g|i|i r naf|]; simpl.
  - unfold MAB.pull. se_unfold.
    destruct (MAB.run_policy _ _ _ _ _ _ _ _ _) as [j|e]; [|exact Hs].
    pose proof (record_pull_wf j s Hs) as Hj.
    destruct (MAB.record_pull j s) as [[[]|e] s1]; exact Hj.
  - unfold MAB.restricted_pull. se_unfold.
    repeat (match goal with
            | |- context [np_take ?a ?b] => destruct (np_take a b); [|exact Hs]
            end).
    destruct (MAB.run_policy _ _ _ _ _ _ _ _ _) as [j|e]; [|exact Hs].
    unfold np_get at 1. destruct (arms !! j) as [k|]; [|exact Hs].
    pose proof (record_pull_wf k s Hs) as Hk.
    destruct (MAB.record_pull k s) as [[[]|e] s1]; exact Hk.
  - apply record_pull_wf, Hs.
  - apply update_rewards_wf, Hs.
  - destruct Hs as ((La & Lb & Le & Fa & Fb) & Pa & Pb).
    unfold well_formed, MAB.aligned. simpl. rewrite !length_replicate.
    repeat split; auto using Forall_replicate_nonneg.
Qed.

(** Every reachable bandit is index-aligned with non-negative counters. *)
Lemma reachable_aligned (v : MAB.variant) (s : NaiveMAB) :
  MAB.reachable v s -> MAB.aligned s.
Proof.
  intros Hr. cut (well_formed s); [intros [Ha _]; exact Ha|].
  induction Hr as [p narms eps dl a0 b0 s E|s c _ IH _].
  - apply (init_wf _ _ _ _ _ _ _ E).
  - apply after_wf, IH.
Qed.

End Reachable.


Lemma update_rewards_success (s : NaiveMAB) (i : nat) (a b e q : Q) (naf : bool) :
  alphas s !! i = Some a -> betas s !! i = Some b ->
  reward_estimates s !! i = Some e -> (q == 1)%Q ->
  MAB.update_rewards i (Fin q) naf s = (Ok tt, after_success s i a b).
Proof.
  intros Ha Hb He Hq.
  unfold MAB.update_rewards. rewrite (py_eq_true _ _ Hq). simpl negb. cbv [andb].
  apply (success_run s i a b e); auto.
Qed.

Lemma update_rewards_failure (s : NaiveMAB) (i : nat) (a b e q : Q) (naf : bool) :
  alphas s !! i = Some a -> betas s !! i = Some b ->
  reward_estimates s !! i = Some e -> (q == 0)%Q ->
  MAB.update_rewards i (Fin q) naf s = (Ok tt, after_failure s i a b).
Proof.
  intros Ha Hb He Hq.
  assert (Hne : ~ (q == 1)%Q) by (rewrite Hq; discriminate).
  unfold MAB.update_rewards.
  rewrite (py_eq_false _ _ Hne), (py_eq_true _ _ Hq). simpl negb. cbv [andb].
  apply (failure_run s i a b e); auto.
Qed.

Lemma update_rewards_nan (s : NaiveMAB) (i : nat) (a b e : Q) :
  alphas s !! i = Some a -> betas s !! i = Some b ->
  reward_estimates s !! i = Some e ->
  MAB.update_rewards i NaN true s = (Ok tt, after_failure s i a b) /\
  MAB.update_rewards i NaN false s = (Ok tt, s).
Proof.
  intros Ha Hb He. split; [|reflexivity].
  unfold MAB.update_rewards. simpl. apply (failure_run s i a b e); auto.
Qed.

(** A reward that is neither 0 nor 1 takes the branches of NaN. *)
Lemma update_rewards_other (s : NaiveMAB) (i : nat) (q : Q) (naf : bool) :
  ~ (q == 0)%Q -> ~ (q == 1)%Q ->
  MAB.update_rewards i (Fin q) naf s = MAB.update_rewards i NaN naf s.
Proof.
  intros H0 H1. unfold MAB.update_rewards.
  rewrite (py_eq_false _ _ H0), (py_eq_false _ _ H1). reflexivity.
Qed.

Lemma init_zero_priors (p : policy_name) (narms : nat) (eps dl : Q) :
  MAB.init p narms eps dl 0 0 =
  Ok {| policy := p; num_pulls := replicate narms 0;
        alphas := replicate narms 0%Q; alpha0 := 0%Q;
        betas := replicate narms 0%Q; beta0 := 0%Q;
        init_estimate := 0%Q; reward_estimates := replicate narms 0%Q;
        epsilon := eps; delta := dl; totalrewards := 0%Q; t := 1 |}.
Proof. reflexivity. Qed.

(** C6. On a bandit with index-aligned arrays and non-negative counters,
    for a valid arm whose counters are a and b: a reward equal to 1 adds
    one to that arm's alpha, sets its estimate to alpha/(alpha+beta) with
    the new alpha and adds one to the total reward; a reward equal to 0
    adds one to beta and recomputes the estimate, the total reward staying
    as it was; a NaN reward is a failure update when nanAsFailure is true
    and changes nothing when it is false.  The divisor is positive in both
    updates.  From priors 0 and 0, reward 1 followed by reward 0 on the
    same arm leaves the estimate 1/2. *)
Theorem C6_update_rewards_cases (s : NaiveMAB) (armidx : nat) (naf : bool) :
  MAB.aligned s -> (armidx < length (num_pulls s))%nat ->
  exists a b,
    alphas s !! armidx = Some a /\ betas s !! armidx = Some b /\
    (forall q, (q == 1)%Q ->
       (0 < (a + 1) + b)%Q /\
       MAB.update_rewards armidx (Fin q) naf s = (Ok tt, after_success s armidx a b)) /\
    (forall q, (q == 0)%Q ->
       (0 < a + (b + 1))%Q /\
       MAB.update_rewards armidx (Fin q) naf s = (Ok tt, after_failure s armidx a b)) /\
    MAB.update_rewards armidx NaN true s = (Ok tt, after_failure s armidx a b) /\
    MAB.update_rewards armidx NaN false s = (Ok tt, s) /\
    (forall p eps dl,
       exists s0 s1 s2 e,
         MAB.init p (length (num_pulls s)) eps dl 0 0 = Ok s0 /\
         MAB.update_rewards armidx (Fin 1) naf s0 = (Ok tt, s1) /\
         MAB.update_rewards armidx (Fin 0) naf s1 = (Ok tt, s2) /\
         reward_estimates s2 !! armidx = Some e /\ (e == 1 # 2)%Q).
Proof.
  intros Hal Hi.
  destruct (aligned_lookup s armidx Hal Hi) as (a & b & e & Ha & Hb & He & Pa & Pb).
  exists a, b. split; [exact Ha|]. split; [exact Hb|].
  split; [|split; [|split; [|split]]].
  - intros q Hq. split.
    + apply Qlt_le_trans with (y := (0 + 1 + 0)%Q); [reflexivity|].
      repeat apply Qplus_le_compat; auto; apply Qle_refl.
    + apply update_rewards_success with (e := e); auto.
  - intros q Hq. split.
    + apply Qlt_le_trans with (y := (0 + (0 + 1))%Q); [reflexivity|].
      repeat apply Qplus_le_compat; auto; apply Qle_refl.
    + apply update_rewards_failure with (e := e); auto.
  - apply (update_rewards_nan s armidx a b e); auto.
  - reflexivity.
  - intros p eps dl. rewrite init_zero_priors.
    set (n := length (num_pulls s)).
    assert (Hz : forall (x : Q), replicate n x !! armidx = Some x).
    { intros x. apply lookup_replicate_2. exact Hi. }
    eexists. eexists. eexists. eexists.
    split; [reflexivity|].
    split.
    { apply update_rewards_success with (e := 0%Q); simpl; auto; reflexivity. }
    split.
    { apply update_rewards_failure with (a := (0 + 1)%Q) (b := 0%Q)
                                        (e := ((0 + 1) / (0 + 1 + 0))%Q).
      - simpl. apply list_lookup_insert_eq. rewrite length_replicate. exact Hi.
      - simpl. auto.
      - simpl. apply list_lookup_insert_eq. rewrite length_replicate. exact Hi.
      - reflexivity. }
    split.
    { simpl. apply list_lookup_insert_eq.
      rewrite length_insert, length_replicate. exact Hi. }
    reflexivity.
Qed.

Lemma fresh_greedy_2_aligned : MAB.aligned fresh_greedy_2.
Proof.
  repeat split; try reflexivity; repeat constructor; discriminate.
Defined.

Lemma C6_update_rewards_cases_witness :
  MAB.aligned fresh_greedy_2 /\
  (1 < length (num_pulls fresh_greedy_2))%nat /\
  exists a b, alphas fresh_greedy_2 !! 1%nat = Some a /\
              betas fresh_greedy_2 !! 1%nat = Some b /\
              MAB.update_rewards 1 NaN true fresh_greedy_2 =
                (Ok tt, after_failure fresh_greedy_2 1 a b).
Proof.
  split; [exact fresh_greedy_2_aligned|].
  split; [simpl; lia|].
  destruct (C6_update_rewards_cases fresh_greedy_2 1 true
              fresh_greedy_2_aligned ltac:(simpl; lia))
    as (a & b & Ha & Hb & _ & _ & Hn & _).
  exists a, b. auto.
Defined.

Lemma failure_path_keeps (i : nat) (s : NaiveMAB) :
  let s' := snd ((MAB.incr_beta i;; MAB.recompute_estimate i) s) in
  alphas s' = alphas s /\ totalrewards s' = totalrewards s.
Proof.
  unfold MAB.incr_beta, MAB.recompute_estimate, np_get, np_set. se_unfold.
  destruct (betas s !! i); simpl; auto.
  destruct (alphas s !! i); simpl; auto.
  destruct (<[i:=(q + 1)%Q]> (betas s) !! i); simpl; auto.
  destruct (reward_estimates s !! i); simpl; auto.
Qed.

Lemma update_rewards_nan_keeps (i : nat) (naf : bool) (s : NaiveMAB) :
  let s' := snd (MAB.update_rewards i NaN naf s) in
  alphas s' = alphas s /\ totalrewards s' = totalrewards s.
Proof.
  unfold MAB.update_rewards. simpl.
  destruct naf; [apply failure_path_keeps|simpl; auto].
Qed.

(** C2, as the code has it.  A numeric reward that is neither 0 nor 1 is
    not rejected: update_rewards handles it exactly as it handles NaN.
    With nanAsFailure false nothing changes; with nanAsFailure true, on a
    valid arm of a well-formed bandit, it is a failure update (beta plus
    one, estimate recomputed).  In both cases the pull counts, the alphas,
    the total reward and the epoch are left as they were. *)
Theorem C2_other_reward_handled_as_nan (s : NaiveMAB) (armidx : nat) (q : Q)
    (naf : bool) :
  ~ (q == 0)%Q -> ~ (q == 1)%Q ->
  MAB.update_rewards armidx (Fin q) naf s = MAB.update_rewards armidx NaN naf s
  /\ MAB.update_rewards armidx (Fin q) false s = (Ok tt, s)
  /\ (MAB.aligned s -> (armidx < length (num_pulls s))%nat ->
      exists a b,
        alphas s !! armidx = Some a /\ betas s !! armidx = Some b /\
        MAB.update_rewards armidx (Fin q) true s =
          (Ok tt, after_failure s armidx a b))
  /\ (let s' := snd (MAB.update_rewards armidx (Fin q) naf s) in
      num_pulls s' = num_pulls s /\ alphas s' = alphas s /\
      totalrewards s' = totalrewards s /\ t s' = t s).
Proof.
  intros H0 H1.
  split; [apply update_rewards_other; auto|].
  split; [rewrite update_rewards_other by auto; reflexivity|].
  split.
  - intros Hal Hi.
    destruct (aligned_lookup s armidx Hal Hi) as (a & b & e & Ha & Hb & He & _).
    exists a, b. split; [exact Ha|]. split; [exact Hb|].
    rewrite update_rewards_other by auto.
    apply (update_rewards_nan s armidx a b e); auto.
  - rewrite update_rewards_other by auto. cbv zeta.
    destruct (update_rewards_pulls armidx NaN naf s) as [Hn Ht].
    destruct (update_rewards_nan_keeps armidx naf s) as [Ha Hr].
    auto.
Qed.

Lemma C2_other_reward_handled_as_nan_witness :
  MAB.update_rewards 0 (Fin (1 # 2)) true fresh_greedy_2 =
  MAB.update_rewards 0 NaN true fresh_greedy_2.
Proof.
  refine (proj1 (C2_other_reward_handled_as_nan fresh_greedy_2 0 (1 # 2) true _ _));
    discriminate.
Defined.

(** C2 as stated fails: reward 0.5 on a fresh two-arm bandit raises
    nothing and is booked as a failure of arm 0 (beta goes from 0 to 1). *)
Lemma C2_other_reward_counterexample :
  fst (MAB.update_rewards 0 (Fin (1 # 2)) true fresh_greedy_2) = Ok tt /\
  betas fresh_greedy_2 = [0%Q; 0%Q] /\
  betas (snd (MAB.update_rewards 0 (Fin (1 # 2)) true fresh_greedy_2))
    = [1%Q; 0%Q].
Proof. vm_compute. repeat split. Qed.


(** ** The selection policies *)

Lemma np_where_from_elem {A} (p : A -> bool) (a : list A) (k i : nat) :
  i ∈ np_where_from p k a <->
  exists j x, i = (k + j)%nat /\ a !! j = Some x /\ p x = true.
Proof.
  revert k. induction a as [|y a IH]; intros k; simpl.
  - split; [intros E; inversion E|intros (j & x & _ & E & _); discriminate].
  - destruct (p y) eqn:Py.
    + rewrite elem_of_cons, IH. split.
      * intros [->|(j & x & -> & Hj & Hx)].
        -- exists 0%nat, y. split; [lia|auto].
        -- exists (S j), x. split; [lia|auto].
      * intros (j & x & -> & Hj & Hx). destruct j as [|j]; simpl in Hj.
        -- left. lia.
        -- right. exists j, x. split; [lia|auto].
    + rewrite IH. split.
      * intros (j & x & -> & Hj & Hx). exists (S j), x. split; [lia|auto].
      * intros (j & x & -> & Hj & Hx). destruct j as [|j]; simpl in Hj.
        -- injection Hj as ->. congruence.
        -- exists j, x. split; [lia|auto].
Qed.

Lemma np_where_elem {A} (p : A -> bool) (a : list A) (i : nat) :
  i ∈ np_where p a <-> exists x, a !! i = Some x /\ p x = true.
Proof.
  unfold np_where. rewrite np_where_from_elem. split.
  - intros (j & x & -> & Hj & Hx). exists x. auto.
  - intros (x & Hi & Hx). exists i, x. auto.
Qed.

Lemma np_where_from_fmap {A B} (f : A -> B) (p : B -> bool) (a : list A) (k : nat) :
  np_where_from p k (f <$> a) = np_where_from (fun x => p (f x)) k a.
Proof.
  revert k; induction a as [|y a IH]; intros k; simpl; [reflexivity|].
  rewrite IH. reflexivity.
Qed.

Lemma np_random_choice_elem (g : rng) (a : list nat) :
  a <> [] -> exists i, np_random_choice g a = Ok i /\ i ∈ a.
Proof.
  destruct a as [|x a]; [congruence|]. intros _.
  unfold np_random_choice, np_get.
  set (l := x :: a).
  assert (Hlt : (rand_int g mod length l < length l)%nat).
  { apply Nat.mod_upper_bound. simpl. lia. }
  destruct (lookup_lt_is_Some_2 l _ Hlt) as [i Hi].
  rewrite Hi. exists i. split; [reflexivity|].
  eapply list_elem_of_lookup_2; eauto.
Qed.

Lemma Qmaxb_cases (a b : Q) :
  (Qmaxb a b = a /\ (b <= a)%Q) \/ (Qmaxb a b = b /\ (a <= b)%Q).
Proof.
  unfold Qmaxb. destruct (Qle_bool a b) eqn:E.
  - right. split; [reflexivity|]. apply Qle_bool_iff, E.
  - left. split; [reflexivity|].
    destruct (Qlt_le_dec b a) as [Hlt|Hle].
    + apply Qlt_le_weak, Hlt.
    + apply Qle_bool_iff in Hle. congruence.
Qed.

Lemma fold_Qmaxb_spec (rest : list Q) (x : Q) :
  let m := fold_left Qmaxb rest x in
  m ∈ x :: rest /\ (x <= m)%Q /\ Forall (fun y => (y <= m)%Q) rest.
Proof.
  revert x. induction rest as [|y rest IH]; intros x; simpl.
  - split; [left|]. split; [apply Qle_refl|constructor].
  - destruct (IH (Qmaxb x y)) as (Hin & Hle & Hall).
    destruct (Qmaxb_cases x y) as [[E Hyx]|[E Hxy]]; rewrite E in *.
    + split.
      { apply elem_of_cons in Hin as [->|Hin]; [left|right; right; exact Hin]. }
      split; [exact Hle|]. constructor; [|exact Hall].
      eapply Qle_trans; eauto.
    + split.
      { right. exact Hin. }
      split; [eapply Qle_trans; eauto|]. constructor; auto.
Qed.

(** [np.max] is an upper bound that some position attains. *)
Lemma np_max_spec (l : list Q) :
  l <> [] ->
  (forall j y, l !! j = Some y -> (y <= np_max l)%Q) /\
  np_where (fun y => Qeq_bool y (np_max l)) l <> [].
Proof.
  destruct l as [|x rest]; [congruence|]. intros _. unfold np_max.
  destruct (fold_Qmaxb_spec rest x) as (Hin & Hle & Hall). cbv zeta in *.
  set (m := fold_left Qmaxb rest x) in *.
  split.
  - intros [|j] y Hj; simpl in Hj.
    + injection Hj as <-. exact Hle.
    + eapply (proj1 (Forall_lookup _ _) Hall); eauto.
  - apply list_elem_of_lookup in Hin as [i Hi].
    intros E.
    assert (Hel : i ∈ np_where (fun y => Qeq_bool y m) (x :: rest)).
    { apply np_where_elem. exists m. split; [exact Hi|].
      apply Qeq_bool_iff. reflexivity. }
    rewrite E in Hel. inversion Hel.
Qed.

Lemma np_fmax_fin (l : list Q) :
  l <> [] -> np_fmax (Fin <$> l) = Fin (np_max l).
Proof.
  destruct l as [|x rest]; [congruence|]. intros _. simpl.
  revert x. induction rest as [|y rest IH]; intros x; simpl; [reflexivity|].
  apply IH.
Qed.

Section UcbProofs.
Context `{FL : FloatLib}.

Lemma ucb_delta_nonneg (mab_epoch : Z) (delta : Q) :
  1 <= mab_epoch -> (0 <= ucb_delta mab_epoch delta)%Q.
Proof.
  intros He. unfold ucb_delta, Qlt_bool.
  destruct (Qle_bool 0 delta) eqn:E; simpl.
  - apply Qle_bool_iff, E.
  - pose proof (math_log_nonneg mab_epoch He) as Hl.
    apply Qle_trans with (y := (0 + 0)%Q); [discriminate|].
    apply Qplus_le_compat; [discriminate|].
    apply Qmult_le_0_compat.
    + change 0%Q with (inject_Z 0). rewrite <- Zle_Qle. lia.
    + apply Qmult_le_0_compat; exact Hl.
Qed.

Lemma np_sqrt_of_pulled (mab_epoch : Z) (delta : Q) (n : Z) :
  1 <= mab_epoch -> 0 < n ->
  Policies.np_sqrt
    (ucb_delta mab_epoch delta * math_log_pos mab_epoch / inject_Z n) =
  Fin (np_sqrt_pos
         (ucb_delta mab_epoch delta * math_log_pos mab_epoch / inject_Z n)).
Proof.
  intros He Hn. unfold Policies.np_sqrt, Qlt_bool.
  assert (Hpos : (0 <= ucb_delta mab_epoch delta * math_log_pos mab_epoch
                        / inject_Z n)%Q).
  { apply Qle_shift_div_l.
    - change 0%Q with (inject_Z 0). rewrite <- Zlt_Qlt. exact Hn.
    - rewrite Qmult_0_l. apply Qmult_le_0_compat.
      + apply ucb_delta_nonneg, He.
      + apply math_log_nonneg, He. }
  apply Qle_bool_iff in Hpos. rewrite Hpos. reflexivity.
Qed.

Lemma ucb_values_scores (rewards : list Q) (n_pulls : list Z)
    (mab_epoch : Z) (delta : Q) :
  1 <= mab_epoch -> length n_pulls = length rewards ->
  Forall (fun n => 0 < n) n_pulls ->
  Policies.ucb_values rewards n_pulls (math_log_pos mab_epoch)
    (ucb_delta mab_epoch delta) =
  Ok (Fin <$> zip_with (ucb_score mab_epoch delta) rewards n_pulls).
Proof.
  intros He Hlen Hall. unfold Policies.ucb_values, np_broadcast2.
  rewrite length_map, Hlen, Nat.eqb_refl. f_equal.
  clear Hlen. revert rewards.
  induction Hall as [|n ns Hn Hall IH]; intros [|r rs]; simpl; try reflexivity.
  rewrite (np_sqrt_of_pulled mab_epoch delta n He Hn). simpl.
  unfold ucb_score at 1. f_equal. apply IH.
Qed.

End UcbProofs.

Section UcbTheorem.
Context `{FL : FloatLib}.

Lemma math_log_ok (mab_epoch : Z) :
  1 <= mab_epoch -> Policies.math_log mab_epoch = Ok (math_log_pos mab_epoch).
Proof.
  intros He. unfold Policies.math_log.
  destruct (mab_epoch <=? 0) eqn:E; [|reflexivity].
  apply Z.leb_le in E. lia.
Qed.

(** C7. On a non-empty candidate set (index-aligned estimates and pull
    counts, epoch at least 1), ucb returns a candidate position.  When
    some candidate has zero pulls the returned one has zero pulls,
    whatever delta is.  When none has, the returned one maximizes
    estimate + sqrt(delta * log(epoch) / pulls), a negative delta being
    replaced by 1 + epoch * log(epoch)^2 first. *)
Theorem C7_ucb_selection (g : rng) (rewards : list Q) (n_pulls : list Z)
    (al be : list Q) (mab_epoch : Z) (eps dl : Q) :
  length rewards <> 0%nat ->
  length n_pulls = length rewards ->
  1 <= mab_epoch ->
  Forall (fun n => 0 <= n) n_pulls ->
  exists i r n,
    Policies.ucb g rewards n_pulls al be mab_epoch eps dl = Ok i /\
    rewards !! i = Some r /\ n_pulls !! i = Some n /\
    ((exists j, n_pulls !! j = Some 0) -> n = 0) /\
    ((forall j, n_pulls !! j <> Some 0) ->
     forall j rj nj,
       rewards !! j = Some rj -> n_pulls !! j = Some nj ->
       (ucb_score mab_epoch dl rj nj <= ucb_score mab_epoch dl r n)%Q).
Proof.
  intros Hne Hlen He Hnn. unfold Policies.ucb.
  destruct (length rewards =? 0)%nat eqn:E0; [apply Nat.eqb_eq in E0; lia|].
  destruct (np_where (Z.eqb 0) n_pulls) as [|z zs] eqn:Ez.
  - (* every candidate has been pulled *)
    simpl length. change (0 <? 0)%nat with false. cbv iota.
    assert (Hnz : forall j, n_pulls !! j <> Some 0).
    { intros j Hj.
      assert (Hel : j ∈ np_where (Z.eqb 0) n_pulls).
      { apply np_where_elem. exists 0. auto. }
      rewrite Ez in Hel. inversion Hel. }
    assert (Hpos : Forall (fun n => 0 < n) n_pulls).
    { apply Forall_lookup. intros j n Hj.
      pose proof (proj1 (Forall_lookup _ _) Hnn j n Hj) as Hn. simpl in Hn.
      destruct (Z.eq_dec n 0) as [->|]; [exfalso; eapply Hnz; eauto|lia]. }
    assert (Hd : (if Qlt_bool dl 0
                  then lg ← Policies.math_log mab_epoch;
                       Ok (1 + inject_Z mab_epoch * (lg * lg))%Q
                  else Ok dl) = Ok (ucb_delta mab_epoch dl)).
    { unfold ucb_delta. destruct (Qlt_bool dl 0); [|reflexivity].
      rewrite (math_log_ok _ He). reflexivity. }
    rewrite Hd. simpl. rewrite (math_log_ok _ He). simpl.
    rewrite (ucb_values_scores rewards n_pulls mab_epoch dl He Hlen Hpos). simpl.
    set (scores := zip_with (ucb_score mab_epoch dl) rewards n_pulls).
    assert (Hsne : scores <> []).
    { intros E. apply (f_equal length) in E. unfold scores in E.
      rewrite length_zip_with in E. simpl in E. lia. }
    rewrite (np_fmax_fin scores Hsne). unfold np_where_feq, np_where.
    rewrite np_where_from_fmap. simpl.
    destruct (np_max_spec scores Hsne) as [Hub Hattained].
    destruct (np_random_choice_elem g _ Hattained) as (i & Hi & Hel).
    apply np_where_elem in Hel as (x & Hx & Hxm).
    apply Qeq_bool_iff in Hxm.
    unfold scores in Hx. apply lookup_zip_with_Some in Hx as (r & n & -> & Hr & Hn).
    exists i, r, n. split; [exact Hi|]. split; [exact Hr|]. split; [exact Hn|].
    split.
    + intros [j Hj]. exfalso. eapply Hnz; eauto.
    + intros _ j rj nj Hrj Hnj. rewrite Hxm. apply (Hub j).
      unfold scores. apply lookup_zip_with_Some. exists rj, nj. auto.
  - (* some candidate has never been pulled *)
    change (0 <? length (z :: zs))%nat with true. cbv iota.
    destruct (np_random_choice_elem g (z :: zs)) as (i & Hi & Hel); [congruence|].
    rewrite <- Ez in Hel. apply np_where_elem in Hel as (n & Hn & Hz).
    apply Z.eqb_eq in Hz. subst n.
    destruct (lookup_lt_is_Some_2 rewards i) as [r Hr].
    { rewrite <- Hlen. eapply lookup_lt_Some; eauto. }
    exists i, r, 0. split; [exact Hi|]. split; [exact Hr|]. split; [exact Hn|].
    split; [reflexivity|].
    intros Hnz. exfalso. eapply Hnz; eauto.
Qed.

End UcbTheorem.

Lemma C7_ucb_selection_witness :
  exists i r n,
    Policies.ucb (FL := coarse_floatlib) (fixed_rng 0)
      [1 # 2; 1 # 3; 0]%Q [2; 1; 4] [] [] 8 (1 # 5) 2 = Ok i /\
    [1 # 2; 1 # 3; 0]%Q !! i = Some r /\ [2; 1; 4] !! i = Some n.
Proof.
  destruct (C7_ucb_selection (FL := coarse_floatlib) (fixed_rng 0)
              [1 # 2; 1 # 3; 0]%Q [2; 1; 4] [] [] 8 (1 # 5) 2)
    as (i & r & n & Hi & Hr & Hn & _).
  - simpl. lia.
  - reflexivity.
  - lia.
  - repeat constructor; lia.
  - exists i, r, n. auto.
Defined.

(** ** The rating store *)

Lemma count_relevance_sums (rel anti : Q) (vc : list (Q * Z)) :
  count_relevance rel anti vc =
  (sum_counts (fun v => Qle_bool v anti) vc,
   sum_counts (fun v => Qle_bool rel v) vc).
Proof.
  unfold count_relevance.
  assert (Hgen : forall a r,
    fold_left
      (fun acc vc0 =>
         let value := fst vc0 in
         let anti0 := if Qle_bool value anti then fst acc + snd vc0 else fst acc in
         let rel0 := if Qle_bool rel value then snd acc + snd vc0 else snd acc in
         (anti0, rel0)) vc (a, r) =
    (a + sum_counts (fun v => Qle_bool v anti) vc,
     r + sum_counts (fun v => Qle_bool rel v) vc)).
  { induction vc as [|[v c] vc IH]; intros a r; simpl.
    - f_equal; lia.
    - rewrite IH. destruct (Qle_bool v anti), (Qle_bool rel v); f_equal; lia. }
  rewrite Hgen. reflexivity.
Qed.

Lemma sum_counts_vc_add (p : Q -> bool) (v : Q) (vc : list (Q * Z)) :
  (forall a b, (a == b)%Q -> p a = p b) ->
  sum_counts p (vc_add v vc) = (if p v then 1 else 0) + sum_counts p vc.
Proof.
  intros Hp. induction vc as [|[w c] vc IH]; simpl.
  - lia.
  - destruct (Qeq_bool w v) eqn:E; simpl.
    + apply Qeq_bool_iff in E. rewrite (Hp w v E). destruct (p v); lia.
    + rewrite IH. destruct (p w), (p v); lia.
Qed.

Lemma sum_counts_value_counts (p : Q -> bool) (col : list pyfloat) :
  (forall a b, (a == b)%Q -> p a = p b) ->
  sum_counts p (value_counts col) = count_ratings p col.
Proof.
  intros Hp. induction col as [|[|q] col IH]; simpl; auto.
  rewrite sum_counts_vc_add by exact Hp. rewrite IH. reflexivity.
Qed.

Lemma Qle_bool_compat_l (c a b : Q) : (a == b)%Q -> Qle_bool a c = Qle_bool b c.
Proof.
  intros E. destruct (Qle_bool a c) eqn:Ea, (Qle_bool b c) eqn:Eb; auto.
  - apply Qle_bool_iff in Ea. rewrite E in Ea. apply Qle_bool_iff in Ea. congruence.
  - apply Qle_bool_iff in Eb. rewrite <- E in Eb. apply Qle_bool_iff in Eb. congruence.
Qed.

Lemma Qle_bool_compat_r (c a b : Q) : (a == b)%Q -> Qle_bool c a = Qle_bool c b.
Proof.
  intros E. destruct (Qle_bool c a) eqn:Ea, (Qle_bool c b) eqn:Eb; auto.
  - apply Qle_bool_iff in Ea. rewrite E in Ea. apply Qle_bool_iff in Ea. congruence.
  - apply Qle_bool_iff in Eb. rewrite <- E in Eb. apply Qle_bool_iff in Eb. congruence.
Qed.

Lemma count_ratings_nonneg (p : Q -> bool) (col : list pyfloat) :
  0 <= count_ratings p col.
Proof. induction col as [|[|q] col IH]; simpl; try destruct (p q); lia. Qed.

Lemma count_ratings_pos (p : Q -> bool) (col : list pyfloat) (q : Q) :
  Fin q ∈ col -> p q = true -> 1 <= count_ratings p col.
Proof.
  intros Hin Hq. induction col as [|x col IH]; [inversion Hin|].
  apply elem_of_cons in Hin as [<-|Hin]; simpl.
  - rewrite Hq. pose proof (count_ratings_nonneg p col). lia.
  - specialize (IH Hin). destruct x as [|q']; [exact IH|].
    destruct (p q'); lia.
Qed.

Lemma count_ratings_disjoint (p1 p2 : Q -> bool) (col : list pyfloat) :
  (forall q, Fin q ∈ col -> ~ (p1 q = true /\ p2 q = true)) ->
  count_ratings p1 col + count_ratings p2 col <= Z.of_nat (length col).
Proof.
  induction col as [|x col IH]; intros Hd; simpl length; [simpl; lia|].
  assert (IH' : count_ratings p1 col + count_ratings p2 col <= Z.of_nat (length col)).
  { apply IH. intros q Hq. apply Hd. apply list_elem_of_further. exact Hq. }
  destruct x as [|q]; simpl; [lia|].
  specialize (Hd q (list_elem_of_here _ _)).
  destruct (p1 q), (p2 q); try lia; exfalso; apply Hd; auto.
Qed.

Lemma to_indexes_records (us its : list nat) (rows rows' : list ratings_row) :
  to_indexes us its rows = Ok rows' ->
  ratings_column rows' = ratings_column rows.
Proof.
  revert rows'. induction rows as [|r rows IH]; intros rows'; simpl.
  - intros E; inversion E; reflexivity.
  - destruct (get_loc us (row_user r)); [|discriminate]. simpl.
    destruct (get_loc its (row_item r)); [|discriminate]. simpl.
    destruct (to_indexes us its rows) as [rest|]; [|discriminate]. simpl.
    intros E; inversion E; subst. unfold ratings_column in *. simpl.
    f_equal. apply IH. reflexivity.
Qed.

(** What a returning constructor has computed, statement by statement. *)
Lemma init_ok_inv users_arg items_arg splitted whole_set rand test_proportion
    rel anti dl :
  DataLayerOps.init users_arg items_arg splitted whole_set rand test_proportion
    rel anti = Ok dl ->
  let mask := DataLayerOps.split_mask rand test_proportion whole_set in
  let train := DataLayerOps.select_rows false mask whole_set in
  let test_rows := DataLayerOps.select_rows true mask whole_set in
  let matrix0 := match train with
                 | [] => empty_frame
                 | _ :: _ => pivot_table train
                 end in
  test_rows <> [] /\
  exists users0 items0 matrix1,
    match users_arg with
    | None => users0 = sorted_unique (df_index matrix0 ++ (row_user <$> test_rows))
    | Some us => users0 = us /\ NoDup us
    end /\
    match items_arg with
    | None => items0 = index_union (df_columns matrix0) (row_item <$> test_rows) /\
              matrix1 = matrix0
    | Some its => items0 = its /\ NoDup its /\
                  matrix1 = add_missing_columns matrix0 its
    end /\
    users dl = sorted_unique users0 /\ items dl = sort_index items0 /\
    reindex_matrix matrix1 (length (items dl)) = Ok (utility_matrix dl) /\
    to_indexes (users dl) (items dl) train = Ok (initial_train_set dl) /\
    to_indexes (users dl) (items dl) test_rows = Ok (test_df dl) /\
    build_test_set (test_df dl) = Ok (test_set dl) /\
    relevanceThreshold dl = rel /\ antiRelevanceThreshold dl = anti /\
    (antiRelevantCount dl, relevantCount dl) =
      count_relevance rel anti
        (value_counts ((fun r => rating (row_record r)) <$> test_rows)) /\
    toDiscoverCount dl = antiRelevantCount dl + relevantCount dl.
Proof.
  unfold DataLayerOps.init. destruct splitted; [discriminate|].
  set (mask := DataLayerOps.split_mask rand test_proportion whole_set).
  set (test_rows := DataLayerOps.select_rows true mask whole_set).
  set (train := DataLayerOps.select_rows false mask whole_set).
  set (matrix0 := match train with [] => empty_frame | _ :: _ => pivot_table train end).
  intros E. cbv zeta.
  destruct (length test_rows =? 0)%nat eqn:El.
  { exfalso. revert E.
    destruct users_arg as [us|]; [|discriminate].
    destruct (is_unique us); [|discriminate]. simpl.
    destruct items_arg as [its|]; [|discriminate].
    destruct (is_unique its); discriminate. }
  assert (Hne : test_rows <> []).
  { intros Hnil. rewrite Hnil in El. discriminate. }
  split; [exact Hne|]. revert E.
  set (U := match users_arg with
            | Some us => if is_unique us then Ok us else Raise TypeError
            | None => _ end).
  destruct U as [users0|] eqn:EU; [|discriminate]. simpl.
  set (I := match items_arg with
            | Some its => _
            | None => _ end).
  destruct I as [[items0 matrix1]|] eqn:EI; [|discriminate]. simpl.
  destruct (reindex_matrix _ _) as [m2|] eqn:Em; [|discriminate]. simpl.
  destruct (to_indexes _ _ train) as [train_idx|] eqn:Etr; [|discriminate]. simpl.
  destruct (to_indexes _ _ test_rows) as [test_idx|] eqn:Ete; [|discriminate]. simpl.
  destruct (build_test_set test_idx) as [dict|] eqn:Eb; [|discriminate]. simpl.
  intros E; inversion E; subst dl; clear E. simpl.
  exists users0, items0, matrix1.
  split.
  { unfold U in EU. destruct users_arg as [us|].
    - unfold is_unique in EU. destruct (bool_decide (NoDup us)) eqn:Bu; [|discriminate].
      apply bool_decide_eq_true_1 in Bu. inversion EU; subst. auto.
    - inversion EU; subst. reflexivity. }
  split.
  { unfold I in EI. destruct items_arg as [its|].
    - unfold is_unique in EI. destruct (bool_decide (NoDup its)) eqn:Bi; [|discriminate].
      apply bool_decide_eq_true_1 in Bi. inversion EI; subst. auto.
    - inversion EI; subst. auto. }
  repeat (split; [first [reflexivity|assumption]|]).
  split; [|reflexivity].
  destruct (count_relevance _ _ _); reflexivity.
Qed.

(** What the constructor establishes about the held-out data. *)
Lemma init_held_out users_arg items_arg splitted whole_set rand test_proportion
    rel anti dl :
  DataLayerOps.init users_arg items_arg splitted whole_set rand test_proportion
    rel anti = Ok dl ->
  relevanceThreshold dl = rel /\ antiRelevanceThreshold dl = anti /\
  relevantCount dl =
    count_ratings (fun q => Qle_bool rel q) (ratings_column (test_df dl)) /\
  antiRelevantCount dl =
    count_ratings (fun q => Qle_bool q anti) (ratings_column (test_df dl)) /\
  toDiscoverCount dl = antiRelevantCount dl + relevantCount dl /\
  build_test_set (test_df dl) = Ok (test_set dl).
Proof.
  intros Hinit.
  destruct (init_ok_inv _ _ _ _ _ _ _ _ _ Hinit)
    as (_ & users0 & items0 & matrix1 & _ & _ & _ & _ & _ & _ & Et & Eb
        & Hr & Ha & Hc & Hd).
  split; [exact Hr|]. split; [exact Ha|].
  rewrite (to_indexes_records _ _ _ _ Et).
  rewrite count_relevance_sums in Hc. simpl in Hc.
  rewrite !sum_counts_value_counts in Hc.
  - injection Hc as Hanti Hrel. unfold ratings_column.
    split; [exact Hrel|]. split; [exact Hanti|]. split; [exact Hd|exact Eb].
  - intros a b. first [apply Qle_bool_compat_l|apply Qle_bool_compat_r].
  - intros a b. first [apply Qle_bool_compat_l|apply Qle_bool_compat_r].
Qed.

(** The bound that the constructor's counts do keep.  For a constructed
    rating store, relevantCount + antiRelevantCount is at most the number
    of held-out entries whenever no held-out rating r has
    relevanceThreshold <= r <= antiRelevanceThreshold, and so whenever the
    antirelevance threshold is below the relevance threshold. *)
Lemma counts_within_held_out users_arg items_arg splitted whole_set rand
    test_proportion (rel anti : Q) (dl : DataLayer) :
  DataLayerOps.init users_arg items_arg splitted whole_set rand test_proportion
    rel anti = Ok dl ->
  (anti < rel)%Q \/
  (forall row q, row ∈ test_df dl -> rating (row_record row) = Fin q ->
                 ~ (rel <= q /\ q <= anti)%Q) ->
  relevantCount dl + antiRelevantCount dl <= Z.of_nat (length (test_df dl)).
Proof.
  intros Hinit Hsep.
  destruct (init_held_out _ _ _ _ _ _ _ _ _ Hinit) as (_ & _ & -> & -> & _).
  assert (Hlen : length (test_df dl) = length (ratings_column (test_df dl))).
  { unfold ratings_column. rewrite length_fmap. reflexivity. }
  rewrite Hlen. apply count_ratings_disjoint.
  intros q Hq [Hr Ha]. apply Qle_bool_iff in Hr, Ha.
  destruct Hsep as [Hlt|Hrows].
  - apply (Qlt_irrefl rel). eapply Qle_lt_trans; [|exact Hlt].
    eapply Qle_trans; eauto.
  - unfold ratings_column in Hq. apply list_elem_of_fmap in Hq as (row & Hrow & Hin).
    apply (Hrows row q Hin); auto.
Qed.

(** With thresholds that do not overlap, coinciding ones included, no
    rating is both relevant and antirelevant for the predicates
    isRelevant and isAntiRelevant. *)
Lemma strict_predicates_exclusive (dl : DataLayer) (r : rating_record) :
  (antiRelevanceThreshold dl <= relevanceThreshold dl)%Q ->
  DataLayerOps.isRelevant dl r = true ->
  DataLayerOps.isAntiRelevant dl r = false.
Proof.
  unfold DataLayerOps.isRelevant, DataLayerOps.isAntiRelevant.
  destruct (rating r) as [|q]; simpl; [discriminate|].
  intros Hle Hrel. apply negb_true_iff in Hrel. apply negb_false_iff.
  apply Qle_bool_iff.
  destruct (Qlt_le_dec (relevanceThreshold dl) q) as [Hlt|Hge].
  - eapply Qle_trans; [exact Hle|]. apply Qlt_le_weak. exact Hlt.
  - apply Qle_bool_iff in Hge. congruence.
Qed.

(** Counted with the predicates, the relevant and the antirelevant
    held-out ratings are then never more than the held-out ratings. *)
Lemma strict_counts_within_held_out (dl : DataLayer) :
  (antiRelevanceThreshold dl <= relevanceThreshold dl)%Q ->
  (length (filter (fun row => DataLayerOps.isRelevant dl (row_record row) = true)
             (test_df dl)) +
   length (filter (fun row => DataLayerOps.isAntiRelevant dl (row_record row) = true)
             (test_df dl))
   <= length (test_df dl))%nat.
Proof.
  intros Hle. induction (test_df dl) as [|row rows IH]; [simpl; lia|].
  destruct (DataLayerOps.isRelevant dl (row_record row)) eqn:Er.
  - pose proof (strict_predicates_exclusive dl (row_record row) Hle Er) as Ea.
    rewrite filter_cons_True by exact Er.
    rewrite filter_cons_False by congruence. simpl. lia.
  - rewrite filter_cons_False by congruence.
    destruct (DataLayerOps.isAntiRelevant dl (row_record row)) eqn:Ea.
    + rewrite filter_cons_True by exact Ea. simpl. lia.
    + rewrite filter_cons_False by congruence. simpl. lia.
Qed.

(** With overlapping thresholds a rating strictly between the two is
    relevant and antirelevant at once, for the predicates as well. *)
Lemma overlapping_thresholds_both (dl : DataLayer) (r : rating_record) (q : Q) :
  rating r = Fin q ->
  (relevanceThreshold dl < q)%Q -> (q < antiRelevanceThreshold dl)%Q ->
  DataLayerOps.isRelevant dl r = true /\ DataLayerOps.isAntiRelevant dl r = true.
Proof.
  intros Hr Hlo Hhi. unfold DataLayerOps.isRelevant, DataLayerOps.isAntiRelevant.
  rewrite Hr. simpl. split; apply negb_true_iff.
  - destruct (Qle_bool q (relevanceThreshold dl)) eqn:E; [|reflexivity].
    apply Qle_bool_iff in E. exfalso. exact (Qlt_not_le _ _ Hlo E).
  - destruct (Qle_bool (antiRelevanceThreshold dl) q) eqn:E; [|reflexivity].
    apply Qle_bool_iff in E. exfalso. exact (Qlt_not_le _ _ Hhi E).
Qed.

(** C1.  With both thresholds at 3 (the constructor's defaults) and a
    single held-out rating equal to 3, the constructor sets relevantCount
    and antiRelevantCount to 1 each, two for one held-out entry, although
    that rating is neither relevant nor antirelevant for isRelevant and
    isAntiRelevant: the constructor compares with >= and <= where the
    predicates, and the descriptions of the two counts, are strict. *)
Theorem C1_coinciding_thresholds_double_count :
  exists dl row,
    DataLayerOps.init None None false (two_user_ratings 4 3)
      (first_rows_train 1) (1 # 2) 3 3 = Ok dl /\
    test_df dl = [row] /\ rating (row_record row) = Fin 3 /\
    DataLayerOps.isRelevant dl (row_record row) = false /\
    DataLayerOps.isAntiRelevant dl (row_record row) = false /\
    DataLayerOps.get_relevant_count dl = 1 /\
    DataLayerOps.get_antirelevant_count dl = 1 /\
    ~ (DataLayerOps.get_relevant_count dl + DataLayerOps.get_antirelevant_count dl
       <= Z.of_nat (length (test_df dl))).
Proof.
  destruct (DataLayerOps.init None None false (two_user_ratings 4 3)
              (first_rows_train 1) (1 # 2) 3 3) as [dl|e] eqn:E;
    vm_compute in E; [|discriminate].
  injection E as <-. eexists. eexists.
  split; [reflexivity|]. split; [reflexivity|].
  split; [reflexivity|]. split; [reflexivity|]. split; [reflexivity|].
  split; [reflexivity|]. split; [reflexivity|].
  vm_compute. intros H. apply H. reflexivity.
Qed.

(** C9. isRelevant holds exactly for a rating that is not NaN and
    strictly above the relevance threshold, isAntiRelevant exactly for one
    that is not NaN and strictly below the antirelevance threshold; a
    rating equal to a threshold is on neither side of it, and a NaN rating
    is neither relevant nor antirelevant. *)
Theorem C9_relevance_predicates (dl : DataLayer) (r : rating_record) :
  (DataLayerOps.isRelevant dl r = true <->
   exists q, rating r = Fin q /\ (relevanceThreshold dl < q)%Q) /\
  (DataLayerOps.isAntiRelevant dl r = true <->
   exists q, rating r = Fin q /\ (q < antiRelevanceThreshold dl)%Q) /\
  (forall q, rating r = Fin q -> (q == relevanceThreshold dl)%Q ->
             DataLayerOps.isRelevant dl r = false) /\
  (forall q, rating r = Fin q -> (q == antiRelevanceThreshold dl)%Q ->
             DataLayerOps.isAntiRelevant dl r = false) /\
  (rating r = NaN ->
   DataLayerOps.isRelevant dl r = false /\
   DataLayerOps.isAntiRelevant dl r = false).
Proof.
  unfold DataLayerOps.isRelevant, DataLayerOps.isAntiRelevant.
  destruct (rating r) as [|q]; simpl.
  - repeat split; try discriminate; intros (q & Hq & _); discriminate.
  - assert (Hgt : forall c, negb (Qle_bool q c) = true <-> (c < q)%Q).
    { intros c. rewrite negb_true_iff. split.
      - intros E. apply Qnot_le_lt. intros Hle. apply Qle_bool_iff in Hle. congruence.
      - intros Hlt. destruct (Qle_bool q c) eqn:E; auto.
        apply Qle_bool_iff in E. exfalso. eapply Qlt_not_le; eauto. }
    assert (Hlt : forall c, negb (Qle_bool c q) = true <-> (q < c)%Q).
    { intros c. rewrite negb_true_iff. split.
      - intros E. apply Qnot_le_lt. intros Hle. apply Qle_bool_iff in Hle. congruence.
      - intros Hl. destruct (Qle_bool c q) eqn:E; auto.
        apply Qle_bool_iff in E. exfalso. eapply Qlt_not_le; eauto. }
    split; [|split; [|split; [|split]]].
    + rewrite Hgt. split; [intros Hq; exists q; auto|].
      intros (q' & E & Hq); inversion E; subst; auto.
    + rewrite Hlt. split; [intros Hq; exists q; auto|].
      intros (q' & E & Hq); inversion E; subst; auto.
    + intros q' E Heq; inversion E; subst.
      apply negb_false_iff, Qle_bool_iff. rewrite Heq. apply Qle_refl.
    + intros q' E Heq; inversion E; subst.
      apply negb_false_iff, Qle_bool_iff. rewrite Heq. apply Qle_refl.
    + discriminate.
Qed.

(** ** Reading and writing the utility matrix *)

Lemma set_rating_nan (dl : DataLayer) (u i : nat) :
  DataLayerOps.set_rating dl u i NaN = dl.
Proof. reflexivity. Qed.

(** The write is read back wherever the label of a row and of a column is
    also its position. *)
Lemma set_get_on_aligned_labels (dl : DataLayer) (u i : nat) (q : Q) :
  df_index (utility_matrix dl) !! u = Some u ->
  df_columns (utility_matrix dl) !! i = Some i ->
  DataLayerOps.get_known_rating (DataLayerOps.set_rating dl u i (Fin q)) u i
    = Ok (Fin q).
Proof.
  intros Hu Hi.
  unfold DataLayerOps.get_known_rating, DataLayerOps.set_rating, df_iat, df_at_set.
  simpl.
  rewrite (bool_decide_eq_true_2 _ (list_elem_of_lookup_2 _ _ _ Hu)).
  rewrite (bool_decide_eq_true_2 _ (list_elem_of_lookup_2 _ _ _ Hi)).
  rewrite Hu, Hi, lookup_insert_eq. reflexivity.
Qed.

(** The constructor leaves the matrix with positions as labels: as many
    rows as users have a rating in the training set, one column per
    item. *)
Lemma init_matrix_labels users_arg items_arg splitted whole_set rand
    test_proportion rel anti dl :
  DataLayerOps.init users_arg items_arg splitted whole_set rand test_proportion
    rel anti = Ok dl ->
  exists n_rows,
    df_index (utility_matrix dl) = seq 0 n_rows /\
    df_columns (utility_matrix dl) = seq 0 (DataLayerOps.get_n_items dl).
Proof.
  intros Hinit.
  destruct (init_ok_inv _ _ _ _ _ _ _ _ _ Hinit)
    as (_ & users0 & items0 & matrix1 & _ & _ & _ & _ & Em & _).
  unfold reindex_matrix in Em.
  destruct (negb _); [discriminate|]. inversion Em as [Hm]. simpl.
  eexists. split; reflexivity.
Qed.

(** The round trip for every index below the number of rows of the
    matrix. *)
Lemma set_get_on_matrix_rows users_arg items_arg splitted whole_set rand
    test_proportion rel anti dl (u i : nat) (q : Q) :
  DataLayerOps.init users_arg items_arg splitted whole_set rand test_proportion
    rel anti = Ok dl ->
  (u < length (df_index (utility_matrix dl)))%nat ->
  (i < DataLayerOps.get_n_items dl)%nat ->
  DataLayerOps.get_known_rating (DataLayerOps.set_rating dl u i (Fin q)) u i
    = Ok (Fin q).
Proof.
  intros Hinit Hu Hi.
  destruct (init_matrix_labels _ _ _ _ _ _ _ _ _ Hinit) as (n & Hrows & Hcols).
  apply set_get_on_aligned_labels.
  - rewrite Hrows in *. rewrite length_seq in Hu. apply lookup_seq. lia.
  - rewrite Hcols. apply lookup_seq. lia.
Qed.

(** C8 on the code: users 10, 20, 30 get indexes 0, 1, 2 and items 7, 8
    indexes 0, 1; only user 10 has training ratings, so the matrix has
    the single row 0.  Writing the held-out rating of (user index 2, item
    index 1) appends a row labelled 2 at position 1, and reading position
    (2, 1) back raises IndexError, while position (1, 1), which is user
    index 1's, now returns the value written for user index 2. *)
Theorem C8_set_rating_row_misplaced :
  exists dl,
    DataLayerOps.init None None false three_users_two_items (first_rows_train 2)
      (1 # 2) (1 # 2) (1 # 2) = Ok dl /\
    DataLayerOps.list_users dl = [0; 1; 2]%nat /\
    DataLayerOps.get_n_items dl = 2%nat /\
    df_index (utility_matrix dl) = [0%nat] /\
    test_set dl !! 2%nat = Some {[ 1%nat := {| rating := Fin 1; known := None |} ]} /\
    let dl' := DataLayerOps.set_rating dl 2 1 (Fin 1) in
    df_index (utility_matrix dl') = [0; 2]%nat /\
    DataLayerOps.get_known_rating dl' 2 1 = Raise IndexError /\
    DataLayerOps.get_known_rating dl' 1 1 = Ok (Fin 1).
Proof.
  destruct (DataLayerOps.init None None false three_users_two_items
              (first_rows_train 2) (1 # 2) (1 # 2) (1 # 2)) as [dl|x] eqn:E;
    vm_compute in E; [|discriminate].
  injection E as <-. eexists. split; [reflexivity|].
  repeat split; vm_compute; reflexivity.
Qed.

(** ** The evaluator *)

Lemma build_test_set_lookup (rows : list ratings_row)
    (m : gmap nat (gmap nat rating_record)) (u i : nat) (d : gmap nat rating_record)
    (r : rating_record) :
  build_test_set rows = Ok m -> m !! u = Some d -> d !! i = Some r ->
  exists row, row ∈ rows /\ row_record row = r.
Proof.
  revert m d. induction rows as [|row rows IH]; intros m d; simpl.
  - intros E; inversion E; subst. rewrite lookup_empty. discriminate.
  - destruct (build_test_set rows) as [m0|]; [|discriminate]. simpl.
    destruct (default ∅ (m0 !! row_user row) !! row_item row) eqn:Ei; [discriminate|].
    intros E; inversion E; subst; clear E.
    destruct (decide (row_user row = u)) as [<-|Hne].
    + rewrite lookup_insert_eq. intros E; inversion E; subst; clear E.
      destruct (decide (row_item row = i)) as [<-|Hni].
      * rewrite lookup_insert_eq. intros E; inversion E; subst.
        exists row. split; [apply list_elem_of_here|reflexivity].
      * rewrite lookup_insert_ne by exact Hni. intros Hd.
        destruct (m0 !! row_user row) as [d0|] eqn:Em; simpl in Hd.
        -- destruct (IH m0 d0 eq_refl Em Hd) as (row' & Hin & Hr).
           exists row'. split; [apply list_elem_of_further, Hin|exact Hr].
        -- rewrite lookup_empty in Hd. discriminate.
    + rewrite lookup_insert_ne by exact Hne. intros Hm Hd.
      destruct (IH m0 d eq_refl Hm Hd) as (row' & Hin & Hr).
      exists row'. split; [apply list_elem_of_further, Hin|exact Hr].
Qed.

(** Writing ratings back touches the utility matrix only. *)
Lemma after_writes_frame (dl : DataLayer) (writes : list (nat * nat * pyfloat)) :
  let dl' := after_writes dl writes in
  relevanceThreshold dl' = relevanceThreshold dl /\
  antiRelevanceThreshold dl' = antiRelevanceThreshold dl /\
  relevantCount dl' = relevantCount dl /\
  antiRelevantCount dl' = antiRelevantCount dl /\
  toDiscoverCount dl' = toDiscoverCount dl /\
  test_df dl' = test_df dl /\ test_set dl' = test_set dl /\
  users dl' = users dl /\ items dl' = items dl /\
  initial_train_set dl' = initial_train_set dl.
Proof.
  unfold after_writes. revert dl.
  induction writes as [|[[u i] r] writes IH]; intros dl; simpl.
  - repeat split.
  - specialize (IH (DataLayerOps.set_rating dl u i r)). cbv zeta in IH.
    destruct r as [|q]; simpl in *; exact IH.
Qed.

(** Every record that the user-session lookup returns is the NaN sentinel
    or the record of a held-out row. *)
Lemma get_test_rating_source (dl : DataLayer) (u i : nat) (ul : UserLayer) :
  build_test_set (test_df dl) = Ok (test_set dl) ->
  UserLayerOps.init u dl = Ok ul ->
  rating (UserLayerOps.get_test_rating ul i) = NaN \/
  exists row, row ∈ test_df dl /\
              row_record row = UserLayerOps.get_test_rating ul i.
Proof.
  intros Hb. unfold UserLayerOps.init.
  destruct (DataLayerOps.get_user_id_from_index dl u); [|discriminate]. simpl.
  intros E; inversion E; subst; clear E.
  unfold UserLayerOps.get_test_rating, DataLayerOps.get_user_test_ratings_dict. simpl.
  destruct (test_set dl !! u) as [d|] eqn:Eu.
  - destruct (d !! i) as [r|] eqn:Ei; [|left; reflexivity].
    right. destruct (build_test_set_lookup _ _ u i d r Hb Eu Ei) as (row & Hin & Hr).
    exists row. auto.
  - rewrite lookup_empty. left. reflexivity.
Qed.

Lemma py_div_ok (a b : Z) :
  b <> 0 -> py_div a b = Ok (inject_Z a / inject_Z b)%Q.
Proof.
  intros Hb. unfold py_div. destruct (b =? 0) eqn:E; [|reflexivity].
  apply Z.eqb_eq in E. contradiction.
Qed.

(** [all_metrics] returns as soon as the divisors it meets are not zero. *)
Lemma all_metrics_ok (dl : DataLayer) (r : rating_record) (e : Evaluator) :
  0 <= n_iters e ->
  (DataLayerOps.isRelevant dl r = true -> relevantCount dl <> 0) ->
  (DataLayerOps.isAntiRelevant dl r = true -> antiRelevantCount dl <> 0) ->
  (DataLayerOps.isRelevant dl r = true \/ DataLayerOps.isAntiRelevant dl r = true ->
   toDiscoverCount dl <> 0) ->
  exists m e', EvaluatorOps.all_metrics dl r e = (Ok m, e') /\
              n_iters e' = n_iters e + 1.
Proof.
  intros Hn Hrel Hanti Hdisc.
  unfold EvaluatorOps.all_metrics, DataLayerOps.get_relevant_count,
    DataLayerOps.get_antirelevant_count, DataLayerOps.get_toDiscover_count.
  assert (Hn1 : n_iters e + 1 <> 0) by lia.
  destruct (DataLayerOps.isRelevant dl r) eqn:Er;
    destruct (DataLayerOps.isAntiRelevant dl r) eqn:Ea;
    se_unfold; simpl;
    repeat (rewrite py_div_ok by auto; simpl);
    eexists; eexists; split; reflexivity.
Qed.

Lemma strictly_relevant (dl : DataLayer) (r : rating_record) :
  DataLayerOps.isRelevant dl r = true ->
  exists q, rating r = Fin q /\ Qle_bool (relevanceThreshold dl) q = true.
Proof.
  unfold DataLayerOps.isRelevant. destruct (rating r) as [|q]; simpl; [discriminate|].
  intros E. exists q. split; [reflexivity|].
  apply negb_true_iff in E. apply Qle_bool_iff.
  destruct (Qlt_le_dec (relevanceThreshold dl) q) as [Hlt|Hle].
  - apply Qlt_le_weak, Hlt.
  - apply Qle_bool_iff in Hle. congruence.
Qed.

Lemma strictly_antirelevant (dl : DataLayer) (r : rating_record) :
  DataLayerOps.isAntiRelevant dl r = true ->
  exists q, rating r = Fin q /\ Qle_bool q (antiRelevanceThreshold dl) = true.
Proof.
  unfold DataLayerOps.isAntiRelevant. destruct (rating r) as [|q]; simpl; [discriminate|].
  intros E. exists q. split; [reflexivity|].
  apply negb_true_iff in E. apply Qle_bool_iff.
  destruct (Qlt_le_dec q (antiRelevanceThreshold dl)) as [Hlt|Hle].
  - apply Qlt_le_weak, Hlt.
  - apply Qle_bool_iff in Hle. congruence.
Qed.

(** C10. On a constructed rating store (also after any ratings have been
    written back to its matrix), for the record that a user session
    returns for any item, and an evaluator that has seen a non-negative
    number of iterations, all_metrics returns its five values: a relevant
    record makes relevantCount at least 1, an antirelevant one makes
    antiRelevantCount at least 1, either makes toDiscoverCount at least 1,
    and the iteration counter that divides precision and antiprecision has
    been incremented, so no divisor is zero. *)
Theorem C10_all_metrics_divisors_nonzero users_arg items_arg splitted whole_set
    rand test_proportion (rel anti : Q) (dl0 : DataLayer)
    (writes : list (nat * nat * pyfloat)) (u i : nat) (ul : UserLayer)
    (e : Evaluator) :
  DataLayerOps.init users_arg items_arg splitted whole_set rand test_proportion
    rel anti = Ok dl0 ->
  UserLayerOps.init u (after_writes dl0 writes) = Ok ul ->
  0 <= n_iters e ->
  let dl := after_writes dl0 writes in
  let r := UserLayerOps.get_test_rating ul i in
  (DataLayerOps.isRelevant dl r = true -> 1 <= DataLayerOps.get_relevant_count dl) /\
  (DataLayerOps.isAntiRelevant dl r = true ->
   1 <= DataLayerOps.get_antirelevant_count dl) /\
  (DataLayerOps.isRelevant dl r = true \/ DataLayerOps.isAntiRelevant dl r = true ->
   1 <= DataLayerOps.get_toDiscover_count dl) /\
  exists m e', EvaluatorOps.all_metrics dl r e = (Ok m, e') /\
               n_iters e' = n_iters e + 1.
Proof.
  intros Hinit Hul Hn dl r.
  destruct (init_held_out _ _ _ _ _ _ _ _ _ Hinit)
    as (Hrt & Hat & Hrc & Hac & Hdc & Hb).
  destruct (after_writes_frame dl0 writes)
    as (Frt & Fat & Frc & Fac & Fdc & Fdf & Fts & _).
  fold dl in Frt, Fat, Frc, Fac, Fdc, Fdf, Fts.
  assert (Hb' : build_test_set (test_df dl) = Ok (test_set dl)).
  { rewrite Fdf, Fts. exact Hb. }
  assert (Hsrc : forall q, rating r = Fin q ->
                           Fin q ∈ ratings_column (test_df dl0)).
  { intros q Hq.
    destruct (get_test_rating_source dl u i ul Hb' Hul) as [Hnan|(row & Hin & Hr)].
    - fold r in Hnan. congruence.
    - fold r in Hr. unfold ratings_column. apply list_elem_of_fmap.
      exists row. rewrite Hr, Hq, <- Fdf. auto. }
  assert (Hrel : DataLayerOps.isRelevant dl r = true -> 1 <= relevantCount dl).
  { intros Hr. destruct (strictly_relevant dl r Hr) as (q & Hq & Hle).
    rewrite Frc, Hrc. rewrite Frt, Hrt in Hle.
    eapply count_ratings_pos; [apply Hsrc; exact Hq|exact Hle]. }
  assert (Hanti : DataLayerOps.isAntiRelevant dl r = true -> 1 <= antiRelevantCount dl).
  { intros Hr. destruct (strictly_antirelevant dl r Hr) as (q & Hq & Hle).
    rewrite Fac, Hac. rewrite Fat, Hat in Hle.
    eapply count_ratings_pos; [apply Hsrc; exact Hq|exact Hle]. }
  assert (Hdisc : DataLayerOps.isRelevant dl r = true \/
                  DataLayerOps.isAntiRelevant dl r = true ->
                  1 <= toDiscoverCount dl).
  { intros Hor. rewrite Fdc, Hdc, <- Fac, <- Frc.
    assert (0 <= relevantCount dl).
    { rewrite Frc, Hrc. apply count_ratings_nonneg. }
    assert (0 <= antiRelevantCount dl).
    { rewrite Fac, Hac. apply count_ratings_nonneg. }
    destruct Hor as [Hr|Ha]; [specialize (Hrel Hr)|specialize (Hanti Ha)]; lia. }
  split; [exact Hrel|]. split; [exact Hanti|]. split; [exact Hdisc|].
  apply all_metrics_ok; auto.
  - intros Hr. specialize (Hrel Hr). lia.
  - intros Hr. specialize (Hanti Hr). lia.
  - intros Hr. specialize (Hdisc Hr). lia.
Qed.

Lemma C10_all_metrics_divisors_nonzero_witness :
  exists dl ul m e',
    DataLayerOps.init None None false (two_user_ratings 1 0) (first_rows_train 1)
      (1 # 2) (1 # 2) (1 # 2) = Ok dl /\
    UserLayerOps.init 1 dl = Ok ul /\
    EvaluatorOps.all_metrics dl (UserLayerOps.get_test_rating ul 0)
      EvaluatorOps.init = (Ok m, e').
Proof.
  destruct (DataLayerOps.init None None false (two_user_ratings 1 0)
              (first_rows_train 1) (1 # 2) (1 # 2) (1 # 2)) as [dl|x] eqn:E;
    [|vm_compute in E; discriminate].
  destruct (UserLayerOps.init 1 dl) as [ul|x] eqn:Eu;
    [|vm_compute in E; injection E as <-; vm_compute in Eu; discriminate].
  destruct (C10_all_metrics_divisors_nonzero _ _ _ _ _ _ _ _ dl [] 1 0 ul
              EvaluatorOps.init E Eu ltac:(simpl; lia))
    as (_ & _ & _ & m & e' & Hm & _).
  exists dl, ul, m, e'. auto.
Defined.

(** [restart_metrics] assigns eight of the eleven attributes. *)
Lemma restart_metrics_untouched (e : Evaluator) :
  recall_count (EvaluatorOps.restart_metrics e) = recall_count e /\
  fallout_count (EvaluatorOps.restart_metrics e) = fallout_count e /\
  discovering_count (EvaluatorOps.restart_metrics e) = discovering_count e.
Proof. repeat split. Qed.

(** C3 on the code: after one relevant outcome, restart_metrics leaves
    recall_count and discovering_count at 1, so the evaluator is not the
    freshly constructed one, and the next relevant outcome yields recall
    2/1 where a fresh evaluator yields 1/1. *)
Theorem C3_restart_metrics_keeps_hit_counts :
  exists dl ul m_fresh m_again,
    DataLayerOps.init None None false (two_user_ratings 0 1) (first_rows_train 1)
      (1 # 2) (1 # 2) (1 # 2) = Ok dl /\
    UserLayerOps.init 1 dl = Ok ul /\
    let r := UserLayerOps.get_test_rating ul 0 in
    let e1 := snd (EvaluatorOps.all_metrics dl r EvaluatorOps.init) in
    let e2 := EvaluatorOps.restart_metrics e1 in
    recall_count e2 = 1 /\ discovering_count e2 = 1 /\
    e2 <> EvaluatorOps.init /\
    fst (EvaluatorOps.all_metrics dl r EvaluatorOps.init) = Ok m_fresh /\
    fst (EvaluatorOps.all_metrics dl r e2) = Ok m_again /\
    (m_recall m_fresh == 1)%Q /\ (m_recall m_again == 2)%Q.
Proof.
  destruct (DataLayerOps.init None None false (two_user_ratings 0 1)
              (first_rows_train 1) (1 # 2) (1 # 2) (1 # 2)) as [dl|x] eqn:E;
    vm_compute in E; [|discriminate].
  injection E as <-.
  eexists. eexists. eexists. eexists.
  split; [reflexivity|]. split; [vm_compute; reflexivity|].
  cbv zeta.
  split; [reflexivity|]. split; [reflexivity|].
  split; [intros Heq; apply (f_equal recall_count) in Heq; vm_compute in Heq; discriminate|].
  split; [vm_compute; reflexivity|]. split; [vm_compute; reflexivity|].
  split; reflexivity.
Qed.

(** ** The recommendation loops *)

Section LoopCounts.
Context {T : Type} `{Strategy T}.
Variable G : nat -> rng.
(** A condition on the recommender under which the body of the loop never
    raises (in particular, the user always has an eligible item). *)
Variable Inv : BaseRecommender T -> Prop.

(** The fuel given by the entry points is never used up. *)
Lemma fixed_loop_returns (user_id : nat) (rep met : bool) (maxiter : Z)
    (fuel : nat) (i : Z) (resultsL : list rec_event) (s : BaseRecommender T) :
  (Z.to_nat (maxiter - i) < fuel)%nat ->
  Recommender.fixed_loop G fuel i maxiter user_id rep met resultsL s <> None.
Proof.
  revert i resultsL s. induction fuel as [|fuel IH]; intros i resultsL s Hf; [lia|].
  simpl. destruct (i <? maxiter) eqn:Ei; [|discriminate].
  apply Z.ltb_lt in Ei.
  destruct (Recommender.fixed_try_first G user_id rep met s) as [[e|[]] s1];
    try discriminate.
  destruct (Recommender.do_epoch_update s1) as [[[]|[]] s2]; try discriminate.
  apply IH. lia.
Qed.

Lemma fixed_loop_count (user_id : nat) (rep met : bool) (maxiter : Z) :
  (forall s, Inv s ->
     exists e s1 s2,
       Recommender.fixed_try_first G user_id rep met s = (Ok e, s1) /\
       Recommender.do_epoch_update s1 = (Ok tt, s2) /\ Inv s2) ->
  forall (fuel : nat) (i : Z) (resultsL : list rec_event) (s : BaseRecommender T),
    Inv s -> (Z.to_nat (maxiter - i) < fuel)%nat ->
    exists rows s',
      Recommender.fixed_loop G fuel i maxiter user_id rep met resultsL s
        = Some (Ok rows, s') /\
      length rows = (length resultsL + Z.to_nat (maxiter - i))%nat.
Proof.
  intros Hbody fuel. induction fuel as [|fuel IH]; intros i resultsL s Hs Hf; [lia|].
  simpl. destruct (i <? maxiter) eqn:Ei.
  - apply Z.ltb_lt in Ei.
    destruct (Hbody s Hs) as (e & s1 & s2 & -> & -> & Hs2).
    destruct (IH (i + 1) (resultsL ++ [e]) s2 Hs2 ltac:(lia)) as (rows & s' & -> & Hl).
    exists rows, s'. split; [reflexivity|].
    rewrite Hl, length_app. simpl. lia.
  - apply Z.ltb_ge in Ei. exists resultsL, s. split; [reflexivity|]. lia.
Qed.

(** Without exhaustion the single-user loop makes [maxiter - 1]
    recommendations. *)
Lemma fixed_user_loop_count (user_id : nat) (rep met : bool) (maxiter : Z)
    (s : BaseRecommender T) :
  (forall s, Inv s ->
     exists e s1 s2,
       Recommender.fixed_try_first G user_id rep met s = (Ok e, s1) /\
       Recommender.do_epoch_update s1 = (Ok tt, s2) /\ Inv s2) ->
  Inv s ->
  exists rows s',
    Recommender.fixed_user_recommendation_loop G user_id maxiter rep met s
      = Some (Ok rows, s') /\
    length rows = Z.to_nat (maxiter - 1).
Proof.
  intros Hbody Hs. unfold Recommender.fixed_user_recommendation_loop.
  destruct (fixed_loop_count user_id rep met maxiter Hbody
              (S (Z.to_nat maxiter)) 1 [] s Hs ltac:(lia)) as (rows & s' & E & Hl).
  exists rows, s'. split; [exact E|]. simpl in Hl. exact Hl.
Qed.

Lemma round_loop_count (rep : bool) (maxiter : Z) :
  (forall s, Inv s ->
     exists ep m s1 s2,
       Recommender.recommendation_round G rep true s = (Ok (ep, Some m), s1) /\
       Recommender.do_epoch_update s1 = (Ok tt, s2) /\ Inv s2) ->
  forall (fuel : nat) (i : Z) recs (mets : list (Z * metrics))
         (s : BaseRecommender T),
    Inv s -> (Z.to_nat (maxiter - i) < fuel)%nat ->
    exists recs' mets' s',
      Recommender.round_loop G fuel i maxiter rep true recs mets s
        = Some (Ok (recs', mets'), s') /\
      length mets' = (length mets + Z.to_nat (maxiter - i))%nat.
Proof.
  intros Hbody fuel. induction fuel as [|fuel IH]; intros i recs mets s Hs Hf; [lia|].
  simpl. destruct (i <? maxiter) eqn:Ei.
  - apply Z.ltb_lt in Ei.
    destruct (Hbody s Hs) as (ep & m & s1 & s2 & -> & -> & Hs2).
    destruct (IH (i + 1) (recs ++ ((fun e => (i + 1, e)) <$> ep))
                (mets ++ [(i + 1, m)]) s2 Hs2 ltac:(lia))
      as (recs' & mets' & s' & -> & Hl).
    exists recs', mets', s'. split; [reflexivity|].
    rewrite Hl, length_app. simpl. lia.
  - apply Z.ltb_ge in Ei. exists recs, mets, s. split; [reflexivity|]. lia.
Qed.

(** Without exhaustion the round loop runs [maxiter] rounds. *)
Lemma recommendation_round_loop_count (rep : bool) (maxiter : Z)
    (s : BaseRecommender T) :
  (forall s, Inv s ->
     exists ep m s1 s2,
       Recommender.recommendation_round G rep true s = (Ok (ep, Some m), s1) /\
       Recommender.do_epoch_update s1 = (Ok tt, s2) /\ Inv s2) ->
  Inv s ->
  exists recs mets s',
    Recommender.recommendation_round_loop G maxiter rep true s
      = Some (Ok (recs, mets), s') /\
    length mets = Z.to_nat maxiter.
Proof.
  intros Hbody Hs. unfold Recommender.recommendation_round_loop.
  destruct (round_loop_count rep maxiter Hbody (S (Z.to_nat maxiter)) 0 [] [] s Hs
              ltac:(lia)) as (recs & mets & s' & E & Hl).
  exists recs, mets, s'. split; [exact E|]. simpl in Hl.
  rewrite Hl. f_equal. lia.
Qed.

End LoopCounts.

(** C4 on the code: a random recommender with repetitions enabled over a
    store with one item can always recommend to user 1, yet
    fixed_user_recommendation_loop returns no row for maxiter = 1 and two
    rows for maxiter = 3, while recommendation_round_loop with
    maxiter = 1 runs its one round. *)
Theorem C4_fixed_user_loop_one_short :
  exists dl rows1 s1 rows3 s3 recs mets s',
    DataLayerOps.init None None false (two_user_ratings 0 1) (first_rows_train 1)
      (1 # 2) (1 # 2) (1 # 2) = Ok dl /\
    let s := Recommender.init dl tt in
    fst (Recommender.recommend fixed_rng 1 true s) = Ok 0%nat /\
    Recommender.fixed_user_recommendation_loop fixed_rng 1 1 true false s
      = Some (Ok rows1, s1) /\
    length rows1 = 0%nat /\
    Recommender.fixed_user_recommendation_loop fixed_rng 1 3 true false s
      = Some (Ok rows3, s3) /\
    length rows3 = 2%nat /\
    Recommender.recommendation_round_loop fixed_rng 1 true true s
      = Some (Ok (recs, mets), s') /\
    length mets = 1%nat.
Proof.
  destruct (DataLayerOps.init None None false (two_user_ratings 0 1)
              (first_rows_train 1) (1 # 2) (1 # 2) (1 # 2)) as [dl|x] eqn:E;
    vm_compute in E; [|discriminate].
  injection E as <-.
  do 8 eexists.
  split; [reflexivity|]. cbv zeta.
  split; [vm_compute; reflexivity|].
  split; [vm_compute; reflexivity|].
  split; [reflexivity|].
  split; [vm_compute; reflexivity|].
  split; [reflexivity|].
  split; [vm_compute; reflexivity|].
  reflexivity.
Qed.

(** * Further properties of the code *)

(** ** The selection policies *)

Lemma np_random_choice_where {A} (g : rng) (p : A -> bool) (a : list A) :
  np_where p a <> [] ->
  exists i x, np_random_choice g (np_where p a) = Ok i /\
              a !! i = Some x /\ p x = true.
Proof.
  intros Hne. destruct (np_random_choice_elem g _ Hne) as (i & Hi & Hel).
  apply np_where_elem in Hel as (x & Hx & Hp). eauto.
Qed.

Lemma nonempty_length {A} (l : list A) : length l <> 0%nat -> l <> [].
Proof. destruct l; simpl; congruence. Qed.

(** Where [np.max] is attained and what it bounds, for a list given by
    its length. *)
Lemma argmax_choice (g : rng) (l : list Q) :
  length l <> 0%nat ->
  exists i x,
    np_random_choice g (np_where (fun y => Qeq_bool y (np_max l)) l) = Ok i /\
    l !! i = Some x /\
    forall j y, l !! j = Some y -> (y <= x)%Q.
Proof.
  intros Hlen. destruct (np_max_spec l (nonempty_length l Hlen)) as [Hub Hne].
  destruct (np_random_choice_where g _ l Hne) as (i & x & Hi & Hx & Hm).
  apply Qeq_bool_iff in Hm.
  exists i, x. split; [exact Hi|]. split; [exact Hx|].
  intros j y Hy. rewrite Hm. eapply Hub; eauto.
Qed.

(** X1. greedy never raises on a non-empty list of estimates: it returns the
    position of an estimate that no other estimate exceeds. *)
Theorem greedy_returns_argmax (g : rng) (rewards : list Q) (n_pulls : list Z)
    (al be : list Q) (mab_epoch : Z) (eps dl : Q) :
  length rewards <> 0%nat ->
  exists i r,
    Policies.greedy g rewards n_pulls al be mab_epoch eps dl = Ok i /\
    rewards !! i = Some r /\
    forall j rj, rewards !! j = Some rj -> (rj <= r)%Q.
Proof.
  intros Hlen. unfold Policies.greedy.
  destruct (length rewards =? 0)%nat eqn:E; [apply Nat.eqb_eq in E; lia|].
  apply argmax_choice, Hlen.
Qed.

Lemma greedy_returns_argmax_witness :
  exists i r,
    Policies.greedy (fixed_rng 5) [1 # 3; 1 # 2; 1 # 2]%Q [] [] [] 1 0 0 = Ok i /\
    [1 # 3; 1 # 2; 1 # 2]%Q !! i = Some r.
Proof.
  destruct (greedy_returns_argmax (fixed_rng 5) [1 # 3; 1 # 2; 1 # 2]%Q [] [] []
              1 0 0 ltac:(simpl; lia)) as (i & r & Hi & Hr & _).
  exists i, r. auto.
Defined.

(** X2. When one estimate is strictly above all the others, greedy returns
    its position whatever the random source. *)
Theorem greedy_unique_maximum (g : rng) (rewards : list Q) (n_pulls : list Z)
    (al be : list Q) (mab_epoch : Z) (eps dl : Q) (best : nat) (r : Q) :
  rewards !! best = Some r ->
  (forall j rj, j <> best -> rewards !! j = Some rj -> (rj < r)%Q) ->
  Policies.greedy g rewards n_pulls al be mab_epoch eps dl = Ok best.
Proof.
  intros Hbest Hothers.
  assert (Hlen : length rewards <> 0%nat).
  { apply lookup_lt_Some in Hbest. lia. }
  unfold Policies.greedy.
  destruct (length rewards =? 0)%nat eqn:E; [apply Nat.eqb_eq in E; lia|].
  destruct (argmax_choice g rewards Hlen) as (i & x & Hi & Hx & Hmax).
  rewrite Hi. f_equal.
  destruct (decide (i = best)) as [->|Hne]; [reflexivity|].
  exfalso. specialize (Hothers i x Hne Hx). specialize (Hmax best r Hbest).
  eapply Qlt_not_le; eauto.
Qed.

Lemma greedy_unique_maximum_witness :
  Policies.greedy (fixed_rng 7) [1; 0]%Q [1; 1] [1; 0]%Q [0; 1]%Q 3 (1 # 5) 2
    = Ok 0%nat.
Proof.
  apply (greedy_unique_maximum (fixed_rng 7) [1; 0]%Q [1; 1] [1; 0]%Q [0; 1]%Q
           3 (1 # 5) 2 0%nat 1%Q).
  - reflexivity.
  - intros [|[|j]] rj Hj E; simpl in E; try congruence; try discriminate.
    injection E as <-. reflexivity.
Defined.

Lemma Qlt_bool_true (a b : Q) : (a < b)%Q -> Qlt_bool a b = true.
Proof.
  intros Hlt. unfold Qlt_bool. apply negb_true_iff.
  destruct (Qle_bool b a) eqn:E; [|reflexivity].
  apply Qle_bool_iff in E. exfalso. eapply Qlt_not_le; eauto.
Qed.

Lemma Qplus_one_pos (a : Q) : (0 <= a)%Q -> (0 < a + 1)%Q.
Proof.
  intros Ha. apply Qlt_le_trans with (y := (0 + 1)%Q); [reflexivity|].
  apply Qplus_le_compat; [exact Ha|apply Qle_refl].
Qed.

Lemma beta_parameters_ok (al be : list Q) :
  Forall (fun a => (0 <= a)%Q) al -> Forall (fun b => (0 <= b)%Q) be ->
  forallb (fun p : Q * Q => Qlt_bool 0 (fst p) && Qlt_bool 0 (snd p))
    (zip_with (fun a b => (a + 1, b + 1)%Q) al be) = true.
Proof.
  intros Ha. revert be. induction Ha as [|a al Pa Ha IH]; intros be Hb; [reflexivity|].
  destruct Hb as [|b be Pb Hb]; [reflexivity|]. simpl.
  rewrite (Qlt_bool_true _ _ (Qplus_one_pos a Pa)).
  rewrite (Qlt_bool_true _ _ (Qplus_one_pos b Pb)). simpl. apply IH, Hb.
Qed.

(** The draws of Thompson sampling on aligned, non-negative counters. *)
Lemma ts_draws (g : rng) (al be : list Q) :
  length al = length be ->
  Forall (fun a => (0 <= a)%Q) al -> Forall (fun b => (0 <= b)%Q) be ->
  (ab ← np_broadcast2 (fun a b => (a + 1, b + 1)%Q) al be;
   Policies.np_random_beta g ab) =
  Ok (imap (fun k p => rand_beta g k (fst p) (snd p))
        (zip_with (fun a b => (a + 1, b + 1)%Q) al be)).
Proof.
  intros Hlen Ha Hb. unfold np_broadcast2. rewrite Hlen, Nat.eqb_refl. simpl.
  unfold Policies.np_random_beta. rewrite (beta_parameters_ok al be Ha Hb).
  reflexivity.
Qed.

(** On aligned, non-negative counters Thompson sampling is the choice
    among the positions of the greatest draw. *)
Lemma ts_chooses_among_draws (g : rng) (rewards : list Q) (n_pulls : list Z)
    (al be : list Q) (mab_epoch : Z) (eps dl : Q) :
  length rewards <> 0%nat ->
  length al = length rewards -> length be = length rewards ->
  Forall (fun a => (0 <= a)%Q) al -> Forall (fun b => (0 <= b)%Q) be ->
  let draws := imap (fun k p => rand_beta g k (fst p) (snd p))
                 (zip_with (fun a b => (a + 1, b + 1)%Q) al be) in
  length draws = length rewards /\
  Policies.ts g rewards n_pulls al be mab_epoch eps dl =
    np_random_choice g (np_where (fun d => Qeq_bool d (np_max draws)) draws).
Proof.
  intros Hlen Hla Hlb Ha Hb draws. split.
  { unfold draws. rewrite length_imap, length_zip_with. lia. }
  unfold Policies.ts.
  destruct (length rewards =? 0)%nat eqn:E; [apply Nat.eqb_eq in E; lia|].
  pose proof (ts_draws g al be ltac:(lia) Ha Hb) as Hd.
  destruct (np_broadcast2 _ al be) as [ab|e]; simpl in Hd; [|discriminate].
  simpl. rewrite Hd. reflexivity.
Qed.

(** X3. Thompson sampling returns the position of a maximal draw, the draw
    of arm k being taken from Beta(alpha_k + 1, beta_k + 1). *)
Theorem ts_returns_argmax (g : rng) (rewards : list Q) (n_pulls : list Z)
    (al be : list Q) (mab_epoch : Z) (eps dl : Q) :
  length rewards <> 0%nat ->
  length al = length rewards -> length be = length rewards ->
  Forall (fun a => (0 <= a)%Q) al -> Forall (fun b => (0 <= b)%Q) be ->
  exists i a b,
    Policies.ts g rewards n_pulls al be mab_epoch eps dl = Ok i /\
    al !! i = Some a /\ be !! i = Some b /\
    forall j aj bj,
      al !! j = Some aj -> be !! j = Some bj ->
      (rand_beta g j (aj + 1) (bj + 1) <= rand_beta g i (a + 1) (b + 1))%Q.
Proof.
  intros Hlen Hla Hlb Ha Hb.
  destruct (ts_chooses_among_draws g rewards n_pulls al be mab_epoch eps dl
              Hlen Hla Hlb Ha Hb) as [Hdl ->].
  set (draws := imap _ _) in *.
  rewrite <- Hdl in Hlen. clear Hdl. rename Hlen into Hdl.
  destruct (argmax_choice g draws Hdl) as (i & x & Hi & Hx & Hmax).
  unfold draws in Hx. rewrite list_lookup_imap in Hx.
  destruct (zip_with _ al be !! i) as [[a1 b1]|] eqn:Ez; simpl in Hx; [|discriminate].
  apply lookup_zip_with_Some in Ez as (a & b & Hab & Hai & Hbi).
  injection Hab as -> ->. injection Hx as <-.
  exists i, a, b. split; [exact Hi|]. split; [exact Hai|]. split; [exact Hbi|].
  intros j aj bj Haj Hbj. apply (Hmax j).
  unfold draws. rewrite list_lookup_imap.
  assert (Hz : zip_with (fun a0 b0 => ((a0 + 1)%Q, (b0 + 1)%Q)) al be !! j
               = Some ((aj + 1)%Q, (bj + 1)%Q)).
  { apply lookup_zip_with_Some. exists aj, bj. auto. }
  rewrite Hz. reflexivity.
Qed.

Lemma ts_returns_argmax_witness :
  exists i a b,
    Policies.ts (fixed_rng 2) [0; 0]%Q [0; 0] [1; 0]%Q [0; 2]%Q 1 0 0 = Ok i /\
    [1; 0]%Q !! i = Some a /\ [0; 2]%Q !! i = Some b.
Proof.
  destruct (ts_returns_argmax (fixed_rng 2) [0; 0]%Q [0; 0] [1; 0]%Q [0; 2]%Q
              1 0 0) as (i & a & b & Hi & Ha & Hb & _).
  - simpl. lia.
  - reflexivity.
  - reflexivity.
  - repeat constructor; discriminate.
  - repeat constructor; discriminate.
  - exists i, a, b. auto.
Defined.

Lemma randint_in_range (g : rng) (n : nat) :
  n <> 0%nat -> (np_random_randint g n < n)%nat.
Proof. intros Hn. unfold np_random_randint. apply Nat.mod_upper_bound. exact Hn. Qed.

Section PolicyRange.
Context `{FL : FloatLib}.

(** ucb returns a candidate position (the part of its behaviour that the
    bandit relies on to index its arrays). *)
Lemma ucb_returns_position (g : rng) (rewards : list Q) (n_pulls : list Z)
    (al be : list Q) (mab_epoch : Z) (eps dl : Q) :
  length rewards <> 0%nat -> length n_pulls = length rewards ->
  1 <= mab_epoch -> Forall (fun n => 0 <= n) n_pulls ->
  exists i, Policies.ucb g rewards n_pulls al be mab_epoch eps dl = Ok i /\
            (i < length rewards)%nat.
Proof.
  intros Hne Hlen He Hnn. unfold Policies.ucb.
  destruct (length rewards =? 0)%nat eqn:E0; [apply Nat.eqb_eq in E0; lia|].
  destruct (np_where (Z.eqb 0) n_pulls) as [|z zs] eqn:Ez.
  - simpl length. change (0 <? 0)%nat with false. cbv iota.
    assert (Hpos : Forall (fun n => 0 < n) n_pulls).
    { apply Forall_lookup. intros j n Hj.
      pose proof (proj1 (Forall_lookup _ _) Hnn j n Hj) as Hn. simpl in Hn.
      destruct (Z.eq_dec n 0) as [->|]; [|lia].
      assert (Hel : j ∈ np_where (Z.eqb 0) n_pulls).
      { apply np_where_elem. exists 0. auto. }
      rewrite Ez in Hel. inversion Hel. }
    assert (Hd : (if Qlt_bool dl 0
                  then lg ← Policies.math_log mab_epoch;
                       Ok (1 + inject_Z mab_epoch * (lg * lg))%Q
                  else Ok dl) = Ok (ucb_delta mab_epoch dl)).
    { unfold ucb_delta. destruct (Qlt_bool dl 0); [|reflexivity].
      rewrite (math_log_ok _ He). reflexivity. }
    rewrite Hd. simpl. rewrite (math_log_ok _ He). simpl.
    rewrite (ucb_values_scores rewards n_pulls mab_epoch dl He Hlen Hpos). simpl.
    set (scores := zip_with (ucb_score mab_epoch dl) rewards n_pulls).
    assert (Hsl : length scores = length rewards).
    { unfold scores. rewrite length_zip_with. lia. }
    rewrite (np_fmax_fin scores) by (apply nonempty_length; lia).
    unfold np_where_feq, np_where. rewrite np_where_from_fmap. simpl.
    destruct (argmax_choice g scores ltac:(lia)) as (i & x & Hi & Hx & _).
    exists i. split; [exact Hi|]. rewrite <- Hsl. eapply lookup_lt_Some; eauto.
  - change (0 <? length (z :: zs))%nat with true. cbv iota.
    destruct (np_random_choice_elem g (z :: zs)) as (i & Hi & Hel); [congruence|].
    rewrite <- Ez in Hel. apply np_where_elem in Hel as (n & Hn & _).
    exists i. split; [exact Hi|]. rewrite <- Hlen. eapply lookup_lt_Some; eauto.
Qed.

(** Whatever the configured policy, on a non-empty and well-formed
    candidate set it returns a position inside the candidate vectors. *)
Lemma run_policy_in_range (p : policy_name) (g : rng)
    (rewards : list Q) (n_pulls : list Z) (al be : list Q) (mab_epoch : Z)
    (eps dl : Q) :
  candidates_ok rewards n_pulls al be -> 1 <= mab_epoch ->
  exists i, MAB.run_policy p g rewards n_pulls al be mab_epoch eps dl = Ok i /\
            (i < length rewards)%nat.
Proof.
  intros (Hne & Hln & Hla & Hlb & Hnn & Ha & Hb) He.
  destruct p; simpl.
  - unfold Policies.greedy.
    destruct (length rewards =? 0)%nat eqn:E; [apply Nat.eqb_eq in E; lia|].
    destruct (argmax_choice g rewards Hne) as (i & r & Hi & Hr & _).
    exists i. split; [exact Hi|]. eapply lookup_lt_Some; eauto.
  - unfold Policies.e_greedy.
    destruct (length rewards =? 0)%nat eqn:E; [apply Nat.eqb_eq in E; lia|].
    destruct (Qlt_bool (rand_sample g) eps).
    + eexists. split; [reflexivity|]. apply randint_in_range, Hne.
    + destruct (argmax_choice g rewards Hne) as (i & r & Hi & Hr & _).
      exists i. split; [exact Hi|]. eapply lookup_lt_Some; eauto.
  - unfold Policies.random.
    destruct (length rewards =? 0)%nat eqn:E; [apply Nat.eqb_eq in E; lia|].
    eexists. split; [reflexivity|]. apply randint_in_range, Hne.
  - destruct (ts_chooses_among_draws g rewards n_pulls al be mab_epoch eps dl
                Hne Hla Hlb Ha Hb) as [Hdl ->].
    destruct (argmax_choice g _ ltac:(rewrite Hdl; exact Hne))
      as (i & x & Hi & Hx & _).
    exists i. split; [exact Hi|]. rewrite <- Hdl. eapply lookup_lt_Some; eauto.
  - apply ucb_returns_position; auto.
Qed.

(** On an empty candidate list every policy raises UnavailableArms. *)
Lemma run_policy_empty (p : policy_name) (g : rng) (n_pulls : list Z)
    (al be : list Q) (mab_epoch : Z) (eps dl : Q) :
  MAB.run_policy p g [] n_pulls al be mab_epoch eps dl = Raise UnavailableArms.
Proof. destruct p; reflexivity. Qed.

(** X4. Whatever the configured policy: on a non-empty and well-formed
    candidate set it returns a position inside the candidate vectors, and
    on an empty one it raises UnavailableArms. *)
Theorem policy_returns_candidate (p : policy_name) (g : rng)
    (rewards : list Q) (n_pulls : list Z) (al be : list Q) (mab_epoch : Z)
    (eps dl : Q) :
  (candidates_ok rewards n_pulls al be -> 1 <= mab_epoch ->
   exists i, MAB.run_policy p g rewards n_pulls al be mab_epoch eps dl = Ok i /\
             (i < length rewards)%nat) /\
  MAB.run_policy p g [] n_pulls al be mab_epoch eps dl = Raise UnavailableArms.
Proof.
  split.
  - apply run_policy_in_range.
  - apply run_policy_empty.
Qed.

End PolicyRange.

Lemma policy_returns_candidate_witness :
  exists i,
    MAB.run_policy (FL := coarse_floatlib) UCB (fixed_rng 1)
      [1 # 2; 0]%Q [3; 1] [1; 0]%Q [1; 1]%Q 5 (1 # 5) 2 = Ok i /\
    (i < 2)%nat.
Proof.
  apply (proj1 (policy_returns_candidate (FL := coarse_floatlib) UCB (fixed_rng 1)
                  [1 # 2; 0]%Q [3; 1] [1; 0]%Q [1; 1]%Q 5 (1 # 5) 2)).
  - unfold candidates_ok. simpl.
    repeat split; try lia; repeat constructor; try lia; discriminate.
  - lia.
Defined.


(** ** The bandit across calls *)

Lemma ratio_in_unit (a b : Q) :
  (0 <= a)%Q -> (0 <= b)%Q -> (0 < a + b)%Q ->
  (0 <= a / (a + b))%Q /\ (a / (a + b) <= 1)%Q.
Proof.
  intros Ha Hb Hab. split.
  - apply Qle_shift_div_l; [exact Hab|]. rewrite Qmult_0_l. exact Ha.
  - apply Qle_shift_div_r; [exact Hab|]. rewrite Qmult_1_l.
    rewrite <- (Qplus_0_r a) at 1. apply Qplus_le_compat; [apply Qle_refl|exact Hb].
Qed.

Lemma same_config_refl (s : NaiveMAB) : same_config s s.
Proof. unfold same_config. auto 12. Qed.

Lemma same_config_trans (s1 s2 s3 : NaiveMAB) :
  same_config s1 s2 -> same_config s2 s3 -> same_config s1 s3.
Proof. unfold same_config. intuition congruence. Qed.

Lemma record_pull_config (i : nat) (s : NaiveMAB) :
  same_config s (snd (MAB.record_pull i s)).
Proof.
  destruct (record_pull_cases i s) as [(n & Hn & ->)|[_ ->]];
    [|apply same_config_refl].
  unfold same_config. simpl. rewrite length_insert. auto 12.
Qed.

Lemma incr_alpha_config (i : nat) (s : NaiveMAB) :
  same_config s (snd (MAB.incr_alpha i s)).
Proof.
  unfold MAB.incr_alpha, np_get. se_unfold.
  destruct (alphas s !! i); simpl; [|apply same_config_refl].
  unfold same_config. simpl. rewrite length_insert. auto 12.
Qed.

Lemma incr_beta_config (i : nat) (s : NaiveMAB) :
  same_config s (snd (MAB.incr_beta i s)).
Proof.
  unfold MAB.incr_beta, np_get. se_unfold.
  destruct (betas s !! i); simpl; [|apply same_config_refl].
  unfold same_config. simpl. rewrite length_insert. auto 12.
Qed.

Lemma recompute_estimate_config (i : nat) (s : NaiveMAB) :
  same_config s (snd (MAB.recompute_estimate i s)).
Proof.
  unfold MAB.recompute_estimate, np_get, np_set. se_unfold.
  destruct (alphas s !! i); simpl; [|apply same_config_refl].
  destruct (betas s !! i); simpl; [|apply same_config_refl].
  destruct (reward_estimates s !! i); simpl; [|apply same_config_refl].
  unfold same_config. simpl. rewrite length_insert. auto 12.
Qed.

Lemma se_seq_config {A B} (m1 : SE NaiveMAB A) (m2 : SE NaiveMAB B) (s : NaiveMAB) :
  (forall s, same_config s (snd (m1 s))) ->
  (forall s, same_config s (snd (m2 s))) ->
  same_config s (snd ((m1;; m2) s)).
Proof.
  intros H1 H2. se_unfold. specialize (H1 s).
  destruct (m1 s) as [[a|e] s1]; simpl in *; auto.
  eapply same_config_trans; [exact H1|apply H2].
Qed.

Lemma update_rewards_config (i : nat) (r : pyfloat) (naf : bool) (s : NaiveMAB) :
  same_config s (snd (MAB.update_rewards i r naf s)).
Proof.
  unfold MAB.update_rewards.
  assert (Hfail : same_config s (snd ((MAB.incr_beta i;; MAB.recompute_estimate i) s))).
  { apply se_seq_config; auto using incr_beta_config, recompute_estimate_config. }
  destruct (negb (isnan r) && py_eq r 1).
  - apply se_seq_config; [apply incr_alpha_config|].
    intros s1. apply se_seq_config; [apply recompute_estimate_config|].
    intros s2. unfold same_config. simpl. auto 12.
  - destruct (negb (isnan r) && py_eq r 0); [exact Hfail|].
    destruct naf; [exact Hfail|apply same_config_refl].
Qed.

Section Config.
Context `{FL : FloatLib}.

Lemma after_config (s : NaiveMAB) (c : MAB.call) : same_config s (MAB.after s c).
Proof.
  destruct c as [g|arms g|i|i r naf|]; simpl.
  - unfold MAB.pull. se_unfold.
    destruct (MAB.run_policy _ _ _ _ _ _ _ _ _) as [j|e]; [|apply same_config_refl].
    pose proof (record_pull_config j s) as Hj.
    destruct (MAB.record_pull j s) as [[[]|e] s1]; exact Hj.
  - unfold MAB.restricted_pull. se_unfold.
    repeat (match goal with
            | |- context [np_take ?a ?b] =>
                destruct (np_take a b); [|apply same_config_refl]
            end).
    destruct (MAB.run_policy _ _ _ _ _ _ _ _ _) as [j|e]; [|apply same_config_refl].
    unfold np_get at 1. destruct (arms !! j) as [k|]; [|apply same_config_refl].
    pose proof (record_pull_config k s) as Hk.
    destruct (MAB.record_pull k s) as [[[]|e] s1]; exact Hk.
  - apply record_pull_config.
  - apply update_rewards_config.
  - unfold same_config. simpl. rewrite !length_replicate. auto 12.
Qed.

Lemma after_calls_config (s : NaiveMAB) (cs : list MAB.call) :
  same_config s (after_calls s cs).
Proof.
  unfold after_calls. revert s. induction cs as [|c cs IH]; intros s; simpl.
  - apply same_config_refl.
  - eapply same_config_trans; [apply after_config|apply IH].
Qed.

(** X5. reset_bandit brings the bandit back to the state its constructor
    returned, whatever calls were made in between. *)
Theorem reset_bandit_restores_constructed (p : policy_name) (narms : nat)
    (eps dl a0 b0 : Q) (s0 : NaiveMAB) (cs : list MAB.call) :
  MAB.init p narms eps dl a0 b0 = Ok s0 ->
  MAB.reset_bandit (after_calls s0 cs) = (Ok tt, s0).
Proof.
  intros Hinit.
  destruct (after_calls_config s0 cs)
    as (Hp & Ha0 & Hb0 & He0 & Heps & Hdl & Ln & La & Lb & Le).
  unfold MAB.init in Hinit. destruct (negb _); [discriminate|].
  inversion Hinit; subst; clear Hinit. simpl in *.
  rewrite !length_replicate in *.
  unfold MAB.reset_bandit, se_modify.
  rewrite Hp, Ha0, Hb0, He0, Heps, Hdl, Ln, La, Lb, Le. reflexivity.
Qed.

End Config.

Lemma reset_bandit_restores_constructed_witness :
  MAB.reset_bandit
    (after_calls (FL := coarse_floatlib) fresh_greedy_2
       [MAB.CallPull (fixed_rng 1); MAB.CallUpdateRewards 1 (Fin 1) true])
  = (Ok tt, fresh_greedy_2).
Proof.
  apply (reset_bandit_restores_constructed (FL := coarse_floatlib)
           Greedy 2 (1 # 5) 2 0 0).
  reflexivity.
Defined.

Lemma sum_nonneg (l : list Z) :
  Forall (fun n => 0 <= n) l -> 0 <= foldr Z.add 0 l.
Proof. induction 1; simpl; lia. Qed.

Lemma prior_estimate_unit (a0 b0 : Q) :
  (0 <= a0)%Q -> (0 <= b0)%Q ->
  let e := if Qeq_bool a0 0 then 0%Q else (a0 / (a0 + b0))%Q in
  (0 <= e)%Q /\ (e <= 1)%Q.
Proof.
  intros Ha Hb. destruct (Qeq_bool a0 0) eqn:E; cbv zeta.
  - split; discriminate.
  - apply ratio_in_unit; auto.
    assert (Hpos : (0 < a0)%Q).
    { apply Qle_lteq in Ha as [Hlt|Heq]; [exact Hlt|].
      symmetry in Heq. apply Qeq_bool_iff in Heq. congruence. }
    rewrite <- (Qplus_0_r 0). apply Qplus_lt_le_compat; assumption.
Qed.

Lemma prior_estimate_ratio (a0 b0 : Q) :
  (0 < a0 + b0)%Q ->
  ((if Qeq_bool a0 0 then 0 else a0 / (a0 + b0)) == a0 / (a0 + b0))%Q.
Proof.
  intros Hpos. destruct (Qeq_bool a0 0) eqn:E; [|reflexivity].
  apply Qeq_bool_iff in E. rewrite E. unfold Qdiv. rewrite Qmult_0_l. reflexivity.
Qed.

(** The invariant on a bandit whose arrays are all [replicate]s of the
    priors (after the constructor and after a reset). *)
Lemma replicated_inv (p : policy_name) (n : nat) (eps dl a0 b0 : Q) :
  (0 <= a0)%Q -> (0 <= b0)%Q ->
  bandit_inv
    {| policy := p; num_pulls := replicate n 0;
       alphas := replicate n a0; alpha0 := a0;
       betas := replicate n b0; beta0 := b0;
       init_estimate := if Qeq_bool a0 0 then 0%Q else (a0 / (a0 + b0))%Q;
       reward_estimates :=
         replicate n (if Qeq_bool a0 0 then 0%Q else (a0 / (a0 + b0))%Q);
       epsilon := eps; delta := dl; totalrewards := 0%Q; t := 1 |}.
Proof.
  intros Ha Hb. unfold bandit_inv, well_formed, MAB.aligned, pull_inv,
    MAB.sum_pulls, estimates_are_ratios. simpl.
  rewrite !length_replicate, sum_replicate_zero.
  repeat split; auto using Forall_replicate_nonneg.
  - apply Forall_replicate. lia.
  - apply Forall_replicate. apply prior_estimate_unit; auto.
  - intros i a b e Hai Hbi Hei Hpos.
    apply lookup_replicate in Hai as [-> _].
    apply lookup_replicate in Hbi as [-> _].
    apply lookup_replicate in Hei as [-> _].
    apply prior_estimate_ratio, Hpos.
Qed.

Lemma init_bandit_inv p narms eps dl a0 b0 s :
  MAB.init p narms eps dl a0 b0 = Ok s -> bandit_inv s.
Proof.
  unfold MAB.init.
  destruct (Qle_bool 0 a0) eqn:Ea; destruct (Qle_bool 0 b0) eqn:Eb;
    simpl; try discriminate.
  apply Qle_bool_iff in Ea, Eb.
  intros E; inversion E; subst; clear E. apply replicated_inv; auto.
Qed.

Lemma record_pull_bandit_inv (i : nat) (s : NaiveMAB) :
  bandit_inv s -> bandit_inv (snd (MAB.record_pull i s)).
Proof.
  intros (Hwf & Hnn & Hpi & Hu & Hr & Hie).
  pose proof (record_pull_wf i s Hwf) as Hwf'.
  pose proof (record_pull_inv i s Hpi) as Hpi'.
  destruct (record_pull_cases i s) as [(n & Hn & E)|[_ E]]; rewrite E in *; simpl in *.
  - split; [exact Hwf'|]. split; [|split; [exact Hpi'|auto]].
    apply Forall_insert; [exact Hnn|].
    pose proof (proj1 (Forall_lookup _ _) Hnn i n Hn). simpl in *. lia.
  - unfold bandit_inv. auto 10.
Qed.

(** The two updates keep the estimates in the unit interval and equal to
    the success ratios. *)
Lemma after_success_bandit_inv (s : NaiveMAB) (i : nat) (a b e : Q) :
  alphas s !! i = Some a -> betas s !! i = Some b ->
  reward_estimates s !! i = Some e ->
  bandit_inv s -> bandit_inv (after_success s i a b).
Proof.
  intros Ha Hb He (Hwf & Hnn & Hpi & Hu & Hr & Hie).
  destruct Hwf as ((La & Lb & Le & Fa & Fb) & Pa & Pb).
  assert (Pa1 : (0 <= a)%Q) by (eapply (proj1 (Forall_lookup _ _) Fa); eauto).
  assert (Pb1 : (0 <= b)%Q) by (eapply (proj1 (Forall_lookup _ _) Fb); eauto).
  assert (Hpos : (0 < (a + 1) + b)%Q).
  { apply Qlt_le_trans with (y := (0 + 1 + 0)%Q); [reflexivity|].
    repeat apply Qplus_le_compat; auto; apply Qle_refl. }
  unfold bandit_inv, well_formed, MAB.aligned, pull_inv, MAB.sum_pulls,
    estimates_are_ratios, after_success in *. simpl.
  rewrite !length_insert.
  repeat split; auto.
  - apply Forall_insert; [exact Fa|]. apply Qplus_one_nonneg, Pa1.
  - apply Forall_insert; [exact Hu|].
    apply ratio_in_unit; auto. apply Qplus_one_nonneg, Pa1.
  - intros j aj bj ej Haj Hbj Hej Hp.
    destruct (decide (i = j)) as [<-|Hne].
    + rewrite list_lookup_insert_eq in Haj by (eapply lookup_lt_Some; eauto).
      rewrite list_lookup_insert_eq in Hej by (eapply lookup_lt_Some; eauto).
      rewrite Hb in Hbj.
      injection Haj as <-. injection Hbj as <-. injection Hej as <-. reflexivity.
    + rewrite list_lookup_insert_ne in Haj by exact Hne.
      rewrite list_lookup_insert_ne in Hej by exact Hne.
      eapply Hr; eauto.
Qed.

Lemma after_failure_bandit_inv (s : NaiveMAB) (i : nat) (a b e : Q) :
  alphas s !! i = Some a -> betas s !! i = Some b ->
  reward_estimates s !! i = Some e ->
  bandit_inv s -> bandit_inv (after_failure s i a b).
Proof.
  intros Ha Hb He (Hwf & Hnn & Hpi & Hu & Hr & Hie).
  destruct Hwf as ((La & Lb & Le & Fa & Fb) & Pa & Pb).
  assert (Pa1 : (0 <= a)%Q) by (eapply (proj1 (Forall_lookup _ _) Fa); eauto).
  assert (Pb1 : (0 <= b)%Q) by (eapply (proj1 (Forall_lookup _ _) Fb); eauto).
  assert (Hpos : (0 < a + (b + 1))%Q).
  { apply Qlt_le_trans with (y := (0 + (0 + 1))%Q); [reflexivity|].
    repeat apply Qplus_le_compat; auto; apply Qle_refl. }
  unfold bandit_inv, well_formed, MAB.aligned, pull_inv, MAB.sum_pulls,
    estimates_are_ratios, after_failure in *. simpl.
  rewrite !length_insert.
  repeat split; auto.
  - apply Forall_insert; [exact Fb|]. apply Qplus_one_nonneg, Pb1.
  - apply Forall_insert; [exact Hu|].
    apply ratio_in_unit; auto. apply Qplus_one_nonneg, Pb1.
  - intros j aj bj ej Haj Hbj Hej Hp.
    destruct (decide (i = j)) as [<-|Hne].
    + rewrite list_lookup_insert_eq in Hbj by (eapply lookup_lt_Some; eauto).
      rewrite list_lookup_insert_eq in Hej by (eapply lookup_lt_Some; eauto).
      rewrite Ha in Haj.
      injection Haj as <-. injection Hbj as <-. injection Hej as <-. reflexivity.
    + rewrite list_lookup_insert_ne in Hbj by exact Hne.
      rewrite list_lookup_insert_ne in Hej by exact Hne.
      eapply Hr; eauto.
Qed.

(** On an arm outside the arrays every branch raises before writing. *)
Lemma update_rewards_out_of_range (i : nat) (r : pyfloat) (naf : bool)
    (s : NaiveMAB) :
  alphas s !! i = None -> betas s !! i = None ->
  snd (MAB.update_rewards i r naf s) = s.
Proof.
  intros Ha Hb. unfold MAB.update_rewards, MAB.incr_alpha, MAB.incr_beta, np_get.
  se_unfold.
  destruct (negb (isnan r) && py_eq r 1); [rewrite Ha; reflexivity|].
  destruct (negb (isnan r) && py_eq r 0); [rewrite Hb; reflexivity|].
  destruct naf; [rewrite Hb|]; reflexivity.
Qed.

Lemma update_rewards_bandit_inv (i : nat) (r : pyfloat) (naf : bool)
    (s : NaiveMAB) :
  bandit_inv s -> bandit_inv (snd (MAB.update_rewards i r naf s)).
Proof.
  intros Hs.
  pose proof Hs as (((La & Lb & Le & _) & _) & _).
  destruct (alphas s !! i) as [a|] eqn:Ea.
  - assert (Hi : (i < length (num_pulls s))%nat).
    { rewrite <- La. eapply lookup_lt_Some; eauto. }
    destruct (lookup_lt_is_Some_2 (betas s) i) as [b Eb]; [lia|].
    destruct (lookup_lt_is_Some_2 (reward_estimates s) i) as [e Ee]; [lia|].
    unfold MAB.update_rewards.
    destruct (negb (isnan r) && py_eq r 1).
    + rewrite (success_run s i a b e Ea Eb Ee). simpl.
      apply (after_success_bandit_inv s i a b e); auto.
    + assert (Hf : bandit_inv (snd ((MAB.incr_beta i;; MAB.recompute_estimate i) s))).
      { rewrite (failure_run s i a b e Ea Eb Ee). simpl.
        apply (after_failure_bandit_inv s i a b e); auto. }
      destruct (negb (isnan r) && py_eq r 0); [exact Hf|].
      destruct naf; [exact Hf|exact Hs].
  - rewrite update_rewards_out_of_range; auto.
    apply lookup_ge_None. apply lookup_ge_None in Ea. lia.
Qed.

Section BanditInvariant.
Context `{FL : FloatLib}.

Lemma after_bandit_inv (s : NaiveMAB) (c : MAB.call) :
  bandit_inv s -> bandit_inv (MAB.after s c).
Proof.
  intros Hs. destruct c as [g|arms g|i|i r naf|]; simpl.
  - unfold MAB.pull. se_unfold.
    destruct (MAB.run_policy _ _ _ _ _ _ _ _ _) as [j|e]; [|exact Hs].
    pose proof (record_pull_bandit_inv j s Hs) as Hj.
    destruct (MAB.record_pull j s) as [[[]|e] s1]; exact Hj.
  - unfold MAB.restricted_pull. se_unfold.
    repeat (match goal with
            | |- context [np_take ?a ?b] => destruct (np_take a b); [|exact Hs]
            end).
    destruct (MAB.run_policy _ _ _ _ _ _ _ _ _) as [j|e]; [|exact Hs].
    unfold np_get at 1. destruct (arms !! j) as [k|]; [|exact Hs].
    pose proof (record_pull_bandit_inv k s Hs) as Hk.
    destruct (MAB.record_pull k s) as [[[]|e] s1]; exact Hk.
  - apply record_pull_bandit_inv, Hs.
  - apply update_rewards_bandit_inv, Hs.
  - destruct Hs as (((La & Lb & Le & _) & Pa & Pb) & _ & _ & _ & _ & Hie).
    rewrite La, Lb, Le, Hie.
    apply (replicated_inv (policy s) (length (num_pulls s)) (epsilon s) (delta s)
             (alpha0 s) (beta0 s) Pa Pb).
Qed.

Lemma reachable_bandit_inv (v : MAB.variant) (s : NaiveMAB) :
  MAB.reachable v s -> bandit_inv s.
Proof.
  induction 1 as [p narms eps dl a0 b0 s E|s c _ IH _].
  - apply (init_bandit_inv _ _ _ _ _ _ _ E).
  - apply after_bandit_inv, IH.
Qed.

(** X6. In every reachable state, each estimate lies between 0 and 1, and for
    an arm with a positive counter it is alpha/(alpha+beta). *)
Theorem reachable_estimates_are_ratios (v : MAB.variant) (s : NaiveMAB) :
  MAB.reachable v s ->
  Forall (fun e => (0 <= e)%Q /\ (e <= 1)%Q) (reward_estimates s) /\
  (forall i a b e,
     alphas s !! i = Some a -> betas s !! i = Some b ->
     reward_estimates s !! i = Some e ->
     (0 < a + b)%Q -> (e == a / (a + b))%Q).
Proof.
  intros Hr. destruct (reachable_bandit_inv v s Hr) as (_ & _ & _ & Hu & Hrt & _).
  split; [exact Hu|exact Hrt].
Qed.

End BanditInvariant.

(** Fancy indexing with positions inside the array. *)
Lemma np_take_in_range {A} (a : list A) (idxs : list nat) :
  Forall (fun i => (i < length a)%nat) idxs ->
  exists l, np_take a idxs = Ok l /\ length l = length idxs /\
            forall k x, l !! k = Some x ->
                        exists i, idxs !! k = Some i /\ a !! i = Some x.
Proof.
  induction 1 as [|i idxs Hi _ (l & El & Ll & Hl)]; simpl.
  - exists []. repeat split. intros k x E. discriminate.
  - unfold np_get. destruct (lookup_lt_is_Some_2 a i Hi) as [x Hx].
    rewrite Hx. simpl. rewrite El. simpl.
    exists (x :: l). split; [reflexivity|]. split; [simpl; lia|].
    intros [|k] y Hy; simpl in *.
    + injection Hy as <-. eauto.
    + apply Hl, Hy.
Qed.

Lemma np_take_Forall {A} (P : A -> Prop) (a l : list A) (idxs : list nat) :
  Forall P a ->
  (forall k x, l !! k = Some x -> exists i, idxs !! k = Some i /\ a !! i = Some x) ->
  Forall P l.
Proof.
  intros Ha Hl. apply Forall_lookup. intros k x Hx.
  destruct (Hl k x Hx) as (i & _ & Hi).
  eapply (proj1 (Forall_lookup _ _) Ha); eauto.
Qed.

Lemma bandit_inv_epoch (s : NaiveMAB) : bandit_inv s -> 1 <= t s.
Proof.
  intros (_ & Hnn & Hpi & _). unfold pull_inv, MAB.sum_pulls in Hpi.
  pose proof (sum_nonneg _ Hnn). lia.
Qed.

Section PullTotal.
Context `{FL : FloatLib}.

(** The pull of the base class on a bandit that keeps its invariant and
    has an arm. *)
Lemma pull_ok (s : NaiveMAB) (g : rng) :
  bandit_inv s -> length (num_pulls s) <> 0%nat ->
  exists i n,
    MAB.pull g s =
      (Ok i, set_t (set_num_pulls s (<[i := n + 1]> (num_pulls s))) (t s + 1)) /\
    num_pulls s !! i = Some n.
Proof.
  intros Hs Hne. pose proof (bandit_inv_epoch s Hs) as Ht.
  destruct Hs as (((La & Lb & Le & Fa & Fb) & _) & Hnn & _).
  destruct (run_policy_in_range (policy s) g (reward_estimates s)
              (num_pulls s) (alphas s) (betas s) (t s) (epsilon s) (delta s))
    as (i & Hi & Hlt).
  { unfold candidates_ok. repeat split; auto; lia. }
  { exact Ht. }
  rewrite Le in Hlt.
  unfold MAB.pull. se_unfold. rewrite Hi.
  destruct (record_pull_cases i s) as [(n & Hn & ->)|[Hn _]].
  - exists i, n. split; [reflexivity|exact Hn].
  - apply lookup_ge_None in Hn. lia.
Qed.

(** The restricted pull on a bandit that keeps its invariant. *)
Lemma restricted_pull_ok (s : NaiveMAB) (available_arms : list nat) (g : rng) :
  bandit_inv s -> available_arms <> [] ->
  Forall (fun i => (i < length (num_pulls s))%nat) available_arms ->
  exists fake armidx n,
    MAB.restricted_pull available_arms g s =
      (Ok (fake, armidx),
       set_t (set_num_pulls s (<[armidx := n + 1]> (num_pulls s))) (t s + 1)) /\
    available_arms !! fake = Some armidx /\
    num_pulls s !! armidx = Some n.
Proof.
  intros Hs Hne Hin.
  pose proof (bandit_inv_epoch s Hs) as Ht.
  destruct Hs as (((La & Lb & Le & Fa & Fb) & _) & Hnn & _).
  destruct (np_take_in_range (reward_estimates s) available_arms)
    as (rs & Ers & Lrs & _); [rewrite Le; exact Hin|].
  destruct (np_take_in_range (alphas s) available_arms)
    as (als & Eal & Lal & Hal); [rewrite La; exact Hin|].
  destruct (np_take_in_range (betas s) available_arms)
    as (bes & Ebe & Lbe & Hbe); [rewrite Lb; exact Hin|].
  destruct (np_take_in_range (num_pulls s) available_arms)
    as (ns & Ens & Lns & Hns); [exact Hin|].
  assert (Hlen : length available_arms <> 0%nat).
  { destruct available_arms; simpl; congruence. }
  destruct (run_policy_in_range (policy s) g rs ns als bes (t s)
              (epsilon s) (delta s)) as (fake & Hf & Hlt).
  { unfold candidates_ok. repeat split; try lia.
    - eapply np_take_Forall; [exact Hnn|exact Hns].
    - eapply np_take_Forall; [exact Fa|exact Hal].
    - eapply np_take_Forall; [exact Fb|exact Hbe]. }
  { exact Ht. }
  destruct (lookup_lt_is_Some_2 available_arms fake) as [armidx Harm]; [lia|].
  pose proof (proj1 (Forall_lookup _ _) Hin fake armidx Harm) as Hai. simpl in Hai.
  unfold MAB.restricted_pull. se_unfold.
  rewrite Ers, Eal, Ebe, Ens, Hf. unfold np_get at 1. rewrite Harm.
  destruct (record_pull_cases armidx s) as [(n & Hn & ->)|[Hn _]].
  - exists fake, armidx, n. repeat split; auto.
  - apply lookup_ge_None in Hn. lia.
Qed.

(** X7. On a bandit with at least one arm, pull never raises: it returns the
    index of one of the arms. *)
Theorem pull_returns_an_arm (v : MAB.variant) (s : NaiveMAB) (g : rng) :
  MAB.reachable v s -> length (num_pulls s) <> 0%nat ->
  exists i s', MAB.pull g s = (Ok i, s') /\ (i < length (num_pulls s))%nat.
Proof.
  intros Hr Hne. pose proof (reachable_bandit_inv v s Hr) as Hs.
  pose proof (bandit_inv_epoch s Hs) as Ht.
  destruct Hs as (((La & Lb & Le & Fa & Fb) & _) & Hnn & _).
  destruct (run_policy_in_range (policy s) g (reward_estimates s)
              (num_pulls s) (alphas s) (betas s) (t s) (epsilon s) (delta s))
    as (i & Hi & Hlt).
  { unfold candidates_ok. repeat split; auto; lia. }
  { exact Ht. }
  rewrite Le in Hlt.
  unfold MAB.pull. se_unfold. rewrite Hi.
  destruct (record_pull_cases i s) as [(n & Hn & ->)|[Hn _]].
  - eexists. eexists. split; [reflexivity|exact Hlt].
  - apply lookup_ge_None in Hn. lia.
Qed.

(** X8. With a non-empty list of available arms, all of them arms of the
    bandit, the restricted pull never raises: it returns a position in
    the list together with the arm found there. *)
Theorem restricted_pull_returns_available (v : MAB.variant) (s : NaiveMAB)
    (available_arms : list nat) (g : rng) :
  MAB.reachable v s -> available_arms <> [] ->
  Forall (fun i => (i < length (num_pulls s))%nat) available_arms ->
  exists fake armidx s',
    MAB.restricted_pull available_arms g s = (Ok (fake, armidx), s') /\
    available_arms !! fake = Some armidx /\
    (armidx < length (num_pulls s))%nat.
Proof.
  intros Hr Hne Hin. pose proof (reachable_bandit_inv v s Hr) as Hs.
  pose proof (bandit_inv_epoch s Hs) as Ht.
  destruct Hs as (((La & Lb & Le & Fa & Fb) & _) & Hnn & _).
  destruct (np_take_in_range (reward_estimates s) available_arms)
    as (rs & Ers & Lrs & _); [rewrite Le; exact Hin|].
  destruct (np_take_in_range (alphas s) available_arms)
    as (als & Eal & Lal & Hal); [rewrite La; exact Hin|].
  destruct (np_take_in_range (betas s) available_arms)
    as (bes & Ebe & Lbe & Hbe); [rewrite Lb; exact Hin|].
  destruct (np_take_in_range (num_pulls s) available_arms)
    as (ns & Ens & Lns & Hns); [exact Hin|].
  assert (Hlen : length available_arms <> 0%nat).
  { destruct available_arms; simpl; congruence. }
  destruct (run_policy_in_range (policy s) g rs ns als bes (t s)
              (epsilon s) (delta s)) as (fake & Hf & Hlt).
  { unfold candidates_ok. repeat split; try lia.
    - eapply np_take_Forall; [exact Hnn|exact Hns].
    - eapply np_take_Forall; [exact Fa|exact Hal].
    - eapply np_take_Forall; [exact Fb|exact Hbe]. }
  { exact Ht. }
  destruct (lookup_lt_is_Some_2 available_arms fake) as [armidx Harm]; [lia|].
  pose proof (proj1 (Forall_lookup _ _) Hin fake armidx Harm) as Hai. simpl in Hai.
  unfold MAB.restricted_pull. se_unfold.
  rewrite Ers, Eal, Ebe, Ens, Hf. unfold np_get at 1. rewrite Harm.
  destruct (record_pull_cases armidx s) as [(n & Hn & ->)|[Hn _]].
  - exists fake, armidx. eexists. repeat split; auto.
  - apply lookup_ge_None in Hn. lia.
Qed.

(** X9. A pull of either class, or a pull_fixed_arm, that raises leaves the
    bandit exactly as it was; with no available arm the restricted pull
    raises UnavailableArms under every policy. *)
Theorem failed_pull_changes_nothing (s : NaiveMAB) (g : rng) :
  (forall e s', MAB.pull g s = (Raise e, s') -> s' = s) /\
  (forall arms e s', MAB.restricted_pull arms g s = (Raise e, s') -> s' = s) /\
  (forall i e s', MAB.pull_fixed_arm i s = (Raise e, s') -> s' = s) /\
  MAB.restricted_pull [] g s = (Raise UnavailableArms, s).
Proof.
  assert (Hrec : forall i e s', MAB.record_pull i s = (Raise e, s') -> s' = s).
  { intros i e s'. destruct (record_pull_cases i s) as [(n & _ & ->)|[_ ->]];
      intros E; inversion E; reflexivity. }
  split; [|split; [|split]].
  - intros e s'. unfold MAB.pull. se_unfold.
    destruct (MAB.run_policy _ _ _ _ _ _ _ _ _) as [j|x];
      [|intros E; inversion E; reflexivity].
    destruct (MAB.record_pull j s) as [[[]|x] s1] eqn:Er; [discriminate|].
    intros E; inversion E; subst. eapply Hrec; eauto.
  - intros arms e s'. unfold MAB.restricted_pull. se_unfold.
    repeat (match goal with
            | |- context [np_take ?a ?b] =>
                destruct (np_take a b); [|intros E; inversion E; reflexivity]
            end).
    destruct (MAB.run_policy _ _ _ _ _ _ _ _ _) as [j|x];
      [|intros E; inversion E; reflexivity].
    unfold np_get at 1.
    destruct (arms !! j) as [k|]; [|intros E; inversion E; reflexivity].
    destruct (MAB.record_pull k s) as [[[]|x] s1] eqn:Er; [discriminate|].
    intros E; inversion E; subst. eapply Hrec; eauto.
  - intros i e s'. apply Hrec.
  - unfold MAB.restricted_pull. se_unfold. simpl.
    rewrite run_policy_empty. reflexivity.
Qed.

(** C5. In every state that a bandit of either class reaches from its
    constructor through pull, pull_fixed_arm, update_rewards and
    reset_bandit calls, the pull counts add up to the epoch counter minus
    one.  The epoch is 1, and every pull count 0, after construction, and
    the epoch is 1 after reset_bandit.  In such a state every pull
    returns and counts: the pull of the base class on a bandit with an
    arm, the restricted pull on a non-empty list of arms of the bandit,
    and pull_fixed_arm on an arm of the bandit each return, add one to
    the pull count of exactly the arm returned (or given) and one to the
    epoch, and keep the sum; and a call that returns has done exactly
    that. *)
Theorem C5_pull_counts_track_epoch (v : MAB.variant) (s : NaiveMAB) :
  MAB.reachable v s ->
  MAB.sum_pulls s = t s - 1
  /\ (forall p narms eps dl a0 b0 s0,
        MAB.init p narms eps dl a0 b0 = Ok s0 ->
        t s0 = 1 /\ num_pulls s0 = replicate narms 0)
  /\ t (MAB.after s MAB.CallResetBandit) = 1
  /\ (forall g, length (num_pulls s) <> 0%nat ->
        exists i n s',
          MAB.pull g s = (Ok i, s') /\ num_pulls s !! i = Some n /\
          num_pulls s' = <[i := n + 1]> (num_pulls s) /\ t s' = t s + 1 /\
          MAB.sum_pulls s' = t s' - 1)
  /\ (forall arms g, arms <> [] ->
        Forall (fun i => (i < length (num_pulls s))%nat) arms ->
        exists fake i n s',
          MAB.restricted_pull arms g s = (Ok (fake, i), s') /\
          arms !! fake = Some i /\ num_pulls s !! i = Some n /\
          num_pulls s' = <[i := n + 1]> (num_pulls s) /\ t s' = t s + 1 /\
          MAB.sum_pulls s' = t s' - 1)
  /\ (forall i, (i < length (num_pulls s))%nat ->
        exists n s',
          MAB.pull_fixed_arm i s = (Ok tt, s') /\ num_pulls s !! i = Some n /\
          num_pulls s' = <[i := n + 1]> (num_pulls s) /\ t s' = t s + 1 /\
          MAB.sum_pulls s' = t s' - 1)
  /\ (forall g i s',
        MAB.pull g s = (Ok i, s') ->
        exists n, num_pulls s !! i = Some n /\
                  num_pulls s' = <[i := n + 1]> (num_pulls s) /\
                  t s' = t s + 1)
  /\ (forall arms g fake i s',
        MAB.restricted_pull arms g s = (Ok (fake, i), s') ->
        arms !! fake = Some i /\
        exists n, num_pulls s !! i = Some n /\
                  num_pulls s' = <[i := n + 1]> (num_pulls s) /\
                  t s' = t s + 1)
  /\ (forall i s',
        MAB.pull_fixed_arm i s = (Ok tt, s') ->
        exists n, num_pulls s !! i = Some n /\
                  num_pulls s' = <[i := n + 1]> (num_pulls s) /\
                  t s' = t s + 1).
Proof.
  intros Hr. pose proof (reachable_inv v s Hr) as Hinv.
  pose proof (reachable_bandit_inv v s Hr) as Hb.
  assert (Hsum : forall i n,
            num_pulls s !! i = Some n ->
            MAB.sum_pulls
              (set_t (set_num_pulls s (<[i := n + 1]> (num_pulls s))) (t s + 1))
            = t (set_t (set_num_pulls s (<[i := n + 1]> (num_pulls s))) (t s + 1)) - 1).
  { intros i n Hn. pose proof (record_pull_inv i s Hinv) as Hp.
    destruct (record_pull_cases i s) as [(n' & Hn' & E)|[Hnone _]]; [|congruence].
    rewrite E in Hp. rewrite Hn' in Hn. injection Hn as ->. exact Hp. }
  split; [exact Hinv|].
  split.
  { intros p narms eps dl a0 b0 s0 E.
    split; [apply (init_inv _ _ _ _ _ _ _ E)|].
    unfold MAB.init in E. destruct (negb _); [discriminate|].
    inversion E. reflexivity. }
  split; [reflexivity|].
  split.
  { intros g Hne. destruct (pull_ok s g Hb Hne) as (i & n & E & Hn).
    exists i, n. eexists. split; [exact E|]. split; [exact Hn|].
    split; [reflexivity|]. split; [reflexivity|]. apply Hsum, Hn. }
  split.
  { intros arms g Hne Hin.
    destruct (restricted_pull_ok s arms g Hb Hne Hin) as (fake & i & n & E & Ha & Hn).
    exists fake, i, n. eexists. split; [exact E|]. split; [exact Ha|].
    split; [exact Hn|]. split; [reflexivity|]. split; [reflexivity|].
    apply Hsum, Hn. }
  split.
  { intros i Hi. unfold MAB.pull_fixed_arm.
    destruct (record_pull_cases i s) as [(n & Hn & E)|[Hnone _]];
      [|apply lookup_ge_None in Hnone; lia].
    exists n. eexists. split; [exact E|]. split; [exact Hn|].
    split; [reflexivity|]. split; [reflexivity|]. apply Hsum, Hn. }
  split; [intros g i s'; apply pull_effect|].
  split; [intros arms g fake i s'; apply restricted_pull_effect|].
  intros i s'. apply record_pull_effect.
Qed.

End PullTotal.

Lemma C5_pull_counts_track_epoch_witness :
  exists i n s',
    MAB.pull (FL := coarse_floatlib) (fixed_rng 3) fresh_greedy_2 = (Ok i, s') /\
    num_pulls fresh_greedy_2 !! i = Some n /\
    num_pulls s' = <[i := n + 1]> (num_pulls fresh_greedy_2) /\
    t s' = t fresh_greedy_2 + 1 /\
    MAB.sum_pulls s' = t s' - 1.
Proof.
  assert (Hr : MAB.reachable (FL := coarse_floatlib) MAB.Unrestricted fresh_greedy_2).
  { eapply MAB.reach_init. exact fresh_greedy_2_init. }
  destruct (C5_pull_counts_track_epoch (FL := coarse_floatlib)
              MAB.Unrestricted fresh_greedy_2 Hr) as (_ & _ & _ & Hpull & _).
  apply (Hpull (fixed_rng 3)). discriminate.
Defined.

Lemma one_pull_reachable :
  MAB.reachable (FL := coarse_floatlib) MAB.Restricted
    (MAB.after (FL := coarse_floatlib) fresh_greedy_2
       (MAB.CallUpdateRewards 1 (Fin 1) false)).
Proof.
  apply MAB.reach_call; [|reflexivity].
  eapply MAB.reach_init. exact fresh_greedy_2_init.
Defined.

Lemma reachable_estimates_are_ratios_witness :
  Forall (fun e => (0 <= e)%Q /\ (e <= 1)%Q)
    (reward_estimates
       (MAB.after (FL := coarse_floatlib) fresh_greedy_2
          (MAB.CallUpdateRewards 1 (Fin 1) false))).
Proof.
  exact (proj1 (reachable_estimates_are_ratios (FL := coarse_floatlib)
                  MAB.Restricted _ one_pull_reachable)).
Defined.

Lemma pull_returns_an_arm_witness :
  exists i s',
    MAB.pull (FL := coarse_floatlib) (fixed_rng 4)
      (MAB.after (FL := coarse_floatlib) fresh_greedy_2
         (MAB.CallUpdateRewards 1 (Fin 1) false)) = (Ok i, s') /\
    (i < 2)%nat.
Proof.
  apply (pull_returns_an_arm (FL := coarse_floatlib) MAB.Restricted _
           (fixed_rng 4) one_pull_reachable).
  vm_compute. lia.
Defined.

Lemma restricted_pull_returns_available_witness :
  exists fake armidx s',
    MAB.restricted_pull (FL := coarse_floatlib) [1%nat] (fixed_rng 4)
      (MAB.after (FL := coarse_floatlib) fresh_greedy_2
         (MAB.CallUpdateRewards 1 (Fin 1) false)) = (Ok (fake, armidx), s') /\
    [1%nat] !! fake = Some armidx /\ (armidx < 2)%nat.
Proof.
  apply (restricted_pull_returns_available (FL := coarse_floatlib) MAB.Restricted
           _ [1%nat] (fixed_rng 4) one_pull_reachable).
  - discriminate.
  - repeat constructor; vm_compute; lia.
Defined.


(** ** The user session *)

(** X10. add_recommended_item removes the item from the eligible items and
    nothing else; removing an item that is not eligible, or removing it a
    second time, changes nothing. *)
Theorem add_recommended_item_removes (ul : UserLayer) (item_idx : nat) :
  let ul' := UserLayerOps.add_recommended_item ul item_idx in
  (item_idx ∉ available_items ul') /\
  (forall j, j <> item_idx ->
             (j ∈ available_items ul' <-> j ∈ available_items ul)) /\
  (item_idx ∉ available_items ul -> ul' = ul) /\
  UserLayerOps.add_recommended_item ul' item_idx = ul' /\
  (length (available_items ul') <= length (available_items ul))%nat /\
  all_items_ids ul' = all_items_ids ul /\ user_ratings ul' = user_ratings ul.
Proof.
  cbv zeta.
  assert (Hid : forall l : list nat,
             item_idx ∉ l -> filter (fun i => i <> item_idx) l = l).
  { induction l as [|x l IH]; intros Hn; [reflexivity|].
    apply not_elem_of_cons in Hn as [Hx Hl].
    rewrite filter_cons_True by congruence. f_equal. apply IH, Hl. }
  assert (Hnot : item_idx ∉ filter (fun i => i <> item_idx) (available_items ul)).
  { intros Hin. apply list_elem_of_filter in Hin as [Hne _]. congruence. }
  unfold UserLayerOps.add_recommended_item. simpl.
  split; [exact Hnot|].
  split.
  { intros j Hj. rewrite list_elem_of_filter. tauto. }
  split.
  { intros Hn. destruct ul; simpl in *. f_equal. apply Hid, Hn. }
  split.
  { f_equal. apply Hid, Hnot. }
  split; [apply length_filter|]. split; reflexivity.
Qed.

(** X11. The user-session constructor: it raises IndexError for an index that
    is not a user's, and otherwise the eligible items are, in increasing
    order, the items for which the training set holds no row of the
    user. *)
Theorem user_layer_init_eligible (u : nat) (dl : DataLayer) :
  ((DataLayerOps.get_n_users dl <= u)%nat ->
   UserLayerOps.init u dl = Raise IndexError) /\
  ((u < DataLayerOps.get_n_users dl)%nat ->
   exists ul,
     UserLayerOps.init u dl = Ok ul /\
     user_idx ul = u /\
     all_items_ids ul = seq 0 (DataLayerOps.get_n_items dl) /\
     available_items ul =
       filter (fun i => i ∉ DataLayerOps.get_user_initial_recommendations dl u)
         (seq 0 (DataLayerOps.get_n_items dl)) /\
     forall i,
       i ∈ available_items ul <->
       (i < DataLayerOps.get_n_items dl)%nat /\
       ~ exists row, row ∈ initial_train_set dl /\
                     row_user row = u /\ row_item row = i).
Proof.
  unfold UserLayerOps.init, DataLayerOps.get_user_id_from_index,
    DataLayerOps.get_n_users, np_get.
  split.
  - intros Hu. rewrite (proj2 (lookup_ge_None _ _) Hu). reflexivity.
  - intros Hu. destruct (lookup_lt_is_Some_2 (users dl) u Hu) as [uid Hid].
    rewrite Hid. simpl. eexists. split; [reflexivity|]. simpl.
    split; [reflexivity|]. split; [reflexivity|]. split; [reflexivity|].
    intros i. rewrite list_elem_of_filter, elem_of_seq.
    unfold DataLayerOps.get_user_initial_recommendations.
    rewrite list_elem_of_fmap. split.
    + intros [Hn Hi]. split; [lia|].
      intros (row & Hin & Hru & Hri). apply Hn. exists row. split; [auto|].
      apply list_elem_of_filter. auto.
    + intros [Hi Hn]. split; [|lia].
      intros (row & Hri & Hin). apply list_elem_of_filter in Hin as [Hru Hin].
      apply Hn. exists row. auto.
Qed.


(** ** The store: keys, indexes and the held-out ratings *)

Lemma insert_sorted_elem (x y : nat) (l : list nat) :
  y ∈ insert_sorted x l <-> y = x \/ y ∈ l.
Proof.
  induction l as [|z l IH]; simpl.
  - rewrite list_elem_of_singleton. split; [auto|intros [E|E]; [auto|inversion E]].
  - destruct (x <? z)%nat eqn:E1.
    + rewrite elem_of_cons. tauto.
    + destruct (x =? z)%nat eqn:E2.
      * apply Nat.eqb_eq in E2. subst. rewrite elem_of_cons. tauto.
      * rewrite !elem_of_cons, IH. tauto.
Qed.

Lemma insert_sorted_sorted (x : nat) (l : list nat) :
  StronglySorted lt l -> StronglySorted lt (insert_sorted x l).
Proof.
  induction 1 as [|z l Hs IH Hz]; simpl.
  - repeat constructor.
  - destruct (x <? z)%nat eqn:E1.
    + apply Nat.ltb_lt in E1. constructor; [constructor; assumption|].
      constructor; [exact E1|].
      eapply Forall_impl; [exact Hz|]. intros a Ha. simpl in *. lia.
    + destruct (x =? z)%nat eqn:E2; [constructor; assumption|].
      apply Nat.ltb_ge in E1. apply Nat.eqb_neq in E2.
      constructor; [exact IH|].
      apply Forall_forall. intros a Ha.
      apply insert_sorted_elem in Ha as [->|Ha]; [lia|].
      eapply (proj1 (Forall_forall _ _) Hz). exact Ha.
Qed.

Lemma sorted_unique_sorted (l : list nat) : StronglySorted lt (sorted_unique l).
Proof.
  unfold sorted_unique. induction l as [|x l IH]; simpl; [constructor|].
  apply insert_sorted_sorted, IH.
Qed.

Lemma sorted_unique_elem (x : nat) (l : list nat) :
  x ∈ sorted_unique l <-> x ∈ l.
Proof.
  unfold sorted_unique. induction l as [|y l IH]; simpl; [reflexivity|].
  rewrite insert_sorted_elem, elem_of_cons, IH. reflexivity.
Qed.

Lemma sorted_strictly_increasing (l : list nat) :
  StronglySorted lt l -> strictly_increasing l.
Proof.
  induction 1 as [|z l Hs IH Hz]; intros i j x y Hi Hj Hlt.
  - discriminate.
  - destruct j as [|j]; [lia|]. simpl in Hj.
    destruct i as [|i]; simpl in Hi.
    + injection Hi as <-.
      eapply (proj1 (Forall_forall _ _) Hz).
      eapply list_elem_of_lookup_2; eauto.
    + eapply (IH i j); eauto. lia.
Qed.

Lemma get_loc_from_sound (l : list nat) (k i x : nat) :
  get_loc_from k l x = Ok i ->
  exists j, i = (k + j)%nat /\ l !! j = Some x.
Proof.
  revert k. induction l as [|y l IH]; intros k; simpl; [discriminate|].
  destruct (x =? y)%nat eqn:E.
  - apply Nat.eqb_eq in E. subst. intros E; inversion E; subst.
    exists 0%nat. split; [lia|reflexivity].
  - intros Hg. destruct (IH _ Hg) as (j & -> & Hj).
    exists (S j). split; [lia|exact Hj].
Qed.

Lemma get_loc_from_complete (l : list nat) (k j x : nat) :
  strictly_increasing l -> l !! j = Some x ->
  get_loc_from k l x = Ok (k + j)%nat.
Proof.
  revert k j. induction l as [|y l IH]; intros k j Hs Hj; [discriminate|].
  simpl. destruct j as [|j]; simpl in Hj.
  - injection Hj as ->. rewrite Nat.eqb_refl. f_equal. lia.
  - assert (Hlt : (y < x)%nat).
    { apply (Hs 0%nat (S j) y x); simpl; auto; lia. }
    destruct (x =? y)%nat eqn:E; [apply Nat.eqb_eq in E; lia|].
    rewrite (IH (S k) j); [f_equal; lia| |exact Hj].
    intros a b u v Ha Hb Hab. apply (Hs (S a) (S b)); simpl; auto; lia.
Qed.

(** On a sorted index, [get_loc] and positional access are inverse. *)
Lemma get_loc_lookup (l : list nat) (i x : nat) :
  strictly_increasing l -> (get_loc l x = Ok i <-> l !! i = Some x).
Proof.
  intros Hs. unfold get_loc. split.
  - intros Hg. destruct (get_loc_from_sound _ _ _ _ Hg) as (j & -> & Hj). exact Hj.
  - intros Hi. rewrite (get_loc_from_complete l 0 i x Hs Hi). reflexivity.
Qed.

Lemma to_indexes_rows (us its : list nat) (rows rows' : list ratings_row) :
  to_indexes us its rows = Ok rows' ->
  Forall2 (fun r r' => get_loc us (row_user r) = Ok (row_user r') /\
                       get_loc its (row_item r) = Ok (row_item r') /\
                       row_record r' = row_record r) rows rows'.
Proof.
  revert rows'. induction rows as [|r rows IH]; intros rows'; simpl.
  - intros E; inversion E. constructor.
  - destruct (get_loc us (row_user r)) as [u|] eqn:Eu; [|discriminate]. simpl.
    destruct (get_loc its (row_item r)) as [i|] eqn:Ei; [|discriminate]. simpl.
    destruct (to_indexes us its rows) as [rest|]; [|discriminate]. simpl.
    intros E; inversion E; subst. constructor; [simpl; auto|]. apply IH. reflexivity.
Qed.

(** [sort_index] keeps every label and puts them in ascending order. *)
Lemma insert_label_perm (x : nat) (l : list nat) : insert_label x l ≡ₚ x :: l.
Proof.
  induction l as [|y l IH]; simpl; [reflexivity|].
  destruct (x <=? y)%nat; [reflexivity|].
  rewrite IH. apply Permutation_swap.
Qed.

Lemma sort_index_perm (l : list nat) : sort_index l ≡ₚ l.
Proof.
  unfold sort_index. induction l as [|x l IH]; simpl; [reflexivity|].
  rewrite insert_label_perm, IH. reflexivity.
Qed.

Lemma insert_label_sorted (x : nat) (l : list nat) :
  StronglySorted le l -> StronglySorted le (insert_label x l).
Proof.
  induction 1 as [|z l Hs IH Hz]; simpl.
  - repeat constructor.
  - destruct (x <=? z)%nat eqn:E.
    + apply Nat.leb_le in E. constructor; [constructor; assumption|].
      constructor; [exact E|].
      eapply Forall_impl; [exact Hz|]. intros a Ha. simpl in *. lia.
    + apply Nat.leb_gt in E. constructor; [exact IH|].
      apply Forall_forall. intros a Ha.
      rewrite insert_label_perm in Ha. apply elem_of_cons in Ha as [->|Ha]; [lia|].
      eapply (proj1 (Forall_forall _ _) Hz). exact Ha.
Qed.

Lemma sort_index_sorted (l : list nat) : StronglySorted le (sort_index l).
Proof.
  unfold sort_index. induction l as [|x l IH]; simpl; [constructor|].
  apply insert_label_sorted, IH.
Qed.

Lemma sorted_NoDup_strict (l : list nat) :
  StronglySorted le l -> NoDup l -> StronglySorted lt l.
Proof.
  induction 1 as [|z l Hs IH Hz]; intros Hnd; [constructor|].
  apply NoDup_cons in Hnd as [Hz' Hnd]. constructor; [apply IH, Hnd|].
  apply Forall_forall. intros a Ha.
  pose proof (proj1 (Forall_forall _ _) Hz a Ha) as Hle. simpl in Hle.
  destruct (decide (a = z)) as [->|Hne]; [contradiction|lia].
Qed.

Lemma strict_sorted_NoDup (l : list nat) : StronglySorted lt l -> NoDup l.
Proof.
  induction 1 as [|z l Hs IH Hz]; constructor; [|exact IH].
  intros Hin. pose proof (proj1 (Forall_forall _ _) Hz z Hin). simpl in *. lia.
Qed.

(** The ascending order of an index without repetition is strict. *)
Lemma sort_index_strict (l : list nat) : NoDup l -> StronglySorted lt (sort_index l).
Proof.
  intros Hnd. apply sorted_NoDup_strict; [apply sort_index_sorted|].
  rewrite sort_index_perm. exact Hnd.
Qed.

Lemma insert_sorted_length (x : nat) (l : list nat) :
  (length (insert_sorted x l) <= S (length l))%nat.
Proof.
  induction l as [|y l IH]; simpl; [lia|].
  destruct (x <? y)%nat; [simpl; lia|].
  destruct (x =? y)%nat; simpl; lia.
Qed.

Lemma sorted_unique_length (l : list nat) :
  (length (sorted_unique l) <= length l)%nat.
Proof.
  unfold sorted_unique. induction l as [|x l IH]; simpl; [lia|].
  pose proof (insert_sorted_length x (foldr insert_sorted [] l)). lia.
Qed.

(** The columns of the pivot of the training set, or of the empty frame. *)
Lemma training_columns_strict (train : list ratings_row) :
  StronglySorted lt
    (df_columns match train with
                | [] => empty_frame
                | _ :: _ => pivot_table train
                end).
Proof.
  destruct train; simpl; [constructor|apply sorted_unique_sorted].
Qed.

(** A constructed store holds no item key twice.  With a catalog the
    constructor has checked it; without one, the assignment of
    [range(n_items)] to the columns of the matrix has: it fails unless
    the union of line 132 is as long as the list of the columns, which
    leaves no room for a held-out item id that is repeated or has no
    column. *)
Lemma init_items_strict users_arg items_arg splitted whole_set rand
    test_proportion rel anti dl :
  DataLayerOps.init users_arg items_arg splitted whole_set rand test_proportion
    rel anti = Ok dl ->
  StronglySorted lt (items dl).
Proof.
  intros Hinit.
  destruct (init_ok_inv _ _ _ _ _ _ _ _ _ Hinit)
    as (_ & users0 & items0 & matrix1 & _ & Hi & _ & Hit & Em & _).
  rewrite Hit in *. destruct items_arg as [its|].
  - destruct Hi as (-> & Hnd & _). apply sort_index_strict, Hnd.
  - destruct Hi as [-> ->].
    set (train := DataLayerOps.select_rows false _ whole_set) in *.
    set (test_items := row_item <$> DataLayerOps.select_rows true _ whole_set) in *.
    set (cols := df_columns match train with
                            | [] => empty_frame
                            | _ :: _ => pivot_table train
                            end) in *.
    pose proof (training_columns_strict train) as Hcols. fold cols in Hcols.
    unfold reindex_matrix in Em. fold cols in Em.
    destruct (length (sorted_unique cols) =? _)%nat eqn:El; [|discriminate].
    apply Nat.eqb_eq in El. clear Em.
    unfold index_union in *.
    set (rest := fold_left (fun rest x => drop_first x rest) cols test_items) in *.
    rewrite !sort_index_perm, length_app in El.
    pose proof (sorted_unique_length cols) as Hle.
    assert (Hrest : rest = []) by (destruct rest; [reflexivity|simpl in El; lia]).
    rewrite Hrest, app_nil_r.
    apply sort_index_strict. rewrite sort_index_perm.
    apply strict_sorted_NoDup, Hcols.
Qed.

(** What the constructor fixes besides the counts: sorted indexes of
    users and items, and the two ratings tables re-indexed over them. *)
Lemma init_indexes users_arg items_arg splitted whole_set rand test_proportion
    rel anti dl :
  DataLayerOps.init users_arg items_arg splitted whole_set rand test_proportion
    rel anti = Ok dl ->
  let mask := DataLayerOps.split_mask rand test_proportion whole_set in
  StronglySorted lt (users dl) /\ StronglySorted lt (items dl) /\
  to_indexes (users dl) (items dl) (DataLayerOps.select_rows false mask whole_set)
    = Ok (initial_train_set dl) /\
  to_indexes (users dl) (items dl) (DataLayerOps.select_rows true mask whole_set)
    = Ok (test_df dl) /\
  DataLayerOps.select_rows true mask whole_set <> [].
Proof.
  intros Hinit mask.
  pose proof (init_items_strict _ _ _ _ _ _ _ _ _ Hinit) as Hitems.
  destruct (init_ok_inv _ _ _ _ _ _ _ _ _ Hinit)
    as (Hne & users0 & items0 & matrix1 & _ & _ & Hu & _ & _ & Etr & Ete & _).
  split; [rewrite Hu; apply sorted_unique_sorted|].
  split; [exact Hitems|]. auto.
Qed.

(** X12. For a constructed store, user keys and user indexes translate into
    each other without loss, and so do item keys and item indexes: the
    keys are held in strictly increasing order, and get_loc is the
    inverse of positional access. *)
Theorem keys_and_indexes_round_trip users_arg items_arg splitted whole_set rand
    test_proportion rel anti dl :
  DataLayerOps.init users_arg items_arg splitted whole_set rand test_proportion
    rel anti = Ok dl ->
  strictly_increasing (users dl) /\ strictly_increasing (items dl) /\
  (forall i key, DataLayerOps.get_user_id_from_index dl i = Ok key <->
                 get_loc (users dl) key = Ok i) /\
  (forall i key, get_item_id_from_index dl i = Ok key <->
                 get_loc (items dl) key = Ok i).
Proof.
  intros Hinit.
  destruct (init_indexes _ _ _ _ _ _ _ _ _ Hinit) as (Hu & Hi & _).
  apply sorted_strictly_increasing in Hu, Hi.
  split; [exact Hu|]. split; [exact Hi|].
  unfold DataLayerOps.get_user_id_from_index, get_item_id_from_index, np_get.
  split; intros i key.
  - rewrite (get_loc_lookup _ _ _ Hu).
    destruct (users dl !! i); split; intros E; inversion E; reflexivity.
  - rewrite (get_loc_lookup _ _ _ Hi).
    destruct (items dl !! i); split; intros E; inversion E; reflexivity.
Qed.

(** X13. The constructor re-indexes both ratings tables row by row: the k-th
    held-out (training) row of the store carries the record of the k-th
    row that the random split sent to the test (training) set, and its
    user and item indexes are valid and decode to that row's keys. *)
Theorem reindexing_is_faithful users_arg items_arg splitted whole_set rand
    test_proportion rel anti dl :
  DataLayerOps.init users_arg items_arg splitted whole_set rand test_proportion
    rel anti = Ok dl ->
  let mask := DataLayerOps.split_mask rand test_proportion whole_set in
  Forall2 (reindexed dl) (DataLayerOps.select_rows true mask whole_set)
    (test_df dl) /\
  Forall2 (reindexed dl) (DataLayerOps.select_rows false mask whole_set)
    (initial_train_set dl) /\
  Forall (fun r => (row_user r < DataLayerOps.get_n_users dl)%nat /\
                   (row_item r < DataLayerOps.get_n_items dl)%nat)
    (test_df dl ++ initial_train_set dl).
Proof.
  intros Hinit mask.
  destruct (init_indexes _ _ _ _ _ _ _ _ _ Hinit) as (Hu & Hi & Htr & Hte & _).
  fold mask in Htr, Hte.
  apply sorted_strictly_increasing in Hu, Hi.
  assert (Hre : forall rows rows',
             to_indexes (users dl) (items dl) rows = Ok rows' ->
             Forall2 (reindexed dl) rows rows' /\
             Forall (fun r => (row_user r < DataLayerOps.get_n_users dl)%nat /\
                              (row_item r < DataLayerOps.get_n_items dl)%nat) rows').
  { intros rows rows' Hto. apply to_indexes_rows in Hto.
    induction Hto as [|r r' rows rows' (Hgu & Hgi & Hrec) _ [IH1 IH2]].
    - split; constructor.
    - apply (get_loc_lookup _ _ _ Hu) in Hgu. apply (get_loc_lookup _ _ _ Hi) in Hgi.
      split; constructor; auto.
      + unfold reindexed, DataLayerOps.get_user_id_from_index,
          get_item_id_from_index, np_get. rewrite Hgu, Hgi. auto.
      + unfold DataLayerOps.get_n_users, DataLayerOps.get_n_items.
        split; eapply lookup_lt_Some; eauto. }
  destruct (Hre _ _ Hte) as [Ht1 Ht2]. destruct (Hre _ _ Htr) as [Hr1 Hr2].
  split; [exact Ht1|]. split; [exact Hr1|]. apply Forall_app. auto.
Qed.

(** The nested dictionary holds a record exactly under the user and item
    of a row of the table. *)
Lemma build_test_set_entries (rows : list ratings_row)
    (m : gmap nat (gmap nat rating_record)) :
  build_test_set rows = Ok m ->
  forall u i r,
    (exists d, m !! u = Some d /\ d !! i = Some r) <->
    (exists row, row ∈ rows /\ row_user row = u /\ row_item row = i /\
                 row_record row = r).
Proof.
  revert m. induction rows as [|row rows IH]; intros m; simpl.
  - intros E; inversion E; subst. intros u i r. split.
    + intros (d & Hd & _). rewrite lookup_empty in Hd. discriminate.
    + intros (x & Hx & _). inversion Hx.
  - destruct (build_test_set rows) as [m0|]; [|discriminate]. simpl.
    specialize (IH m0 eq_refl).
    destruct (default ∅ (m0 !! row_user row) !! row_item row) eqn:Ei; [discriminate|].
    intros E; inversion E; subst; clear E. intros u i r.
    assert (Hold : forall d, m0 !! row_user row = Some d ->
                             default ∅ (m0 !! row_user row) = d).
    { intros d ->. reflexivity. }
    split.
    + intros (d & Hd & Hr).
      destruct (decide (row_user row = u)) as [<-|Hne].
      * rewrite lookup_insert_eq in Hd. injection Hd as <-.
        destruct (decide (row_item row = i)) as [<-|Hni].
        -- rewrite lookup_insert_eq in Hr. injection Hr as <-.
           exists row. split; [apply list_elem_of_here|auto].
        -- rewrite lookup_insert_ne in Hr by exact Hni.
           destruct (m0 !! row_user row) as [d0|] eqn:Em; simpl in Hr;
             [|rewrite lookup_empty in Hr; discriminate].
           destruct (proj1 (IH (row_user row) i r)) as (x & Hx & Hrest); [eauto|].
           exists x. split; [apply list_elem_of_further, Hx|exact Hrest].
      * rewrite lookup_insert_ne in Hd by exact Hne.
        destruct (proj1 (IH u i r)) as (x & Hx & Hrest); [eauto|].
        exists x. split; [apply list_elem_of_further, Hx|exact Hrest].
    + intros (x & Hx & Hu & Hi & Hr).
      apply elem_of_cons in Hx as [->|Hx].
      * subst. eexists. rewrite lookup_insert_eq. split; [reflexivity|].
        apply lookup_insert_eq.
      * destruct (proj2 (IH u i r)) as (d & Hd & Hdr); [eauto|].
        destruct (decide (row_user row = u)) as [Heq|Hne].
        -- rewrite <- Heq in Hd. rewrite Hd in Ei. simpl in Ei.
           eexists. rewrite <- Heq, lookup_insert_eq. split; [reflexivity|].
           rewrite Hd. simpl.
           destruct (decide (row_item row = i)) as [Hei|Hni]; [congruence|].
           rewrite lookup_insert_ne by exact Hni. exact Hdr.
        -- exists d. rewrite lookup_insert_ne by exact Hne. auto.
Qed.

(** X14. The held-out lookup of a user session returns the record of the
    held-out row of that user and item when there is one, and the NaN
    sentinel when there is none; it never fails on a missing key. *)
Theorem held_out_lookup_round_trip users_arg items_arg splitted whole_set rand
    test_proportion rel anti (dl0 : DataLayer)
    (writes : list (nat * nat * pyfloat)) (u : nat) (ul : UserLayer) :
  DataLayerOps.init users_arg items_arg splitted whole_set rand test_proportion
    rel anti = Ok dl0 ->
  UserLayerOps.init u (after_writes dl0 writes) = Ok ul ->
  (forall row, row ∈ test_df dl0 -> row_user row = u ->
               UserLayerOps.get_test_rating ul (row_item row) = row_record row) /\
  (forall i,
     (~ exists row, row ∈ test_df dl0 /\ row_user row = u /\ row_item row = i) ->
     UserLayerOps.get_test_rating ul i = {| rating := NaN; known := None |}).
Proof.
  intros Hinit Hul.
  destruct (init_held_out _ _ _ _ _ _ _ _ _ Hinit) as (_ & _ & _ & _ & _ & Hb).
  destruct (after_writes_frame dl0 writes) as (_ & _ & _ & _ & _ & _ & Fts & _).
  pose proof (build_test_set_entries _ _ Hb) as Hent.
  unfold UserLayerOps.init in Hul.
  destruct (DataLayerOps.get_user_id_from_index _ u); [|discriminate]. simpl in Hul.
  injection Hul as <-.
  unfold UserLayerOps.get_test_rating, DataLayerOps.get_user_test_ratings_dict.
  simpl. rewrite Fts. split.
  - intros row Hin Hu.
    destruct (proj2 (Hent u (row_item row) (row_record row))) as (d & Hd & Hr);
      [exists row; auto|].
    rewrite Hd, Hr. reflexivity.
  - intros i Hnone.
    destruct (test_set dl0 !! u) as [d|] eqn:Ed; [|rewrite lookup_empty; reflexivity].
    destruct (d !! i) as [r|] eqn:Er; [|reflexivity].
    exfalso. apply Hnone.
    destruct (proj1 (Hent u i r)) as (row & Hin & Hu & Hi & _); [eauto|].
    exists row. auto.
Qed.

Lemma select_rows_none (keep : bool) (mask : list bool) (rows : list ratings_row) :
  Forall (fun b => b = negb keep) mask ->
  DataLayerOps.select_rows keep mask rows = [].
Proof.
  unfold DataLayerOps.select_rows. intros Hm. revert rows.
  induction Hm as [|b mask Hb _ IH]; intros [|r rows]; simpl; try reflexivity.
  rewrite filter_cons_False.
  - apply IH.
  - simpl. subst b. destruct keep; simpl; congruence.
Qed.

Lemma split_mask_all (rand : nat -> Q) (test_proportion : Q)
    (rows : list ratings_row) (b : bool) :
  (forall k, Qlt_bool (rand k) test_proportion = b) ->
  Forall (fun x => x = b) (DataLayerOps.split_mask rand test_proportion rows).
Proof.
  intros Hall. unfold DataLayerOps.split_mask.
  apply Forall_lookup. intros k x Hx. rewrite list_lookup_imap in Hx.
  destruct (rows !! k); simpl in Hx; [|discriminate].
  injection Hx as <-. apply Hall.
Qed.

(** X15. The constructor raises, and so returns no store, when the split
    leaves the test set empty (as with test_proportion = 0), and, without
    an item catalog, when it leaves the training set empty (as with the
    default test_proportion = 1). *)
Theorem degenerate_splits_fail users_arg items_arg splitted whole_set rand
    test_proportion rel anti :
  ((forall k, Qlt_bool (rand k) test_proportion = false) ->
   exists e, DataLayerOps.init users_arg items_arg splitted whole_set rand
               test_proportion rel anti = Raise e) /\
  ((forall k, Qlt_bool (rand k) test_proportion = true) -> items_arg = None ->
   exists e, DataLayerOps.init users_arg items_arg splitted whole_set rand
               test_proportion rel anti = Raise e).
Proof.
  split.
  - intros Hall. unfold DataLayerOps.init.
    destruct splitted; [eexists; reflexivity|].
    rewrite (select_rows_none true) by (apply (split_mask_all _ _ _ false), Hall).
    simpl.
    destruct users_arg as [us|]; [|eexists; reflexivity].
    destruct (is_unique us); [|eexists; reflexivity]. simpl.
    destruct items_arg as [its|]; [|eexists; reflexivity].
    destruct (is_unique its); eexists; reflexivity.
  - intros Hall ->. unfold DataLayerOps.init.
    destruct splitted; [eexists; reflexivity|].
    rewrite (select_rows_none false) by (apply (split_mask_all _ _ _ true), Hall).
    set (test_rows := DataLayerOps.select_rows true _ whole_set).
    destruct (length test_rows =? 0)%nat eqn:El.
    { destruct users_arg as [us|]; [|eexists; reflexivity].
      destruct (is_unique us); eexists; reflexivity. }
    destruct (match users_arg with
              | Some us => if is_unique us then Ok us else Raise TypeError
              | None => _ end) as [users0|]; [|eexists; reflexivity]. simpl.
    unfold reindex_matrix, index_union. simpl.
    assert (Hlen : length (sort_index (sort_index (row_item <$> test_rows)))
                   = length test_rows).
    { rewrite !sort_index_perm, length_fmap. reflexivity. }
    rewrite Hlen. destruct (length test_rows) as [|n]; [discriminate|].
    simpl. eexists. reflexivity.
Qed.

(** X16. On a constructed store set_rating and get_known_rating meet by
    row position, not by user.  For an item index of the store and a
    user index u: when u is below the number of rows of the utility
    matrix, set_rating writes the row at position u, the rating is read
    back by get_known_rating, every other cell reads as before and no
    row is added; when u is the number of rows, a row is appended and the
    rating is read back; when u is greater, the row is appended at the
    end, get_known_rating(u, i) raises IndexError and the rating is read
    at the position of the new row.  The columns stay as they are, and
    writing NaN changes nothing. *)
Theorem matrix_write_then_read users_arg items_arg splitted whole_set rand
    test_proportion rel anti dl (u i : nat) (q : Q) :
  DataLayerOps.init users_arg items_arg splitted whole_set rand test_proportion
    rel anti = Ok dl ->
  (i < DataLayerOps.get_n_items dl)%nat ->
  let n_rows := length (df_index (utility_matrix dl)) in
  let dl' := DataLayerOps.set_rating dl u i (Fin q) in
  ((u < n_rows)%nat ->
   DataLayerOps.get_known_rating dl' u i = Ok (Fin q) /\
   (forall u' i', (u', i') <> (u, i) ->
      DataLayerOps.get_known_rating dl' u' i' =
      DataLayerOps.get_known_rating dl u' i') /\
   df_index (utility_matrix dl') = df_index (utility_matrix dl)) /\
  (u = n_rows ->
   DataLayerOps.get_known_rating dl' u i = Ok (Fin q) /\
   df_index (utility_matrix dl') = df_index (utility_matrix dl) ++ [u]) /\
  ((n_rows < u)%nat ->
   DataLayerOps.get_known_rating dl' u i = Raise IndexError /\
   DataLayerOps.get_known_rating dl' n_rows i = Ok (Fin q) /\
   df_index (utility_matrix dl') = df_index (utility_matrix dl) ++ [u]) /\
  df_columns (utility_matrix dl') = df_columns (utility_matrix dl) /\
  DataLayerOps.set_rating dl u i NaN = dl.
Proof.
  intros Hinit Hi n_rows dl'.
  destruct (init_matrix_labels _ _ _ _ _ _ _ _ _ Hinit) as (n & Hrows & Hcols).
  assert (Hn : n_rows = n) by (unfold n_rows; rewrite Hrows, length_seq; reflexivity).
  assert (Hli : df_columns (utility_matrix dl) !! i = Some i).
  { rewrite Hcols. apply lookup_seq. lia. }
  assert (Hcol : df_columns (utility_matrix dl') = df_columns (utility_matrix dl)).
  { unfold dl', DataLayerOps.set_rating, df_at_set. simpl.
    rewrite (bool_decide_eq_true_2 _ (list_elem_of_lookup_2 _ _ _ Hli)). reflexivity. }
  assert (Hnew : ~ (u < n)%nat ->
            df_index (utility_matrix dl') = df_index (utility_matrix dl) ++ [u]).
  { intros Hge. unfold dl', DataLayerOps.set_rating, df_at_set. simpl.
    rewrite bool_decide_eq_false_2; [reflexivity|].
    rewrite Hrows, elem_of_seq. lia. }
  assert (Hcell : df_cells (utility_matrix dl') !! (u, i) = Some q).
  { unfold dl', DataLayerOps.set_rating, df_at_set. simpl. apply lookup_insert_eq. }
  split; [|split; [|split; [|split; [exact Hcol|reflexivity]]]].
  - intros Hu. rewrite Hn in Hu.
    assert (Hlu : df_index (utility_matrix dl) !! u = Some u).
    { rewrite Hrows. apply lookup_seq. lia. }
    assert (Hidx : df_index (utility_matrix dl') = df_index (utility_matrix dl)).
    { unfold dl', DataLayerOps.set_rating, df_at_set. simpl.
      rewrite (bool_decide_eq_true_2 _ (list_elem_of_lookup_2 _ _ _ Hlu)).
      reflexivity. }
    split; [apply set_get_on_aligned_labels; assumption|].
    split; [|exact Hidx].
    intros u' i' Hne. unfold DataLayerOps.get_known_rating, df_iat.
    rewrite Hidx, Hcol.
    destruct (df_index (utility_matrix dl) !! u') as [lu|] eqn:Eu; [|reflexivity].
    destruct (df_columns (utility_matrix dl) !! i') as [li|] eqn:Ei; [|reflexivity].
    rewrite Hrows in Eu. rewrite Hcols in Ei.
    apply lookup_seq in Eu as [-> _]. apply lookup_seq in Ei as [-> _]. simpl.
    unfold dl', DataLayerOps.set_rating, df_at_set. simpl.
    rewrite lookup_insert_ne by congruence. reflexivity.
  - intros Hu. rewrite Hn in Hu. split; [|apply Hnew; lia].
    unfold DataLayerOps.get_known_rating, df_iat.
    rewrite (Hnew ltac:(lia)), Hcol, Hli, Hrows.
    assert (Hl : (seq 0 n ++ [u]) !! u = Some u).
    { rewrite lookup_app_r by (rewrite length_seq; lia).
      rewrite length_seq. replace (u - n)%nat with 0%nat by lia. reflexivity. }
    rewrite Hl, Hcell. reflexivity.
  - intros Hu. rewrite Hn in Hu. split; [|split; [|apply Hnew; lia]].
    + unfold DataLayerOps.get_known_rating, df_iat.
      rewrite (Hnew ltac:(lia)), Hrows.
      rewrite (proj2 (lookup_ge_None _ _)); [reflexivity|].
      rewrite length_app, length_seq. simpl. lia.
    + unfold DataLayerOps.get_known_rating, df_iat.
      rewrite (Hnew ltac:(lia)), Hcol, Hli, Hrows, Hn.
      assert (Hl : (seq 0 n ++ [u]) !! n = Some u).
      { rewrite lookup_app_r by (rewrite length_seq; lia).
        rewrite length_seq, Nat.sub_diag. reflexivity. }
      rewrite Hl, Hcell. reflexivity.
Qed.

Lemma matrix_write_then_read_witness :
  exists dl,
    DataLayerOps.init None None false three_users_two_items (first_rows_train 2)
      (1 # 2) (1 # 2) (1 # 2) = Ok dl /\
    DataLayerOps.get_known_rating (DataLayerOps.set_rating dl 0 1 (Fin 0)) 0 1
      = Ok (Fin 0) /\
    DataLayerOps.get_known_rating (DataLayerOps.set_rating dl 1 0 (Fin 0)) 1 0
      = Ok (Fin 0) /\
    DataLayerOps.get_known_rating (DataLayerOps.set_rating dl 2 1 (Fin 1)) 2 1
      = Raise IndexError.
Proof.
  destruct (DataLayerOps.init None None false three_users_two_items
              (first_rows_train 2) (1 # 2) (1 # 2) (1 # 2)) as [dl|e] eqn:E;
    [|vm_compute in E; discriminate].
  assert (Hrows : length (df_index (utility_matrix dl)) = 1%nat).
  { vm_compute in E. injection E as <-. reflexivity. }
  assert (Hitems : DataLayerOps.get_n_items dl = 2%nat).
  { vm_compute in E. injection E as <-. reflexivity. }
  exists dl. split; [reflexivity|]. split; [|split].
  - refine (proj1 (proj1 (matrix_write_then_read _ _ _ _ _ _ _ _ dl 0 1 0 E _) _));
      [rewrite Hitems|rewrite Hrows]; lia.
  - refine (proj1 (proj1 (proj2 (matrix_write_then_read _ _ _ _ _ _ _ _ dl 1 0 0 E _))
                     _)); [rewrite Hitems; lia|rewrite Hrows; reflexivity].
  - refine (proj1 (proj1 (proj2 (proj2
              (matrix_write_then_read _ _ _ _ _ _ _ _ dl 2 1 1 E _))) _));
      [rewrite Hitems|rewrite Hrows]; lia.
Defined.

Lemma keys_and_indexes_round_trip_witness :
  exists dl,
    DataLayerOps.init None None false three_users_two_items (first_rows_train 2)
      (1 # 2) (1 # 2) (1 # 2) = Ok dl /\
    strictly_increasing (users dl) /\ strictly_increasing (items dl) /\
    (forall i key, DataLayerOps.get_user_id_from_index dl i = Ok key <->
                   get_loc (users dl) key = Ok i) /\
    (forall i key, get_item_id_from_index dl i = Ok key <->
                   get_loc (items dl) key = Ok i).
Proof.
  destruct (DataLayerOps.init None None false three_users_two_items
              (first_rows_train 2) (1 # 2) (1 # 2) (1 # 2)) as [dl|e] eqn:E.
  - exists dl. split; [reflexivity|].
    exact (keys_and_indexes_round_trip _ _ _ _ _ _ _ _ dl E).
  - vm_compute in E. discriminate.
Defined.

Lemma reindexing_is_faithful_witness :
  exists dl,
    DataLayerOps.init None None false three_users_two_items (first_rows_train 2)
      (1 # 2) (1 # 2) (1 # 2) = Ok dl /\
    Forall2 (reindexed dl) [mk_row 20 7 0; mk_row 30 8 1] (test_df dl) /\
    Forall2 (reindexed dl) [mk_row 10 7 1; mk_row 10 8 1] (initial_train_set dl) /\
    Forall (fun r => (row_user r < DataLayerOps.get_n_users dl)%nat /\
                     (row_item r < DataLayerOps.get_n_items dl)%nat)
      (test_df dl ++ initial_train_set dl).
Proof.
  destruct (DataLayerOps.init None None false three_users_two_items
              (first_rows_train 2) (1 # 2) (1 # 2) (1 # 2)) as [dl|e] eqn:E.
  - exists dl. split; [reflexivity|].
    exact (reindexing_is_faithful _ _ _ _ _ _ _ _ dl E).
  - vm_compute in E. discriminate.
Defined.

Lemma held_out_lookup_round_trip_witness :
  exists dl ul,
    DataLayerOps.init None None false three_users_two_items (first_rows_train 2)
      (1 # 2) (1 # 2) (1 # 2) = Ok dl /\
    UserLayerOps.init 2 dl = Ok ul /\
    (forall row, row ∈ test_df dl -> row_user row = 2%nat ->
                 UserLayerOps.get_test_rating ul (row_item row) = row_record row) /\
    (forall i,
       (~ exists row, row ∈ test_df dl /\ row_user row = 2%nat /\ row_item row = i) ->
       UserLayerOps.get_test_rating ul i = {| rating := NaN; known := None |}).
Proof.
  destruct (DataLayerOps.init None None false three_users_two_items
              (first_rows_train 2) (1 # 2) (1 # 2) (1 # 2)) as [dl|e] eqn:E;
    [|vm_compute in E; discriminate].
  destruct (UserLayerOps.init 2 dl) as [ul|x] eqn:Eu;
    [|vm_compute in E; injection E as <-; vm_compute in Eu; discriminate].
  exists dl, ul. split; [reflexivity|]. split; [exact Eu|].
  exact (held_out_lookup_round_trip _ _ _ _ _ _ _ _ dl [] 2 ul E Eu).
Defined.


(** ** The evaluator, call by call *)

(** X17. What one returning call of all_metrics does: the iteration counter
    grows by one; a relevant outcome adds one to the recall and precision
    counts, an antirelevant one to the fallout and antiprecision counts,
    either of them one to the discovery count; precision and
    antiprecision are recomputed over the new iteration counter, while
    recall, fallout and discovery rate are recomputed only on a hit and
    otherwise keep their value.  The returned values are the stored
    ones. *)
Theorem all_metrics_effect (dl : DataLayer) (r : rating_record)
    (e e' : Evaluator) (m : metrics) :
  EvaluatorOps.all_metrics dl r e = (Ok m, e') ->
  let rel := DataLayerOps.isRelevant dl r in
  let anti := DataLayerOps.isAntiRelevant dl r in
  n_iters e' = n_iters e + 1 /\
  recall_count e' = recall_count e + Z.b2z rel /\
  precision_count e' = precision_count e + Z.b2z rel /\
  fallout_count e' = fallout_count e + Z.b2z anti /\
  antiprecision_count e' = antiprecision_count e + Z.b2z anti /\
  discovering_count e' = discovering_count e + Z.b2z (rel || anti) /\
  m = EvaluatorOps.get_metrics e' /\
  cum_precision_value e' = (inject_Z (precision_count e') / inject_Z (n_iters e'))%Q /\
  cum_antiprecision_value e' =
    (inject_Z (antiprecision_count e') / inject_Z (n_iters e'))%Q /\
  cum_recall_value e' =
    (if rel then (inject_Z (recall_count e') / inject_Z (relevantCount dl))%Q
     else cum_recall_value e) /\
  cum_fallout_value e' =
    (if anti then (inject_Z (fallout_count e') / inject_Z (antiRelevantCount dl))%Q
     else cum_fallout_value e) /\
  cum_discovering e' =
    (if rel || anti
     then (inject_Z (discovering_count e') / inject_Z (toDiscoverCount dl))%Q
     else cum_discovering e).
Proof.
  unfold EvaluatorOps.all_metrics, DataLayerOps.get_relevant_count,
    DataLayerOps.get_antirelevant_count, DataLayerOps.get_toDiscover_count.
  cbv zeta.
  destruct (DataLayerOps.isRelevant dl r);
    destruct (DataLayerOps.isAntiRelevant dl r);
    se_unfold; unfold py_div; simpl;
    repeat (match goal with
            | |- context [?b =? 0] => destruct (b =? 0); simpl
            end);
    intros E; inversion E; subst; clear E; simpl;
    repeat split; try lia.
Qed.

Lemma all_metrics_effect_witness :
  let dl := {| relevanceThreshold := 1 # 2; antiRelevanceThreshold := 1 # 2;
               initial_train_set := []; utility_matrix := empty_frame;
               test_df := []; users := []; items := [];
               relevantCount := 1; antiRelevantCount := 1; toDiscoverCount := 2;
               test_set := ∅ |} in
  let r := {| rating := Fin 1; known := None |} in
  recall_count (snd (EvaluatorOps.all_metrics dl r EvaluatorOps.init)) = 1.
Proof.
  intros dl r.
  destruct (EvaluatorOps.all_metrics dl r EvaluatorOps.init) as [[m|x] e'] eqn:E;
    [|vm_compute in E; discriminate].
  destruct (all_metrics_effect dl r EvaluatorOps.init e' m E) as (_ & Hr & _).
  simpl. rewrite Hr. reflexivity.
Defined.

(** X18. An outcome with a NaN rating (an item outside the user's held-out
    ratings) never makes all_metrics raise, whatever the counts of the
    store: it adds one iteration and recomputes precision and
    antiprecision, and nothing else changes. *)
Theorem all_metrics_unknown_outcome (dl : DataLayer) (r : rating_record)
    (e : Evaluator) :
  rating r = NaN -> 0 <= n_iters e ->
  let n := n_iters e + 1 in
  let e' :=
    set_cum_antiprecision_value (inject_Z (antiprecision_count e) / inject_Z n)%Q
      (set_cum_precision_value (inject_Z (precision_count e) / inject_Z n)%Q
         (set_n_iters n e)) in
  EvaluatorOps.all_metrics dl r e = (Ok (EvaluatorOps.get_metrics e'), e').
Proof.
  intros Hnan Hn. cbv zeta.
  unfold EvaluatorOps.all_metrics, DataLayerOps.isRelevant,
    DataLayerOps.isAntiRelevant. rewrite Hnan. simpl.
  se_unfold. unfold py_div. simpl.
  destruct (n_iters e + 1 =? 0) eqn:E; [apply Z.eqb_eq in E; lia|].
  reflexivity.
Qed.

Lemma all_metrics_unknown_outcome_witness :
  fst (EvaluatorOps.all_metrics
         {| relevanceThreshold := 3; antiRelevanceThreshold := 3;
            initial_train_set := []; utility_matrix := empty_frame;
            test_df := []; users := []; items := [];
            relevantCount := 0; antiRelevantCount := 0; toDiscoverCount := 0;
            test_set := ∅ |}
         {| rating := NaN; known := None |} EvaluatorOps.init)
  = Ok {| m_recall := 0; m_precision := 0 / 1; m_fallout := 0;
          m_antiprecision := 0 / 1; m_discovering := 0 |}.
Proof.
  rewrite (all_metrics_unknown_outcome _ {| rating := NaN; known := None |}
             EvaluatorOps.init eq_refl ltac:(simpl; lia)).
  reflexivity.
Defined.


(** ** The orchestrator: recommend and the loops *)

Section RecommendProofs.
Context {T : Type} `{Strategy T}.
Variable G : nat -> rng.

(** What a returning recommend has done. *)
Lemma recommend_returned (user_id : nat) (rep : bool)
    (s s' : BaseRecommender T) (item : nat) :
  Recommender.recommend G user_id rep s = (Ok item, s') ->
  exists ul,
    (user_layers s !! user_id = Some ul \/
     (user_layers s !! user_id = None /\
      UserLayerOps.init user_id (data_layer s) = Ok ul)) /\
    select_item ul rep (G (draws s)) (data_layer s) (strategy s)
      = (Ok item, strategy s') /\
    user_layers s' =
      <[user_id := UserLayerOps.add_recommended_item ul item]> (user_layers s) /\
    data_layer s' = data_layer s /\ evaluator s' = evaluator s /\
    target_users_list s' = target_users_list s /\
    target_users_set s' = target_users_set s /\
    draws s' = S (draws s).
Proof.
  unfold Recommender.recommend, Recommender.next_rng, se_zoom. se_unfold.
  destruct (user_layers s !! user_id) as [ul|] eqn:El.
  - simpl. rewrite El. simpl.
    destruct (select_item ul rep (G (draws s)) (data_layer s) (strategy s))
      as [[it|x] st'] eqn:Es; simpl; [|discriminate].
    intros E; inversion E; subst; clear E. exists ul. simpl.
    repeat split; auto.
  - simpl. destruct (UserLayerOps.init user_id (data_layer s)) as [ul|x] eqn:Ei;
      simpl; [|discriminate].
    rewrite lookup_insert_eq. simpl.
    destruct (select_item ul rep (G (draws s)) (data_layer s) (strategy s))
      as [[it|x] st'] eqn:Es; simpl; [|discriminate].
    intros E; inversion E; subst; clear E. exists ul. simpl.
    repeat split; auto. rewrite insert_insert_eq. reflexivity.
Qed.

(** Whatever its outcome, recommend changes the sessions of no other
    user, and never the store, the evaluator or the target users. *)
Lemma recommend_frame (user_id : nat) (rep : bool) (s : BaseRecommender T) :
  let s' := snd (Recommender.recommend G user_id rep s) in
  (forall u, u <> user_id -> user_layers s' !! u = user_layers s !! u) /\
  data_layer s' = data_layer s /\ evaluator s' = evaluator s /\
  target_users_list s' = target_users_list s /\
  target_users_set s' = target_users_set s.
Proof.
  unfold Recommender.recommend, Recommender.next_rng, se_zoom. se_unfold.
  destruct (user_layers s !! user_id) as [ul|] eqn:El; simpl.
  - rewrite El. simpl.
    destruct (select_item ul rep (G (draws s)) (data_layer s) (strategy s))
      as [[it|x] st'] eqn:Es; simpl; repeat split; auto.
    intros u Hu. rewrite lookup_insert_ne by congruence. reflexivity.
  - destruct (UserLayerOps.init user_id (data_layer s)) as [ul|x] eqn:Ei; simpl;
      [|repeat split; auto].
    rewrite lookup_insert_eq. simpl.
    destruct (select_item ul rep (G (draws s)) (data_layer s) (strategy s))
      as [[it|x] st'] eqn:Es; simpl; repeat split; auto;
      intros u Hu; rewrite ?lookup_insert_ne by congruence; reflexivity.
Qed.

(** X19. A returning recommend has asked the strategy for an item on the
    user's session, created first when the user had none, and has marked
    the returned item in that session; it touches nothing else but the
    strategy and the random source, of which it takes one draw.  Whether
    it returns or raises, it changes the session of no other user, and
    never the store, the evaluator or the target users. *)
Theorem recommend_marks_item (user_id : nat) (rep : bool)
    (s : BaseRecommender T) :
  (forall item s',
     Recommender.recommend G user_id rep s = (Ok item, s') ->
     exists ul,
       (user_layers s !! user_id = Some ul \/
        (user_layers s !! user_id = None /\
         UserLayerOps.init user_id (data_layer s) = Ok ul)) /\
       select_item ul rep (G (draws s)) (data_layer s) (strategy s)
         = (Ok item, strategy s') /\
       user_layers s' =
         <[user_id := UserLayerOps.add_recommended_item ul item]> (user_layers s) /\
       draws s' = S (draws s)) /\
  (let s' := snd (Recommender.recommend G user_id rep s) in
   (forall u, u <> user_id -> user_layers s' !! u = user_layers s !! u) /\
   data_layer s' = data_layer s /\ evaluator s' = evaluator s /\
   target_users_list s' = target_users_list s /\
   target_users_set s' = target_users_set s).
Proof.
  split.
  - intros item s' E.
    destruct (recommend_returned user_id rep s s' item E)
      as (ul & Hul & Hsel & Hl & _ & _ & _ & _ & Hd).
    exists ul. auto.
  - apply recommend_frame.
Qed.

End RecommendProofs.

Lemma user_layer_init_set_rating (u : nat) (dl : DataLayer) (a b : nat)
    (r : pyfloat) :
  UserLayerOps.init u (DataLayerOps.set_rating dl a b r) = UserLayerOps.init u dl.
Proof. destruct r; reflexivity. Qed.

Section NoRepeats.
Context {T : Type} `{Strategy T}.
Variable G : nat -> rng.

Lemma shrinks_refl (s : BaseRecommender T) : shrinks s s.
Proof. intros u x Hx. exact Hx. Qed.

Lemma shrinks_trans (s1 s2 s3 : BaseRecommender T) :
  shrinks s1 s2 -> shrinks s2 s3 -> shrinks s1 s3.
Proof. intros H12 H23 u x Hx. apply H12, H23, Hx. Qed.

(** States with the same sessions and the same session constructor. *)
Lemma shrinks_same (s s' : BaseRecommender T) :
  user_layers s' = user_layers s ->
  (forall u, UserLayerOps.init u (data_layer s') = UserLayerOps.init u (data_layer s)) ->
  shrinks s s'.
Proof.
  intros Hl Hd u x. unfold eligible_now. rewrite Hl, Hd. auto.
Qed.

Lemma next_rng_shrinks (s : BaseRecommender T) :
  shrinks s (snd (Recommender.next_rng G s)).
Proof. apply shrinks_same; reflexivity. Qed.

Lemma check_rating_shrinks (u i : nat) (s : BaseRecommender T) :
  shrinks s (snd (Recommender.check_rating u i s)).
Proof.
  unfold Recommender.check_rating. se_unfold.
  destruct (user_layers s !! u) as [ul|]; simpl; [|apply shrinks_refl].
  apply shrinks_same; [reflexivity|]. intros u'. simpl.
  apply user_layer_init_set_rating.
Qed.

Lemma rating_update_shrinks (u i : nat) (r : rating_record) (s : BaseRecommender T) :
  shrinks s (snd (Recommender.do_rating_update u i r s)).
Proof.
  unfold Recommender.do_rating_update, se_zoom. se_unfold.
  destruct (rating_update u i r (data_layer s) (strategy s)) as [x st].
  apply shrinks_same; reflexivity.
Qed.

Lemma epoch_update_shrinks (s : BaseRecommender T) :
  shrinks s (snd (Recommender.do_epoch_update s)).
Proof.
  unfold Recommender.do_epoch_update, se_zoom.
  destruct (epoch_update (strategy s)) as [x st].
  apply shrinks_same; reflexivity.
Qed.

Lemma eval_recommendation_shrinks (r : rating_record) (s : BaseRecommender T) :
  shrinks s (snd (Recommender.eval_recommendation r s)).
Proof.
  unfold Recommender.eval_recommendation, se_zoom. se_unfold.
  destruct (EvaluatorOps.all_metrics (data_layer s) r (evaluator s)) as [x ev].
  apply shrinks_same; reflexivity.
Qed.

Lemma round_except_shrinks (u rem n : nat) (met : bool) (last : option metrics)
    (s : BaseRecommender T) :
  shrinks s (snd (Recommender.round_except u rem n met last s)).
Proof.
  unfold Recommender.round_except. se_unfold. simpl.
  destruct ((rem =? 0)%nat && (n =? 0)%nat && met); apply shrinks_same; reflexivity.
Qed.

(** The eligible items of a user after a call of recommend. *)
Lemma recommend_shrinks (u : nat) (rep : bool) (s : BaseRecommender T) :
  shrinks s (snd (Recommender.recommend G u rep s)).
Proof.
  destruct (Recommender.recommend G u rep s) as [[item|x] s'] eqn:E.
  - destruct (recommend_returned G u rep s s' item E)
      as (ul & Hul & _ & Hl & Hd & _).
    simpl. intros u' x. unfold eligible_now. rewrite Hl, Hd.
    destruct (decide (u' = u)) as [->|Hne].
    + rewrite lookup_insert_eq. simpl. intros Hx.
      apply list_elem_of_filter in Hx as [_ Hx].
      destruct Hul as [->|[-> ->]]; exact Hx.
    + rewrite lookup_insert_ne by congruence. auto.
  - pose proof (recommend_frame G u rep s) as Hf. rewrite E in Hf. simpl in *.
    destruct Hf as (Hothers & Hd & _).
    intros u' y. unfold eligible_now. rewrite Hd.
    destruct (decide (u' = u)) as [->|Hne]; [|rewrite Hothers by exact Hne; auto].
    (* the session of [u] is the old one, or the fresh one *)
    revert E. unfold Recommender.recommend, Recommender.next_rng, se_zoom. se_unfold.
    destruct (user_layers s !! u) as [ul|] eqn:El; simpl.
    + rewrite El. simpl.
      destruct (select_item ul rep (G (draws s)) (data_layer s) (strategy s))
        as [[it|z] st'] eqn:Es; simpl; [discriminate|].
      intros E; inversion E; subst; simpl. rewrite El. auto.
    + destruct (UserLayerOps.init u (data_layer s)) as [ul|z] eqn:Ei; simpl.
      * rewrite lookup_insert_eq. simpl.
        destruct (select_item ul rep (G (draws s)) (data_layer s) (strategy s))
          as [[it|z] st'] eqn:Es; simpl; [discriminate|].
        intros E; inversion E; subst; simpl. rewrite lookup_insert_eq. auto.
      * intros E; inversion E; subst. rewrite El. auto.
Qed.

(** With repetitions disabled, a strategy that selects among the offered
    items returns an item that was eligible and is no longer. *)
Lemma recommend_takes_eligible (u : nat) (s s' : BaseRecommender T) (item : nat) :
  selects_offered T ->
  Recommender.recommend G u false s = (Ok item, s') ->
  item ∈ eligible_now s u /\ item ∉ eligible_now s' u.
Proof.
  intros Hsel E.
  destruct (recommend_returned G u false s s' item E)
    as (ul & Hul & Hs & Hl & _).
  apply Hsel in Hs. simpl in Hs. split.
  - unfold eligible_now. destruct Hul as [->|[-> ->]]; exact Hs.
  - unfold eligible_now. rewrite Hl, lookup_insert_eq.
    unfold UserLayerOps.add_recommended_item. simpl. intros Hin.
    apply list_elem_of_filter in Hin as [Hne _]. congruence.
Qed.

Lemma no_repeats_shrinks (evs : list rec_event) (s s' : BaseRecommender T) :
  no_repeats evs s -> shrinks s s' -> no_repeats evs s'.
Proof.
  intros [Hnd Hout] Hsh. split; [exact Hnd|].
  intros e He Hin. apply (Hout e He). apply Hsh, Hin.
Qed.

Lemma no_repeats_add (evs : list rec_event) (e : rec_event)
    (s s' : BaseRecommender T) :
  no_repeats evs s -> shrinks s s' ->
  ev_item e ∈ eligible_now s (ev_user e) ->
  ev_item e ∉ eligible_now s' (ev_user e) ->
  no_repeats (evs ++ [e]) s'.
Proof.
  intros [Hnd Hout] Hsh Hin Hnot. split.
  - unfold event_pairs. rewrite fmap_app. simpl.
    apply NoDup_app. split; [exact Hnd|]. split; [|apply NoDup_singleton].
    intros p Hp Hp'. apply list_elem_of_singleton in Hp'. subst p.
    apply list_elem_of_fmap in Hp as (e0 & Heq & He0). injection Heq as Hu Hi.
    apply (Hout e0 He0). rewrite <- Hu, <- Hi. exact Hin.
  - intros e0 He0. apply elem_of_app in He0 as [He0|He0].
    + intros Hx. apply (Hout e0 He0), Hsh, Hx.
    + apply list_elem_of_singleton in He0. subst e0. exact Hnot.
Qed.

End NoRepeats.

Section LoopsNeverRepeat.
Context {T : Type} `{Strategy T}.
Variable G : nat -> rng.
Hypothesis Hsel : selects_offered T.

Lemma served_shrinks (s0 : BaseRecommender T) (evs : list rec_event)
    (s s' : BaseRecommender T) :
  served s0 evs s -> shrinks s s' -> served s0 evs s'.
Proof.
  intros (Hn & Hs & Hf) Hsh. split; [eapply no_repeats_shrinks; eauto|].
  split; [eapply shrinks_trans; eauto|exact Hf].
Qed.

Lemma served_add (s0 : BaseRecommender T) (evs : list rec_event) (e : rec_event)
    (s s' : BaseRecommender T) :
  served s0 evs s -> shrinks s s' ->
  ev_item e ∈ eligible_now s (ev_user e) ->
  ev_item e ∉ eligible_now s' (ev_user e) ->
  served s0 (evs ++ [e]) s'.
Proof.
  intros (Hn & Hs & Hf) Hsh Hin Hout.
  split; [eapply no_repeats_add; eauto|].
  split; [eapply shrinks_trans; eauto|].
  apply Forall_app. split; [exact Hf|]. constructor; [|constructor].
  apply Hs, Hin.
Qed.

(** The first statements of a loop body: recommend, then check_rating. *)
Lemma recommend_then_check (u : nat) (s : BaseRecommender T) :
  let res := (item_id ← Recommender.recommend G u false;
              r ← Recommender.check_rating u item_id;
              mret (item_id, r)) s in
  shrinks s (snd res) /\
  forall item r, fst res = Ok (item, r) ->
                 item ∈ eligible_now s u /\ item ∉ eligible_now (snd res) u.
Proof.
  se_unfold. cbv zeta.
  pose proof (recommend_shrinks G u false s) as Hs1.
  destruct (Recommender.recommend G u false s) as [[item|x] s1] eqn:E1; simpl in *;
    [|split; [exact Hs1|discriminate]].
  destruct (recommend_takes_eligible G u s s1 item Hsel E1) as [Hin Hout].
  pose proof (check_rating_shrinks u item s1) as Hs2.
  destruct (Recommender.check_rating u item s1) as [[r|x] s2] eqn:E2; simpl in *.
  - split; [eapply shrinks_trans; eauto|].
    intros i r0 E; inversion E; subst. split; [exact Hin|].
    intros Hx. apply Hout, Hs2, Hx.
  - split; [eapply shrinks_trans; eauto|discriminate].
Qed.

Lemma fixed_try_first_step (u : nat) (met : bool) (s : BaseRecommender T) :
  let res := Recommender.fixed_try_first G u false met s in
  shrinks s (snd res) /\
  forall e, fst res = Ok e ->
            ev_user e = u /\ ev_item e ∈ eligible_now s u /\
            ev_item e ∉ eligible_now (snd res) u.
Proof.
  cbv zeta. unfold Recommender.fixed_try_first.
  pose proof (recommend_then_check u s) as Hrc. cbv zeta in Hrc. revert Hrc.
  se_unfold.
  destruct (Recommender.recommend G u false s) as [[item|x] s1]; simpl;
    [|intros [Hs _]; split; [exact Hs|discriminate]].
  destruct (Recommender.check_rating u item s1) as [[r|x] s2]; simpl;
    [|intros [Hs _]; split; [exact Hs|discriminate]].
  intros [Hs Hok]. destruct (Hok item r eq_refl) as [Hin Hout].
  pose proof (rating_update_shrinks u item r s2) as Hs3.
  destruct (Recommender.do_rating_update u item r s2) as [[[]|x] s3]; simpl in *;
    [|split; [eapply shrinks_trans; eauto|discriminate]].
  destruct met.
  - pose proof (eval_recommendation_shrinks r s3) as Hs4.
    destruct (Recommender.eval_recommendation r s3) as [[m|x] s4]; simpl in *.
    + split; [eauto using shrinks_trans|].
      intros e E; inversion E; subst; simpl.
      split; [reflexivity|split; [exact Hin|]].
      intros Hx. apply Hout, Hs3, Hs4, Hx.
    + split; [eauto using shrinks_trans|discriminate].
  - simpl. split; [eauto using shrinks_trans|].
    intros e E; inversion E; subst; simpl.
    split; [reflexivity|split; [exact Hin|]].
    intros Hx. apply Hout, Hs3, Hx.
Qed.

Lemma fixed_loop_served (u : nat) (met : bool) (maxiter : Z)
    (s0 : BaseRecommender T) :
  forall (fuel : nat) (i : Z) (resultsL : list rec_event) (s : BaseRecommender T)
         (rows : list rec_event) (s' : BaseRecommender T),
    Recommender.fixed_loop G fuel i maxiter u false met resultsL s
      = Some (Ok rows, s') ->
    served s0 resultsL s -> Forall (fun e => ev_user e = u) resultsL ->
    served s0 rows s' /\ Forall (fun e => ev_user e = u) rows.
Proof.
  induction fuel as [|fuel IH]; intros i resultsL s rows s' E Hsv Hu; [discriminate|].
  simpl in E. destruct (i <? maxiter).
  - pose proof (fixed_try_first_step u met s) as Hstep. cbv zeta in Hstep.
    destruct (Recommender.fixed_try_first G u false met s) as [[e|x] s1];
      simpl in Hstep.
    + destruct Hstep as [Hs1 Hok]. destruct (Hok e eq_refl) as (Heu & Hin & Hout).
      pose proof (epoch_update_shrinks s1) as Hs2.
      assert (Hsv1 : served s0 (resultsL ++ [e]) s1).
      { apply (served_add s0 resultsL e s s1); auto; rewrite Heu; auto. }
      assert (Hu1 : Forall (fun e => ev_user e = u) (resultsL ++ [e])).
      { apply Forall_app. split; [exact Hu|repeat constructor; exact Heu]. }
      destruct (Recommender.do_epoch_update s1) as [[[]|x] s2]; simpl in Hs2.
      * eapply IH; [exact E| |exact Hu1]. eapply served_shrinks; eauto.
      * destruct x; inversion E; subst.
        split; [eapply served_shrinks; eauto|exact Hu1].
    + destruct Hstep as [Hs1 _].
      destruct x; inversion E; subst.
      split; [eapply served_shrinks; eauto|exact Hu].
  - inversion E; subst. auto.
Qed.

(** X20. With repetitions disabled and a strategy that selects among the
    offered items, fixed_user_recommendation_loop never recommends an
    item twice: the items of the returned rows are pairwise distinct,
    each was eligible for the user when the loop started, and none is
    eligible when it returns; so the loop returns at most as many rows
    as the user had eligible items. *)
Theorem fixed_user_loop_never_repeats (u : nat) (met : bool) (maxiter : Z)
    (s s' : BaseRecommender T) (rows : list rec_event) :
  Recommender.fixed_user_recommendation_loop G u maxiter false met s
    = Some (Ok rows, s') ->
  NoDup (ev_item <$> rows) /\
  Forall (fun e => ev_user e = u /\ ev_item e ∈ eligible_now s u /\
                   ev_item e ∉ eligible_now s' u) rows /\
  (length rows <= length (eligible_now s u))%nat.
Proof.
  intros E. unfold Recommender.fixed_user_recommendation_loop in E.
  destruct (fixed_loop_served u met maxiter s _ _ _ _ _ _ E) as [Hsv Hu].
  { split; [split; [constructor|intros e He; inversion He]|].
    split; [apply shrinks_refl|constructor]. }
  { constructor. }
  destruct Hsv as ((Hnd & Hout) & _ & Hel).
  assert (Hitems : NoDup (ev_item <$> rows));
    [|split; [exact Hitems|split];
      [|rewrite <- (length_fmap ev_item rows);
        apply submseteq_length, NoDup_submseteq; [exact Hitems|];
        intros x Hx; apply list_elem_of_fmap in Hx as (e & -> & He);
        pose proof (proj1 (Forall_forall _ _) Hu e He) as Heu;
        pose proof (proj1 (Forall_forall _ _) Hel e He) as Hin;
        simpl in *; rewrite Heu in Hin; exact Hin]].
  - assert (Hpairs : event_pairs rows = (fun i => (u, i)) <$> (ev_item <$> rows)).
    { unfold event_pairs. rewrite <- list_fmap_compose.
      apply Forall_fmap_ext_1. eapply Forall_impl; [exact Hu|].
      intros e He. simpl. rewrite He. reflexivity. }
    rewrite Hpairs in Hnd. eapply NoDup_fmap_1. exact Hnd.
  - apply Forall_forall. intros e He.
    pose proof (proj1 (Forall_forall _ _) Hu e He) as Heu.
    pose proof (proj1 (Forall_forall _ _) Hel e He) as Hin.
    pose proof (Hout e He) as Hno. simpl in *. rewrite Heu in *. auto.
Qed.

End LoopsNeverRepeat.

Section RoundsNeverRepeat.
Context {T : Type} `{Strategy T}.
Variable G : nat -> rng.
Hypothesis Hsel : selects_offered T.

Lemma round_try_first_step (u : nat) (s : BaseRecommender T) :
  let res := Recommender.round_try_first G u false s in
  shrinks s (snd res) /\
  forall e, fst res = Ok e ->
            ev_user e = u /\ ev_item e ∈ eligible_now s u /\
            ev_item e ∉ eligible_now (snd res) u.
Proof.
  cbv zeta. unfold Recommender.round_try_first.
  pose proof (recommend_then_check G Hsel u s) as Hrc. cbv zeta in Hrc. revert Hrc.
  se_unfold.
  destruct (Recommender.recommend G u false s) as [[item|x] s1]; simpl;
    [|intros [Hs _]; split; [exact Hs|discriminate]].
  destruct (Recommender.check_rating u item s1) as [[r|x] s2]; simpl;
    [|intros [Hs _]; split; [exact Hs|discriminate]].
  intros [Hs Hok]. destruct (Hok item r eq_refl) as [Hin Hout].
  split; [exact Hs|]. intros e E; inversion E; subst; simpl. auto.
Qed.

Lemma round_try_rest_shrinks (e : rec_event) (met : bool) (s : BaseRecommender T) :
  shrinks s (snd (Recommender.round_try_rest e met s)).
Proof.
  unfold Recommender.round_try_rest. se_unfold.
  pose proof (rating_update_shrinks (ev_user e) (ev_item e) (ev_rating e) s) as Hs1.
  destruct (Recommender.do_rating_update (ev_user e) (ev_item e) (ev_rating e) s)
    as [[[]|x] s1]; simpl in *; [|exact Hs1].
  destruct met; simpl; [|exact Hs1].
  pose proof (eval_recommendation_shrinks (ev_rating e) s1) as Hs2.
  destruct (Recommender.eval_recommendation (ev_rating e) s1) as [[m|x] s2];
    simpl in *; eapply shrinks_trans; eauto.
Qed.

(** One pass of the users loop: the events of the round so far stay
    served, whatever the outcome of the pass. *)
Lemma round_iteration_served (s0 : BaseRecommender T) (past : list rec_event)
    (u rem : nat) (met : bool) (Lrec : list rec_event) (last : option metrics)
    (s : BaseRecommender T) :
  let res := Recommender.round_iteration G u rem false met Lrec last s in
  shrinks s (snd res) /\
  (served s0 (past ++ Lrec) s ->
   forall Lrec' m, fst res = Ok (Lrec', m) -> served s0 (past ++ Lrec') (snd res)).
Proof.
  cbv zeta. unfold Recommender.round_iteration.
  pose proof (round_try_first_step u s) as Hstep. cbv zeta in Hstep.
  destruct (Recommender.round_try_first G u false s) as [[e|x] s1]; simpl in Hstep.
  - destruct Hstep as [Hs1 Hok]. destruct (Hok e eq_refl) as (Heu & Hin & Hout).
    assert (Hadd : served s0 (past ++ Lrec) s -> served s0 (past ++ Lrec ++ [e]) s1).
    { intros Hsv. rewrite app_assoc.
      apply (served_add s0 (past ++ Lrec) e s s1); auto; rewrite Heu; auto. }
    pose proof (round_try_rest_shrinks e met s1) as Hs2.
    destruct (Recommender.round_try_rest e met s1) as [[m|x] s2]; simpl in Hs2.
    + simpl. split; [eauto using shrinks_trans|].
      intros Hsv L m' E; inversion E; subst.
      eapply served_shrinks; [apply Hadd, Hsv|exact Hs2].
    + pose proof (round_except_shrinks u rem (length (Lrec ++ [e])) met last s2) as Hs3.
      destruct x; simpl; try (split; [eauto using shrinks_trans|discriminate]).
      destruct (Recommender.round_except u rem (length (Lrec ++ [e])) met last s2)
        as [[m|x] s3]; simpl in *.
      * split; [eauto using shrinks_trans|].
        intros Hsv L m' E; inversion E; subst.
        eapply served_shrinks; [apply Hadd, Hsv|eauto using shrinks_trans].
      * split; [eauto using shrinks_trans|discriminate].
  - destruct Hstep as [Hs1 _].
    pose proof (round_except_shrinks u rem (length Lrec) met last s1) as Hs3.
    destruct x; simpl; try (split; [exact Hs1|discriminate]).
    destruct (Recommender.round_except u rem (length Lrec) met last s1)
      as [[m|x] s3]; simpl in *.
    + split; [eauto using shrinks_trans|].
      intros Hsv L m' E; inversion E; subst.
      eapply served_shrinks; [exact Hsv|eauto using shrinks_trans].
    + split; [eauto using shrinks_trans|discriminate].
Qed.

Lemma users_loop_served (s0 : BaseRecommender T) (past : list rec_event)
    (met : bool) :
  forall (fuel : nat) (remaining : list nat) (Lrec : list rec_event)
         (last : option metrics) (s : BaseRecommender T),
    let res := Recommender.users_loop G fuel remaining false met Lrec last s in
    shrinks s (snd res) /\
    (served s0 (past ++ Lrec) s ->
     forall Lrec' m, fst res = Ok (Lrec', m) -> served s0 (past ++ Lrec') (snd res)).
Proof.
  induction fuel as [|fuel IH]; intros remaining Lrec last s; cbv zeta; simpl.
  - split; [apply shrinks_refl|]. intros Hsv L m E. inversion E; subst. exact Hsv.
  - destruct (length remaining =? 0)%nat.
    + split; [apply shrinks_refl|]. intros Hsv L m E. inversion E; subst. exact Hsv.
    + unfold Recommender.next_rng. se_unfold. simpl.
      set (s1 := Recommender.set_draws (S (draws s)) s).
      assert (Hs1 : shrinks s s1) by (apply shrinks_same; reflexivity).
      destruct (Recommender.random_choice (G (draws s)) remaining) as [u|x]; simpl;
        [|split; [exact Hs1|discriminate]].
      pose proof (round_iteration_served s0 past u
                    (length (Recommender.list_remove u remaining)) met Lrec last s1)
        as Hit. cbv zeta in Hit.
      destruct (Recommender.round_iteration G u
                  (length (Recommender.list_remove u remaining)) false met Lrec last s1)
        as [[[L1 m1]|x] s2]; simpl in Hit; simpl.
      * destruct Hit as [Hs2 Hok].
        specialize (IH (Recommender.list_remove u remaining) L1 m1 s2).
        cbv zeta in IH. destruct IH as [Hs3 Hrest].
        split; [eauto using shrinks_trans|].
        intros Hsv L m E. apply (Hrest (Hok (served_shrinks s0 _ s s1 Hsv Hs1) L1 m1 eq_refl) L m E).
      * destruct Hit as [Hs2 _]. split; [eauto using shrinks_trans|discriminate].
Qed.

Lemma recommendation_round_served (s0 : BaseRecommender T) (past : list rec_event)
    (met : bool) (s : BaseRecommender T) :
  let res := Recommender.recommendation_round G false met s in
  shrinks s (snd res) /\
  (served s0 past s ->
   forall evs m, fst res = Ok (evs, m) -> served s0 (past ++ evs) (snd res)).
Proof.
  cbv zeta. unfold Recommender.recommendation_round. se_unfold.
  destruct (length (target_users_list s) =? 0)%nat; simpl;
    [split; [apply shrinks_refl|discriminate]|].
  pose proof (users_loop_served s0 past met (length (target_users_list s))
                (target_users_list s) [] None s) as Hul. cbv zeta in Hul.
  rewrite app_nil_r in Hul.
  destruct (Recommender.users_loop G (length (target_users_list s))
              (target_users_list s) false met [] None s) as [[[L m]|x] s1];
    simpl in Hul; simpl; destruct Hul as [Hs1 Hok];
    [|split; [exact Hs1|discriminate]].
  destruct met; simpl.
  - destruct m as [m|]; simpl; [|split; [exact Hs1|discriminate]].
    split; [exact Hs1|]. intros Hsv evs m' E; inversion E; subst.
    apply (Hok Hsv evs (Some m) eq_refl).
  - split; [exact Hs1|]. intros Hsv evs m' E; inversion E; subst.
    apply (Hok Hsv evs m eq_refl).
Qed.

Lemma round_loop_served (s0 : BaseRecommender T) (met : bool) (maxiter : Z) :
  forall (fuel : nat) (i : Z) (recs : list (Z * rec_event))
         (Lm : list (Z * metrics)) (s : BaseRecommender T)
         (recs' : list (Z * rec_event)) (Lm' : list (Z * metrics))
         (s' : BaseRecommender T),
    Recommender.round_loop G fuel i maxiter false met recs Lm s
      = Some (Ok (recs', Lm'), s') ->
    served s0 (snd <$> recs) s -> served s0 (snd <$> recs') s'.
Proof.
  induction fuel as [|fuel IH]; intros i recs Lm s recs' Lm' s' E Hsv;
    [discriminate|].
  simpl in E. destruct (i <? maxiter); [|inversion E; subst; exact Hsv].
  pose proof (recommendation_round_served s0 (snd <$> recs) met s) as Hr.
  cbv zeta in Hr.
  destruct (Recommender.recommendation_round G false met s) as [[[evs m]|x] s1];
    simpl in Hr; destruct Hr as [Hs1 Hok].
  - pose proof (epoch_update_shrinks s1) as Hs2.
    destruct (Recommender.do_epoch_update s1) as [[[]|x] s2]; simpl in Hs2;
      [|discriminate].
    eapply IH; [exact E|].
    rewrite fmap_app, <- list_fmap_compose.
    replace (snd ∘ (fun e : rec_event => (i + 1, e)) <$> evs) with evs
      by (symmetry; apply list_fmap_id).
    eapply served_shrinks; [apply (Hok Hsv evs m eq_refl)|exact Hs2].
  - destruct x; inversion E; subst. eapply served_shrinks; eauto.
Qed.

(** X21. With repetitions disabled and a strategy that selects among the
    offered items, recommendation_round_loop never recommends the same
    item to the same user twice, over all its rounds: the (user, item)
    pairs of the returned rows are pairwise distinct, each item was
    eligible for its user when the loop started, and none is eligible
    for that user when the loop returns. *)
Theorem round_loop_never_repeats (met : bool) (maxiter : Z)
    (s s' : BaseRecommender T) (recs : list (Z * rec_event))
    (Lm : list (Z * metrics)) :
  Recommender.recommendation_round_loop G maxiter false met s
    = Some (Ok (recs, Lm), s') ->
  NoDup (event_pairs (snd <$> recs)) /\
  Forall (fun e => ev_item e ∈ eligible_now s (ev_user e) /\
                   ev_item e ∉ eligible_now s' (ev_user e)) (snd <$> recs).
Proof.
  intros E. unfold Recommender.recommendation_round_loop in E.
  pose proof (round_loop_served s met maxiter _ _ _ _ _ _ _ _ E) as Hsv.
  destruct Hsv as ((Hnd & Hout) & _ & Hel).
  { split; [split; [constructor|intros e He; inversion He]|].
    split; [apply shrinks_refl|constructor]. }
  split; [exact Hnd|].
  apply Forall_forall. intros e He. split.
  - exact (proj1 (Forall_forall _ _) Hel e He).
  - exact (Hout e He).
Qed.

End RoundsNeverRepeat.

Lemma np_random_choice_member (g : rng) (a : list nat) (i : nat) :
  np_random_choice g a = Ok i -> i ∈ a.
Proof.
  intros E. destruct a as [|x a]; [discriminate|].
  destruct (np_random_choice_elem g (x :: a)) as (j & Ej & Hj); [discriminate|].
  congruence.
Qed.

(** X22. select_item of the random recommender raises UserFullError exactly
    when the user has no eligible item, and otherwise returns one of the
    eligible items. *)
Theorem random_select_item_cases (ul : UserLayer) (rep : bool) (g : rng)
    (dl : DataLayer) :
  let idxs := UserLayerOps.get_user_available_items_idxs ul rep in
  (idxs = [] <->
   RandomRecommender.select_item ul rep g dl tt = (Raise UserFullError, tt)) /\
  (idxs <> [] <->
   exists item, RandomRecommender.select_item ul rep g dl tt = (Ok item, tt) /\
                item ∈ idxs).
Proof.
  cbv zeta. unfold RandomRecommender.select_item, se_raise, se_lift.
  destruct (UserLayerOps.get_user_available_items_idxs ul rep) as [|x l] eqn:E.
  - simpl. split; [split; auto|]. split; [congruence|].
    intros (item & Hx & _). discriminate.
  - simpl length. simpl Nat.eqb.
    destruct (np_random_choice_elem g (x :: l)) as (j & Ej & Hj); [discriminate|].
    rewrite Ej. split.
    + split; [discriminate|]. intros Hx. discriminate.
    + split; [|discriminate]. intros _. exists j. auto.
Qed.

Lemma random_selects_offered : selects_offered unit.
Proof.
  intros ul rep g dl st item st'. simpl.
  unfold RandomRecommender.select_item, se_raise, se_lift.
  destruct (length _ =? 0)%nat; [discriminate|].
  destruct (np_random_choice g _) as [j|x] eqn:E; [|discriminate].
  intros Eq; inversion Eq; subst. eapply np_random_choice_member; eauto.
Qed.

Section LoopBounds.
Context {T : Type} `{Strategy T}.
Variable G : nat -> rng.




End LoopBounds.

Lemma list_remove_elem (x y : nat) (l : list nat) :
  y ∈ Recommender.list_remove x l -> y ∈ l.
Proof.
  induction l as [|z l IH]; simpl; [auto|].
  destruct (x =? z)%nat.
  - intros Hy. apply list_elem_of_further, Hy.
  - intros Hy. apply elem_of_cons in Hy as [->|Hy].
    + apply list_elem_of_here.
    + apply list_elem_of_further, IH, Hy.
Qed.

Lemma list_remove_other (x y : nat) (l : list nat) :
  y <> x -> y ∈ l -> y ∈ Recommender.list_remove x l.
Proof.
  intros Hne. induction l as [|z l IH]; simpl; [auto|].
  intros Hy. apply elem_of_cons in Hy as [->|Hy].
  - destruct (x =? z)%nat eqn:E; [apply Nat.eqb_eq in E; congruence|].
    apply list_elem_of_here.
  - destruct (x =? z)%nat; [exact Hy|]. apply list_elem_of_further, IH, Hy.
Qed.

Lemma list_remove_NoDup (x : nat) (l : list nat) :
  NoDup l -> NoDup (Recommender.list_remove x l) /\ x ∉ Recommender.list_remove x l.
Proof.
  induction 1 as [|z l Hz Hl [IH1 IH2]]; simpl.
  - split; [constructor|]. intros Hx. inversion Hx.
  - destruct (x =? z)%nat eqn:E.
    + apply Nat.eqb_eq in E. subst. auto.
    + apply Nat.eqb_neq in E. split.
      * constructor; [|exact IH1]. intros Hx. apply Hz. eapply list_remove_elem, Hx.
      * intros Hx. apply elem_of_cons in Hx as [Hx|Hx]; [congruence|auto].
Qed.

Lemma list_remove_length (x : nat) (l : list nat) :
  x ∈ l -> length l = S (length (Recommender.list_remove x l)).
Proof.
  induction l as [|z l IH]; simpl; intros Hx; [inversion Hx|].
  destruct (x =? z)%nat eqn:E; [reflexivity|].
  apply Nat.eqb_neq in E. apply elem_of_cons in Hx as [Hx|Hx]; [congruence|].
  simpl. f_equal. apply IH, Hx.
Qed.

Section RoundUsers.
Context {T : Type} `{Strategy T}.
Variable G : nat -> rng.

(** The steps of a round that leave the target users alone. *)
Lemma check_rating_targets (u i : nat) (s : BaseRecommender T) :
  target_users_list (snd (Recommender.check_rating u i s)) = target_users_list s.
Proof.
  unfold Recommender.check_rating. se_unfold.
  destruct (user_layers s !! u); reflexivity.
Qed.

Lemma rating_update_targets (u i : nat) (r : rating_record) (s : BaseRecommender T) :
  target_users_list (snd (Recommender.do_rating_update u i r s))
  = target_users_list s.
Proof.
  unfold Recommender.do_rating_update, se_zoom. se_unfold.
  destruct (rating_update u i r (data_layer s) (strategy s)). reflexivity.
Qed.

Lemma eval_recommendation_targets (r : rating_record) (s : BaseRecommender T) :
  target_users_list (snd (Recommender.eval_recommendation r s))
  = target_users_list s.
Proof.
  unfold Recommender.eval_recommendation, se_zoom. se_unfold.
  destruct (EvaluatorOps.all_metrics (data_layer s) r (evaluator s)). reflexivity.
Qed.

Lemma round_try_first_targets (u : nat) (rep : bool) (s : BaseRecommender T) :
  let res := Recommender.round_try_first G u rep s in
  target_users_list (snd res) = target_users_list s /\
  forall e, fst res = Ok e -> ev_user e = u.
Proof.
  cbv zeta. unfold Recommender.round_try_first. se_unfold.
  pose proof (recommend_frame G u rep s) as Hf. cbv zeta in Hf.
  destruct Hf as (_ & _ & _ & Ht & _).
  destruct (Recommender.recommend G u rep s) as [[item|x] s1]; simpl in *;
    [|split; [exact Ht|discriminate]].
  pose proof (check_rating_targets u item s1) as Hc.
  destruct (Recommender.check_rating u item s1) as [[r|x] s2]; simpl in *;
    (split; [congruence|]); [|discriminate].
  intros e E; inversion E; reflexivity.
Qed.

Lemma round_try_rest_targets (e : rec_event) (met : bool) (s : BaseRecommender T) :
  target_users_list (snd (Recommender.round_try_rest e met s))
  = target_users_list s.
Proof.
  unfold Recommender.round_try_rest. se_unfold.
  pose proof (rating_update_targets (ev_user e) (ev_item e) (ev_rating e) s) as H1.
  destruct (Recommender.do_rating_update (ev_user e) (ev_item e) (ev_rating e) s)
    as [[[]|x] s1]; simpl in *; [|exact H1].
  destruct met; simpl; [|exact H1].
  pose proof (eval_recommendation_targets (ev_rating e) s1) as H2.
  destruct (Recommender.eval_recommendation (ev_rating e) s1) as [[m|x] s2];
    simpl in *; congruence.
Qed.

Lemma round_except_targets (u rem n : nat) (met : bool) (last : option metrics)
    (s : BaseRecommender T) :
  target_users_list (snd (Recommender.round_except u rem n met last s))
  = Recommender.list_remove u (target_users_list s).
Proof.
  unfold Recommender.round_except. se_unfold. simpl.
  destruct ((rem =? 0)%nat && (n =? 0)%nat && met); reflexivity.
Qed.

(** One pass of the users loop: the user is recommended an item, or is
    removed from the targets (or both). *)
Lemma round_iteration_users (u rem : nat) (rep met : bool)
    (Lrec : list rec_event) (last : option metrics) (s : BaseRecommender T) :
  let res := Recommender.round_iteration G u rem rep met Lrec last s in
  targets_step u s (snd res) /\
  forall L m, fst res = Ok (L, m) ->
    (exists e, L = Lrec ++ [e] /\ ev_user e = u) \/
    (L = Lrec /\
     target_users_list (snd res) = Recommender.list_remove u (target_users_list s)).
Proof.
  cbv zeta. unfold Recommender.round_iteration, targets_step.
  pose proof (round_try_first_targets u rep s) as H1. cbv zeta in H1.
  destruct (Recommender.round_try_first G u rep s) as [[e|x] s1]; simpl in H1;
    destruct H1 as [Ht1 He].
  - pose proof (round_try_rest_targets e met s1) as Ht2.
    destruct (Recommender.round_try_rest e met s1) as [[m|x] s2]; simpl in Ht2.
    + simpl. split; [left; congruence|].
      intros L m' E; inversion E; subst. left. exists e. auto.
    + pose proof (round_except_targets u rem (length (Lrec ++ [e])) met last s2) as Ht3.
      destruct x; simpl; try (split; [left; congruence|discriminate]).
      destruct (Recommender.round_except u rem (length (Lrec ++ [e])) met last s2)
        as [[m|x] s3]; simpl in *.
      * split; [right; congruence|].
        intros L m' E; inversion E; subst. left. exists e. auto.
      * split; [right; congruence|discriminate].
  - pose proof (round_except_targets u rem (length Lrec) met last s1) as Ht3.
    destruct x; simpl; try (split; [left; congruence|discriminate]).
    destruct (Recommender.round_except u rem (length Lrec) met last s1)
      as [[m|x] s3]; simpl in *.
    + split; [right; congruence|].
      intros L m' E; inversion E; subst. right. split; [reflexivity|congruence].
    + split; [right; congruence|discriminate].
Qed.

Lemma targets_step_sub (u : nat) (s s' : BaseRecommender T) :
  targets_step u s s' ->
  (forall x, x ∈ target_users_list s' -> x ∈ target_users_list s) /\
  (NoDup (target_users_list s) -> NoDup (target_users_list s')) /\
  (forall x, x <> u -> x ∈ target_users_list s -> x ∈ target_users_list s').
Proof.
  intros [E|E]; rewrite E.
  - repeat split; auto.
  - split; [intros x; apply list_remove_elem|].
    split; [intros Hn; apply (list_remove_NoDup u _ Hn)|].
    intros x Hx. apply list_remove_other, Hx.
Qed.

Lemma users_loop_users (rep met : bool) :
  forall (fuel : nat) (remaining : list nat) (Lrec : list rec_event)
         (last : option metrics) (s : BaseRecommender T)
         (Lrec' : list rec_event) (m : option metrics) (s' : BaseRecommender T),
    Recommender.users_loop G fuel remaining rep met Lrec last s
      = (Ok (Lrec', m), s') ->
    fuel = length remaining -> NoDup remaining -> NoDup (target_users_list s) ->
    exists new,
      Lrec' = Lrec ++ new /\ NoDup (ev_user <$> new) /\
      (forall e, e ∈ new -> ev_user e ∈ remaining) /\
      (forall x, x ∈ target_users_list s' -> x ∈ target_users_list s) /\
      NoDup (target_users_list s') /\
      (forall x, x ∈ remaining ->
         x ∈ (ev_user <$> new) \/ x ∉ target_users_list s') /\
      (forall x, x ∉ remaining -> x ∈ target_users_list s ->
         x ∈ target_users_list s').
Proof.
  induction fuel as [|fuel IH];
    intros remaining Lrec last s Lrec' m s' E Hf Hnd Hnt.
  - simpl in E. inversion E; subst. destruct remaining; [|discriminate].
    exists []. rewrite app_nil_r. split; [reflexivity|]. split; [constructor|].
    split; [intros e He; inversion He|]. split; [auto|]. split; [exact Hnt|].
    split; [intros x Hx; inversion Hx|auto].
  - simpl in E. destruct remaining as [|r0 rest] eqn:Er; [discriminate|].
    rewrite <- Er in *. assert (Hl : (length remaining =? 0)%nat = false).
    { rewrite Er. reflexivity. }
    rewrite Hl in E. revert E. unfold Recommender.next_rng. se_unfold. simpl.
    set (s1 := Recommender.set_draws (S (draws s)) s).
    unfold Recommender.random_choice.
    destruct (np_random_choice (G (draws s)) remaining) as [u|x] eqn:Eu; simpl;
      [|discriminate].
    apply np_random_choice_member in Eu.
    pose proof (round_iteration_users u
                  (length (Recommender.list_remove u remaining)) rep met Lrec last s1)
      as Hit. cbv zeta in Hit.
    destruct (Recommender.round_iteration G u
                (length (Recommender.list_remove u remaining)) rep met Lrec last s1)
      as [[[L1 m1]|x] s2]; simpl in Hit; simpl; [|discriminate].
    destruct Hit as [Hstep Hcases].
    destruct (targets_step_sub u s1 s2 Hstep) as (Hsub & Hnd2 & Hkeep).
    change (target_users_list s1) with (target_users_list s) in *.
    destruct (list_remove_NoDup u remaining Hnd) as [Hndr Hur].
    intros E.
    destruct (IH _ _ _ _ _ _ _ E) as (new & -> & Hn1 & Hn2 & Hn3 & Hn4 & Hn5 & Hn6).
    { pose proof (list_remove_length u remaining Eu). lia. }
    { exact Hndr. }
    { apply Hnd2, Hnt. }
    destruct (Hcases L1 m1 eq_refl) as [(e & -> & Heu)|[-> Hrm]].
    + exists (e :: new). split; [rewrite <- app_assoc; reflexivity|].
      split.
      { simpl. constructor; [|exact Hn1]. rewrite Heu. intros Hx.
        apply list_elem_of_fmap in Hx as (e' & He' & Hin').
        apply Hur. pose proof (Hn2 e' Hin') as Hy. rewrite <- He' in Hy. exact Hy. }
      split.
      { intros e' He'. apply elem_of_cons in He' as [->|He'].
        - rewrite Heu. exact Eu.
        - eapply list_remove_elem, Hn2, He'. }
      split; [intros x Hx; apply Hsub, Hn3, Hx|].
      split; [exact Hn4|]. split.
      { intros x Hx. destruct (decide (x = u)) as [->|Hne].
        - left. simpl. rewrite Heu. apply list_elem_of_here.
        - destruct (Hn5 x (list_remove_other u x _ Hne Hx)) as [Hy|Hy]; [|auto].
          left. simpl. apply list_elem_of_further, Hy. }
      { intros x Hx Hxt. apply Hn6.
        - intros Hy. apply Hx. eapply list_remove_elem, Hy.
        - apply Hkeep; [|exact Hxt]. intros ->. apply Hx, Eu. }
    + exists new. split; [reflexivity|]. split; [exact Hn1|].
      split; [intros e' He'; eapply list_remove_elem, Hn2, He'|].
      split; [intros x Hx; apply Hsub, Hn3, Hx|].
      split; [exact Hn4|]. split.
      { intros x Hx. destruct (decide (x = u)) as [->|Hne].
        - right. intros Hy. apply Hn3 in Hy. rewrite Hrm in Hy.
          apply (proj2 (list_remove_NoDup u _ Hnt)), Hy.
        - apply Hn5, list_remove_other; auto. }
      { intros x Hx Hxt. apply Hn6.
        - intros Hy. apply Hx. eapply list_remove_elem, Hy.
        - apply Hkeep; [|exact Hxt]. intros ->. apply Hx, Eu. }
Qed.

(** X24. A returning round visits every target user once: the users of the
    recommendations it returns are pairwise distinct target users, and
    every target user is recommended an item or is no longer a target
    (a user who raised UserFullError); the round adds no target. *)
Theorem round_serves_each_target_once (rep met : bool) (s s' : BaseRecommender T)
    (evs : list rec_event) (m : option metrics) :
  NoDup (target_users_list s) ->
  Recommender.recommendation_round G rep met s = (Ok (evs, m), s') ->
  NoDup (ev_user <$> evs) /\
  (forall e, e ∈ evs -> ev_user e ∈ target_users_list s) /\
  (forall u, u ∈ target_users_list s ->
     u ∈ (ev_user <$> evs) \/ u ∉ target_users_list s') /\
  (forall u, u ∈ target_users_list s' -> u ∈ target_users_list s) /\
  NoDup (target_users_list s') /\
  (length evs <= length (target_users_list s))%nat.
Proof.
  intros Hnd. unfold Recommender.recommendation_round. se_unfold.
  destruct (length (target_users_list s) =? 0)%nat; simpl; [discriminate|].
  destruct (Recommender.users_loop G (length (target_users_list s))
              (target_users_list s) rep met [] None s) as [[[L m0]|x] s1] eqn:E;
    simpl; [|discriminate].
  destruct (users_loop_users rep met _ _ _ _ _ _ _ _ E eq_refl Hnd Hnd)
    as (new & HL & Hn1 & Hn2 & Hn3 & Hn4 & Hn5 & _).
  simpl in HL. subst L.
  assert (Hgoal : NoDup (ev_user <$> new) /\
            (forall e, e ∈ new -> ev_user e ∈ target_users_list s) /\
            (forall u, u ∈ target_users_list s ->
               u ∈ (ev_user <$> new) \/ u ∉ target_users_list s1) /\
            (forall u, u ∈ target_users_list s1 -> u ∈ target_users_list s) /\
            NoDup (target_users_list s1) /\
            (length new <= length (target_users_list s))%nat).
  { repeat (split; [assumption|]).
    rewrite <- (length_fmap ev_user new).
    apply submseteq_length, NoDup_submseteq; [exact Hn1|].
    intros x Hx. apply list_elem_of_fmap in Hx as (e & -> & He). apply Hn2, He. }
  destruct met; simpl.
  - destruct m0 as [m0|]; simpl; [|discriminate].
    intros Eq; inversion Eq; subst. exact Hgoal.
  - intros Eq; inversion Eq; subst. exact Hgoal.
Qed.

End RoundUsers.


(** ** The item bandit recommender *)

Lemma times_rated_cons (r : ratings_row) (rows : list ratings_row) (i : nat) :
  times_rated (r :: rows) i
  = (if decide (row_item r = i) then 1 else 0) + times_rated rows i.
Proof.
  unfold times_rated. destruct (decide (row_item r = i)) as [Hi|Hi].
  - rewrite filter_cons_True by exact Hi. simpl length. lia.
  - rewrite filter_cons_False by exact Hi. lia.
Qed.

Lemma times_rated_as_cons (v : Q) (r : ratings_row) (rows : list ratings_row)
    (i : nat) :
  times_rated_as v (r :: rows) i
  = (if decide (row_item r = i)
     then if py_eq (rating (row_record r)) v then 1 else 0 else 0)
    + times_rated_as v rows i.
Proof.
  unfold times_rated_as. destruct (decide (row_item r = i)) as [Hi|Hi].
  - destruct (py_eq (rating (row_record r)) v) eqn:Ev.
    + rewrite filter_cons_True by (split; [exact Hi|exact Ev]). simpl length. lia.
    + rewrite filter_cons_False by (intros [_ Hx]; congruence). lia.
  - rewrite filter_cons_False by (intros [Hx _]; congruence). lia.
Qed.

(** What one pass of the training loop does to the bandit. *)
Lemma train_row_effect (s : NaiveMAB) (r : ratings_row) :
  bandit_inv s -> (row_item r < length (num_pulls s))%nat ->
  exists s',
    FPItemMABRecommender.train_row r s = (Ok tt, s') /\ bandit_inv s' /\
    t s' = t s + 1 /\
    (forall i n, num_pulls s !! i = Some n ->
       num_pulls s' !! i = Some (n + (if decide (row_item r = i) then 1 else 0))) /\
    (forall i a, alphas s !! i = Some a ->
       exists a', alphas s' !! i = Some a' /\
         (a' == a + inject_Z (if decide (row_item r = i)
                              then if py_eq (rating (row_record r)) 1 then 1 else 0
                              else 0))%Q) /\
    (forall i b, betas s !! i = Some b ->
       exists b', betas s' !! i = Some b' /\
         (b' == b + inject_Z (if decide (row_item r = i)
                              then if py_eq (rating (row_record r)) 0 then 1 else 0
                              else 0))%Q).
Proof.
  intros Hs Hlt. set (k := row_item r) in *.
  unfold FPItemMABRecommender.train_row, MAB.pull_fixed_arm. fold k. se_unfold.
  pose proof (record_pull_bandit_inv k s Hs) as Hs1.
  destruct (record_pull_cases k s) as [(n & Hn & E1)|[Hn _]];
    [|apply lookup_ge_None in Hn; lia].
  rewrite E1 in *. simpl in Hs1.
  set (s1 := set_t (set_num_pulls s (<[k:=n + 1]> (num_pulls s))) (t s + 1)) in *.
  assert (Hp1 : forall i m, num_pulls s !! i = Some m ->
            num_pulls s1 !! i = Some (m + (if decide (k = i) then 1 else 0))).
  { intros i m Hm. simpl. destruct (decide (k = i)) as [<-|Hne].
    - rewrite list_lookup_insert_eq by exact Hlt. congruence.
    - rewrite list_lookup_insert_ne by exact Hne. rewrite Hm. f_equal. lia. }
  assert (Hlt1 : (k < length (num_pulls s1))%nat).
  { simpl. rewrite length_insert. exact Hlt. }
  destruct (aligned_lookup s1 k (proj1 (proj1 Hs1)) Hlt1)
    as (a & b & e & Ha & Hb & He & _).
  assert (Hla : (k < length (alphas s))%nat) by (eapply lookup_lt_Some; exact Ha).
  assert (Hlb : (k < length (betas s))%nat) by (eapply lookup_lt_Some; exact Hb).
  (* the bandit is left as it is by the update *)
  assert (Hsame : forall i x, alphas s !! i = Some x ->
            exists x', alphas s1 !! i = Some x' /\ (x' == x + inject_Z 0)%Q).
  { intros i x Hx. exists x. split; [exact Hx|]. unfold inject_Z. ring. }
  assert (Hsameb : forall i x, betas s !! i = Some x ->
            exists x', betas s1 !! i = Some x' /\ (x' == x + inject_Z 0)%Q).
  { intros i x Hx. exists x. split; [exact Hx|]. unfold inject_Z. ring. }
  assert (Hkeep : MAB.update_rewards k (rating (row_record r)) false s1 = (Ok tt, s1) ->
            py_eq (rating (row_record r)) 1 = false ->
            py_eq (rating (row_record r)) 0 = false ->
            exists s', MAB.update_rewards k (rating (row_record r)) false s1 = (Ok tt, s')
              /\ bandit_inv s' /\ t s' = t s + 1 /\
              (forall i n, num_pulls s !! i = Some n ->
                 num_pulls s' !! i = Some (n + (if decide (k = i) then 1 else 0))) /\
              (forall i a, alphas s !! i = Some a ->
                 exists a', alphas s' !! i = Some a' /\
                   (a' == a + inject_Z (if decide (k = i)
                              then if py_eq (rating (row_record r)) 1 then 1 else 0
                              else 0))%Q) /\
              (forall i b, betas s !! i = Some b ->
                 exists b', betas s' !! i = Some b' /\
                   (b' == b + inject_Z (if decide (k = i)
                              then if py_eq (rating (row_record r)) 0 then 1 else 0
                              else 0))%Q)).
  { intros E2 H1 H0. exists s1. rewrite H1, H0.
    split; [exact E2|]. split; [exact Hs1|]. split; [reflexivity|].
    split; [exact Hp1|]. split.
    - intros i x Hx. destruct (decide (k = i)); apply Hsame, Hx.
    - intros i x Hx. destruct (decide (k = i)); apply Hsameb, Hx. }
  destruct (rating (row_record r)) as [|q] eqn:Er.
  - apply Hkeep; [|reflexivity|reflexivity].
    apply (proj2 (update_rewards_nan s1 k a b e Ha Hb He)).
  - destruct (Qeq_dec q 1) as [Hq1|Hq1].
    + (* success *)
      rewrite (update_rewards_success s1 k a b e q false Ha Hb He Hq1).
      exists (after_success s1 k a b).
      assert (H1 : Qeq_bool q 1 = true) by (apply Qeq_bool_iff; exact Hq1).
      assert (H0 : Qeq_bool q 0 = false).
      { destruct (Qeq_bool q 0) eqn:E0; [|reflexivity].
        apply Qeq_bool_iff in E0. rewrite E0 in Hq1. discriminate. }
      simpl py_eq. rewrite H1, H0.
      split; [reflexivity|].
      split; [eapply after_success_bandit_inv; eauto|].
      split; [reflexivity|]. split; [exact Hp1|]. split.
      * intros i x Hx. simpl. destruct (decide (k = i)) as [<-|Hne].
        -- rewrite list_lookup_insert_eq by exact Hla.
           eexists. split; [reflexivity|].
           simpl in Ha. rewrite Hx in Ha. injection Ha as <-.
           unfold inject_Z. reflexivity.
        -- rewrite list_lookup_insert_ne by exact Hne.
           exists x. split; [exact Hx|]. unfold inject_Z. ring.
      * intros i x Hx. simpl. exists x. split; [exact Hx|].
        destruct (decide (k = i)); unfold inject_Z; ring.
    + destruct (Qeq_dec q 0) as [Hq0|Hq0].
      * (* failure *)
        rewrite (update_rewards_failure s1 k a b e q false Ha Hb He Hq0).
        exists (after_failure s1 k a b).
        assert (H0 : Qeq_bool q 0 = true) by (apply Qeq_bool_iff; exact Hq0).
        assert (H1 : Qeq_bool q 1 = false).
        { destruct (Qeq_bool q 1) eqn:E1'; [|reflexivity].
          apply Qeq_bool_iff in E1'. contradiction. }
        simpl py_eq. rewrite H1, H0.
        split; [reflexivity|].
        split; [eapply after_failure_bandit_inv; eauto|].
        split; [reflexivity|]. split; [exact Hp1|]. split.
        -- intros i x Hx. simpl. exists x. split; [exact Hx|].
           destruct (decide (k = i)); unfold inject_Z; ring.
        -- intros i x Hx. simpl. destruct (decide (k = i)) as [<-|Hne].
           ++ rewrite list_lookup_insert_eq by exact Hlb.
              eexists. split; [reflexivity|].
              simpl in Hb. rewrite Hx in Hb. injection Hb as <-.
              unfold inject_Z. reflexivity.
           ++ rewrite list_lookup_insert_ne by exact Hne.
              exists x. split; [exact Hx|]. unfold inject_Z. ring.
      * (* any other value *)
        assert (H1 : Qeq_bool q 1 = false).
        { destruct (Qeq_bool q 1) eqn:E1'; [|reflexivity].
          apply Qeq_bool_iff in E1'. contradiction. }
        assert (H0 : Qeq_bool q 0 = false).
        { destruct (Qeq_bool q 0) eqn:E0; [|reflexivity].
          apply Qeq_bool_iff in E0. contradiction. }
        apply Hkeep; [|exact H1|exact H0].
        rewrite (update_rewards_other s1 k q false Hq0 Hq1).
        apply (proj2 (update_rewards_nan s1 k a b e Ha Hb He)).
Qed.

Lemma train_rows_effect (rows : list ratings_row) :
  forall s : NaiveMAB,
    bandit_inv s ->
    Forall (fun r => (row_item r < length (num_pulls s))%nat) rows ->
    exists s',
      FPItemMABRecommender.train_rows rows s = (Ok tt, s') /\ bandit_inv s' /\
      t s' = t s + Z.of_nat (length rows) /\
      (forall i n, num_pulls s !! i = Some n ->
         num_pulls s' !! i = Some (n + times_rated rows i)) /\
      (forall i a, alphas s !! i = Some a ->
         exists a', alphas s' !! i = Some a' /\
           (a' == a + inject_Z (times_rated_as 1 rows i))%Q) /\
      (forall i b, betas s !! i = Some b ->
         exists b', betas s' !! i = Some b' /\
           (b' == b + inject_Z (times_rated_as 0 rows i))%Q).
Proof.
  induction rows as [|r rows IH]; intros s Hs Hin.
  - exists s. split; [reflexivity|]. split; [exact Hs|].
    split; [simpl; lia|]. split; [|split].
    + intros i n Hn. rewrite Hn. f_equal. unfold times_rated. simpl. lia.
    + intros i a Ha. exists a. split; [exact Ha|].
      unfold times_rated_as, inject_Z. simpl. ring.
    + intros i b Hb. exists b. split; [exact Hb|].
      unfold times_rated_as, inject_Z. simpl. ring.
  - inversion Hin as [|? ? Hr Hrest]; subst.
    destruct (train_row_effect s r Hs Hr) as (s1 & E1 & Hs1 & Ht1 & Hp1 & Ha1 & Hb1).
    assert (Hin1 : Forall (fun r => (row_item r < length (num_pulls s1))%nat) rows).
    { eapply Forall_impl; [exact Hrest|]. intros r' Hr'. simpl in *.
      destruct (lookup_lt_is_Some_2 _ _ Hr') as [n Hn].
      eapply lookup_lt_Some. apply (Hp1 _ _ Hn). }
    destruct (IH s1 Hs1 Hin1) as (s' & E2 & Hs' & Ht' & Hp' & Ha' & Hb').
    exists s'. split.
    { simpl. se_unfold. rewrite E1. exact E2. }
    split; [exact Hs'|]. split; [rewrite Ht', Ht1; simpl length; lia|].
    split; [|split].
    + intros i n Hn. rewrite (Hp' _ _ (Hp1 _ _ Hn)). f_equal.
      rewrite times_rated_cons. lia.
    + intros i a Ha. destruct (Ha1 i a Ha) as (a1 & Hl1 & Hq1).
      destruct (Ha' i a1 Hl1) as (a2 & Hl2 & Hq2).
      exists a2. split; [exact Hl2|].
      rewrite Hq2, Hq1, times_rated_as_cons, inject_Z_plus. ring.
    + intros i b Hb. destruct (Hb1 i b Hb) as (b1 & Hl1 & Hq1).
      destruct (Hb' i b1 Hl1) as (b2 & Hl2 & Hq2).
      exists b2. split; [exact Hl2|].
      rewrite Hq2, Hq1, times_rated_as_cons, inject_Z_plus. ring.
Qed.

(** The training rows of a constructed store name items of the store. *)
Lemma training_items_in_range users_arg items_arg splitted whole_set rand
    test_proportion rel anti dl :
  DataLayerOps.init users_arg items_arg splitted whole_set rand test_proportion
    rel anti = Ok dl ->
  Forall (fun r => (row_item r < DataLayerOps.get_n_items dl)%nat)
    (initial_train_set dl).
Proof.
  intros Hinit.
  destruct (init_indexes _ _ _ _ _ _ _ _ _ Hinit) as (_ & _ & Htr & _).
  apply to_indexes_rows in Htr.
  induction Htr as [|r r' rows rows' (_ & Hgi & _) _ IH]; constructor; [|exact IH].
  unfold get_loc in Hgi.
  destruct (get_loc_from_sound _ _ _ _ Hgi) as (j & -> & Hj).
  unfold DataLayerOps.get_n_items. simpl. eapply lookup_lt_Some; eauto.
Qed.

Section ItemMABProofs.
Context `{FL : FloatLib}.

(** Whatever its state, the item bandit returns one of the offered items. *)
Lemma item_mab_selects_offered : selects_offered ItemMAB.
Proof.
  intros ul rep g dl st item st'. simpl.
  unfold FPItemMABRecommender.select_item.
  destruct (MAB.restricted_pull _ g (mab st)) as [[[fake arm]|x] m].
  - unfold np_get.
    destruct (UserLayerOps.get_user_available_items_idxs ul rep !! fake)
      as [it|] eqn:E; [|discriminate].
    intros Eq; inversion Eq; subst. eapply list_elem_of_lookup_2; eauto.
  - destruct x; discriminate.
Qed.

Lemma item_mab_no_offer (ul : UserLayer) (rep : bool) (g : rng) (dl : DataLayer)
    (st : ItemMAB) :
  UserLayerOps.get_user_available_items_idxs ul rep = [] ->
  FPItemMABRecommender.select_item ul rep g dl st = (Raise UserFullError, st).
Proof.
  intros He. unfold FPItemMABRecommender.select_item. rewrite He.
  unfold MAB.restricted_pull. se_unfold. simpl. rewrite run_policy_empty.
  destruct st; reflexivity.
Qed.

(** X25. select_item of the item bandit, on a bandit that a recommender can
    hold and items that are arms of it: with no eligible item it raises
    UserFullError and changes nothing; otherwise it returns an eligible
    item, records that item as last_armidx, and counts one pull for the
    arm of that item and one epoch, leaving the success and failure
    counters and the estimates as they were. *)
Theorem item_mab_select_item (ul : UserLayer) (rep : bool) (g : rng)
    (dl : DataLayer) (st : ItemMAB) :
  MAB.reachable MAB.Restricted (mab st) ->
  let idxs := UserLayerOps.get_user_available_items_idxs ul rep in
  Forall (fun i => (i < length (num_pulls (mab st)))%nat) idxs ->
  (idxs = [] ->
   FPItemMABRecommender.select_item ul rep g dl st = (Raise UserFullError, st)) /\
  (idxs <> [] ->
   exists item n st',
     FPItemMABRecommender.select_item ul rep g dl st = (Ok item, st') /\
     item ∈ idxs /\ last_armidx st' = Some item /\
     num_pulls (mab st) !! item = Some n /\
     num_pulls (mab st') = <[item := n + 1]> (num_pulls (mab st)) /\
     t (mab st') = t (mab st) + 1 /\
     alphas (mab st') = alphas (mab st) /\ betas (mab st') = betas (mab st) /\
     reward_estimates (mab st') = reward_estimates (mab st) /\
     MAB.reachable MAB.Restricted (mab st')).
Proof.
  intros Hr idxs Hin. split.
  - intros He. apply item_mab_no_offer. exact He.
  - intros Hne.
    destruct (restricted_pull_ok (mab st) idxs g (reachable_bandit_inv _ _ Hr) Hne Hin)
      as (fake & arm & n & E & Harm & Hn).
    assert (Hreach : MAB.reachable MAB.Restricted
                       (MAB.after (mab st) (MAB.CallRestrictedPull idxs g))).
    { apply MAB.reach_call; [exact Hr|reflexivity]. }
    simpl in Hreach. rewrite E in Hreach. simpl in Hreach.
    exists arm, n. eexists.
    unfold FPItemMABRecommender.select_item. fold idxs. rewrite E.
    unfold np_get. rewrite Harm.
    split; [reflexivity|]. simpl.
    split; [eapply list_elem_of_lookup_2; eauto|].
    repeat (split; [first [reflexivity|exact Hn]|]). exact Hreach.
Qed.

(** X26. Training replays the training set into the bandit.  For a constructed
    store and the recommender constructed over it, train returns, and
    afterwards the bandit's epoch is one more than the number of training
    ratings, the pull count of the arm of every item is the number of
    training ratings of that item, its success counter is the prior plus
    the number of those ratings equal to 1 and its failure counter the
    prior plus the number equal to 0; ratings with any other value count
    as pulls only. *)
Theorem item_mab_train_replays_training_set users_arg items_arg splitted
    whole_set rand test_proportion rel anti dl
    (p : policy_name) (eps dlt a0 b0 : Q) (rec : BaseRecommender ItemMAB) :
  DataLayerOps.init users_arg items_arg splitted whole_set rand test_proportion
    rel anti = Ok dl ->
  FPItemMABRecommender.init dl p eps dlt a0 b0 = Ok rec ->
  exists st',
    FPItemMABRecommender.train (data_layer rec) (strategy rec) = (Ok tt, st') /\
    last_armidx st' = None /\
    t (mab st') = 1 + Z.of_nat (length (initial_train_set dl)) /\
    forall item, (item < DataLayerOps.get_n_items dl)%nat ->
      num_pulls (mab st') !! item = Some (times_rated (initial_train_set dl) item) /\
      (exists a, alphas (mab st') !! item = Some a /\
         (a == a0 + inject_Z (times_rated_as 1 (initial_train_set dl) item))%Q) /\
      (exists b, betas (mab st') !! item = Some b /\
         (b == b0 + inject_Z (times_rated_as 0 (initial_train_set dl) item))%Q).
Proof.
  intros Hdl Hrec. unfold FPItemMABRecommender.init in Hrec.
  destruct (MAB.init p (DataLayerOps.get_n_items dl) eps dlt a0 b0) as [m|x] eqn:Em;
    [|discriminate].
  simpl in Hrec. injection Hrec as <-. simpl.
  pose proof (init_bandit_inv _ _ _ _ _ _ _ Em) as Hm.
  unfold MAB.init in Em.
  destruct (negb (Qle_bool 0 a0 && Qle_bool 0 b0)); [discriminate|].
  injection Em as <-.
  destruct (train_rows_effect (initial_train_set dl) _ Hm)
    as (m' & E & _ & Ht & Hp & Ha & Hb).
  { simpl. rewrite length_replicate.
    exact (training_items_in_range _ _ _ _ _ _ _ _ _ Hdl). }
  unfold FPItemMABRecommender.train, se_zoom. simpl. rewrite E.
  eexists. split; [reflexivity|]. simpl. split; [reflexivity|].
  split; [rewrite Ht; reflexivity|].
  intros item Hlt. simpl in Hp, Ha, Hb.
  split; [|split].
  - rewrite (Hp item 0); [f_equal; lia|]. apply lookup_replicate_2. exact Hlt.
  - apply Ha. apply lookup_replicate_2. exact Hlt.
  - apply Hb. apply lookup_replicate_2. exact Hlt.
Qed.

(** X27. rating_update of the item bandit credits the arm selected last, not
    the item it is passed.  Before any selection it raises AttributeError
    and changes nothing.  After a selection that returned [item]: a
    rating equal to 1 is a success for the arm of [item], a rating equal
    to 0 a failure, and any other rating, the unknown rating included,
    leaves the recommender as it is. *)
Theorem item_mab_feedback_goes_to_selected_arm (ul : UserLayer) (rep : bool)
    (g : rng) (dl : DataLayer) (st st1 : ItemMAB) (item : nat)
    (u i : nat) (r : rating_record) :
  MAB.reachable MAB.Restricted (mab st) ->
  Forall (fun k => (k < length (num_pulls (mab st)))%nat)
    (UserLayerOps.get_user_available_items_idxs ul rep) ->
  FPItemMABRecommender.select_item ul rep g dl st = (Ok item, st1) ->
  (last_armidx st = None ->
   FPItemMABRecommender.rating_update u i r dl st = (Raise AttributeError, st)) /\
  exists a b,
    alphas (mab st1) !! item = Some a /\ betas (mab st1) !! item = Some b /\
    FPItemMABRecommender.rating_update u i r dl st1 =
      (Ok tt,
       if py_eq (rating r) 1
       then FPItemMABRecommender.set_mab st1 (after_success (mab st1) item a b)
       else if py_eq (rating r) 0
       then FPItemMABRecommender.set_mab st1 (after_failure (mab st1) item a b)
       else st1).
Proof.
  intros Hr Hin Hsel. split.
  { intros Hl. unfold FPItemMABRecommender.rating_update. rewrite Hl. reflexivity. }
  set (idxs := UserLayerOps.get_user_available_items_idxs ul rep) in *.
  assert (Hne : idxs <> []).
  { intros He. rewrite (item_mab_no_offer ul rep g dl st He) in Hsel.
    discriminate. }
  destruct (restricted_pull_ok (mab st) idxs g (reachable_bandit_inv _ _ Hr) Hne Hin)
    as (fake & arm & n & E & Harm & Hn).
  unfold FPItemMABRecommender.select_item in Hsel. fold idxs in Hsel.
  rewrite E in Hsel. unfold np_get in Hsel. rewrite Harm in Hsel.
  injection Hsel as <- <-.
  assert (Hreach : MAB.reachable MAB.Restricted
                     (MAB.after (mab st) (MAB.CallRestrictedPull idxs g))).
  { apply MAB.reach_call; [exact Hr|reflexivity]. }
  simpl in Hreach. rewrite E in Hreach. simpl in Hreach.
  set (m1 := set_t (set_num_pulls (mab st) (<[arm:=n + 1]> (num_pulls (mab st))))
               (t (mab st) + 1)) in *.
  pose proof (reachable_bandit_inv _ _ Hreach) as Hm1.
  assert (Hlt : (arm < length (num_pulls m1))%nat).
  { simpl. rewrite length_insert. eapply lookup_lt_Some; eauto. }
  destruct (aligned_lookup m1 arm (proj1 (proj1 Hm1)) Hlt)
    as (a & b & e & Ha & Hb & He & _).
  exists a, b. split; [exact Ha|]. split; [exact Hb|].
  unfold FPItemMABRecommender.rating_update, DataLayerOps.get_reward, se_zoom.
  simpl last_armidx. simpl mab. fold m1.
  destruct (rating r) as [|q] eqn:Er.
  - rewrite (proj2 (update_rewards_nan m1 arm a b e Ha Hb He)). reflexivity.
  - simpl py_eq. destruct (Qeq_bool q 1) eqn:E1.
    + apply Qeq_bool_iff in E1.
      rewrite (update_rewards_success m1 arm a b e q false Ha Hb He E1). reflexivity.
    + destruct (Qeq_bool q 0) eqn:E0.
      * apply Qeq_bool_iff in E0.
        rewrite (update_rewards_failure m1 arm a b e q false Ha Hb He E0). reflexivity.
      * assert (Hq0 : ~ (q == 0)%Q).
        { intros Hx. apply Qeq_bool_iff in Hx. congruence. }
        assert (Hq1 : ~ (q == 1)%Q).
        { intros Hx. apply Qeq_bool_iff in Hx. congruence. }
        rewrite (update_rewards_other m1 arm q false Hq0 Hq1).
        rewrite (proj2 (update_rewards_nan m1 arm a b e Ha Hb He)). reflexivity.
Qed.

End ItemMABProofs.


(** ** Runs on the fixtures *)

Lemma recommend_marks_item_witness :
  exists dl item s' ul,
    DataLayerOps.init None None false (two_user_ratings 0 1) (first_rows_train 1)
      (1 # 2) (1 # 2) (1 # 2) = Ok dl /\
    Recommender.recommend fixed_rng 1 false (Recommender.init dl tt)
      = (Ok item, s') /\
    user_layers s' =
      <[1%nat := UserLayerOps.add_recommended_item ul item]>
        (user_layers (Recommender.init dl tt)).
Proof.
  destruct (DataLayerOps.init None None false (two_user_ratings 0 1)
              (first_rows_train 1) (1 # 2) (1 # 2) (1 # 2)) as [dl|e] eqn:E;
    [|vm_compute in E; discriminate].
  destruct (Recommender.recommend fixed_rng 1 false (Recommender.init dl tt))
    as [[item|x] s'] eqn:E2;
    [|vm_compute in E; injection E as <-; vm_compute in E2; discriminate].
  destruct (proj1 (recommend_marks_item fixed_rng 1 false _) item s' E2)
    as (ul & _ & _ & Hl & _).
  exists dl, item, s', ul. split; [reflexivity|]. split; [exact E2|exact Hl].
Defined.

Lemma fixed_user_loop_never_repeats_witness :
  exists dl rows s',
    DataLayerOps.init None None false (two_user_ratings 0 1) (first_rows_train 1)
      (1 # 2) (1 # 2) (1 # 2) = Ok dl /\
    Recommender.fixed_user_recommendation_loop fixed_rng 1 3 false false
      (Recommender.init dl tt) = Some (Ok rows, s') /\
    NoDup (ev_item <$> rows).
Proof.
  destruct (DataLayerOps.init None None false (two_user_ratings 0 1)
              (first_rows_train 1) (1 # 2) (1 # 2) (1 # 2)) as [dl|e] eqn:E;
    [|vm_compute in E; discriminate].
  destruct (Recommender.fixed_user_recommendation_loop fixed_rng 1 3 false false
              (Recommender.init dl tt)) as [[[rows|x] s']|] eqn:E2;
    [|vm_compute in E; injection E as <-; vm_compute in E2; discriminate..].
  exists dl, rows, s'. split; [reflexivity|]. split; [exact E2|].
  exact (proj1 (fixed_user_loop_never_repeats fixed_rng random_selects_offered
                  1 false 3 _ s' rows E2)).
Defined.

Lemma round_loop_never_repeats_witness :
  exists dl recs Lm s',
    DataLayerOps.init None None false (two_user_ratings 0 1) (first_rows_train 1)
      (1 # 2) (1 # 2) (1 # 2) = Ok dl /\
    Recommender.recommendation_round_loop fixed_rng 3 false false
      (Recommender.init dl tt) = Some (Ok (recs, Lm), s') /\
    NoDup (event_pairs (snd <$> recs)).
Proof.
  destruct (DataLayerOps.init None None false (two_user_ratings 0 1)
              (first_rows_train 1) (1 # 2) (1 # 2) (1 # 2)) as [dl|e] eqn:E;
    [|vm_compute in E; discriminate].
  destruct (Recommender.recommendation_round_loop fixed_rng 3 false false
              (Recommender.init dl tt)) as [[[[recs Lm]|x] s']|] eqn:E2;
    [|vm_compute in E; injection E as <-; vm_compute in E2; discriminate..].
  exists dl, recs, Lm, s'. split; [reflexivity|]. split; [exact E2|].
  exact (proj1 (round_loop_never_repeats fixed_rng random_selects_offered
                  false 3 _ s' recs Lm E2)).
Defined.

Lemma round_serves_each_target_once_witness :
  exists dl evs m s',
    DataLayerOps.init None None false (two_user_ratings 0 1) (first_rows_train 1)
      (1 # 2) (1 # 2) (1 # 2) = Ok dl /\
    Recommender.recommendation_round fixed_rng false false
      (Recommender.init dl tt) = (Ok (evs, m), s') /\
    NoDup (ev_user <$> evs).
Proof.
  destruct (DataLayerOps.init None None false (two_user_ratings 0 1)
              (first_rows_train 1) (1 # 2) (1 # 2) (1 # 2)) as [dl|e] eqn:E;
    [|vm_compute in E; discriminate].
  destruct (Recommender.recommendation_round fixed_rng false false
              (Recommender.init dl tt)) as [[[evs m]|x] s'] eqn:E2;
    [|vm_compute in E; injection E as <-; vm_compute in E2; discriminate].
  exists dl, evs, m, s'. split; [reflexivity|]. split; [exact E2|].
  refine (proj1 (round_serves_each_target_once fixed_rng false false _ s' evs m
                   _ E2)).
  simpl. apply NoDup_seq.
Defined.

Lemma fresh_greedy_2_reachable :
  MAB.reachable (FL := coarse_floatlib) MAB.Restricted fresh_greedy_2.
Proof. eapply MAB.reach_init. exact fresh_greedy_2_init. Defined.

Lemma item_mab_select_item_witness :
  exists item n st',
    FPItemMABRecommender.select_item (FL := coarse_floatlib) one_item_left false
      (fixed_rng 0)
      {| relevanceThreshold := 3; antiRelevanceThreshold := 3;
         initial_train_set := []; utility_matrix := empty_frame;
         test_df := []; users := []; items := [];
         relevantCount := 0; antiRelevantCount := 0; toDiscoverCount := 0;
         test_set := ∅ |}
      {| mab := fresh_greedy_2; last_armidx := None |} = (Ok item, st') /\
    item ∈ [1%nat] /\ last_armidx st' = Some item /\
    num_pulls fresh_greedy_2 !! item = Some n.
Proof.
  destruct (proj2 (item_mab_select_item (FL := coarse_floatlib) one_item_left false
                     (fixed_rng 0)
                     {| relevanceThreshold := 3; antiRelevanceThreshold := 3;
                        initial_train_set := []; utility_matrix := empty_frame;
                        test_df := []; users := []; items := [];
                        relevantCount := 0; antiRelevantCount := 0;
                        toDiscoverCount := 0; test_set := ∅ |}
                     {| mab := fresh_greedy_2; last_armidx := None |}
                     fresh_greedy_2_reachable
                     ltac:(repeat constructor))
              ltac:(discriminate))
    as (item & n & st' & Hs & Hin & Hl & Hn & _).
  exists item, n, st'. auto.
Defined.

Lemma item_mab_train_replays_training_set_witness :
  exists dl rec st',
    DataLayerOps.init None None false three_users_two_items (first_rows_train 2)
      (1 # 2) (1 # 2) (1 # 2) = Ok dl /\
    FPItemMABRecommender.init dl Greedy (1 # 5) 2 0 0 = Ok rec /\
    FPItemMABRecommender.train (data_layer rec) (strategy rec) = (Ok tt, st') /\
    t (mab st') = 1 + Z.of_nat (length (initial_train_set dl)).
Proof.
  destruct (DataLayerOps.init None None false three_users_two_items
              (first_rows_train 2) (1 # 2) (1 # 2) (1 # 2)) as [dl|e] eqn:E;
    [|vm_compute in E; discriminate].
  destruct (FPItemMABRecommender.init dl Greedy (1 # 5) 2 0 0) as [rec|x] eqn:E2;
    [|unfold FPItemMABRecommender.init in E2; simpl in E2; discriminate].
  destruct (item_mab_train_replays_training_set _ _ _ _ _ _ _ _ dl Greedy
              (1 # 5) 2 0 0 rec E E2) as (st' & Ht & _ & Hep & _).
  exists dl, rec, st'. auto.
Defined.

Lemma item_mab_feedback_goes_to_selected_arm_witness :
  let dl := {| relevanceThreshold := 3; antiRelevanceThreshold := 3;
               initial_train_set := []; utility_matrix := empty_frame;
               test_df := []; users := []; items := [];
               relevantCount := 0; antiRelevantCount := 0; toDiscoverCount := 0;
               test_set := ∅ |} in
  let st := {| mab := fresh_greedy_2; last_armidx := None |} in
  let r := {| rating := Fin 1; known := None |} in
  exists item st1 a b,
    FPItemMABRecommender.select_item (FL := coarse_floatlib) one_item_left false
      (fixed_rng 0) dl st = (Ok item, st1) /\
    FPItemMABRecommender.rating_update 0 0 r dl st1 =
      (Ok tt, FPItemMABRecommender.set_mab st1 (after_success (mab st1) item a b)).
Proof.
  intros dl st r.
  destruct (FPItemMABRecommender.select_item (FL := coarse_floatlib) one_item_left
              false (fixed_rng 0) dl st) as [[item|x] st1] eqn:E;
    [|vm_compute in E; discriminate].
  destruct (item_mab_feedback_goes_to_selected_arm (FL := coarse_floatlib)
              one_item_left false (fixed_rng 0) dl st st1 item 0 0 r
              fresh_greedy_2_reachable ltac:(repeat constructor) E)
    as (_ & a & b & _ & _ & Hu).
  exists item, st1, a, b. split; [reflexivity|exact Hu].
Defined.
